(** * dao-action-builder: the type-directed validation engine

    A shallow embedding of
      packages/dao-action-builder/src/validation/validators.ts
      packages/dao-action-builder/src/validation/normalizers.ts
      packages/dao-action-builder/src/core/abi-utils.ts
      packages/dao-action-builder/src/core/calldata-encoder.ts
      packages/dao-action-builder/src/core/action-builder.ts
    and the properties their specification states about them.

    Conventions of the embedding.
    - A JavaScript string is a [string]: a sequence of code units below 256
      (the Latin-1 range).  The ABI type grammar, addresses, numeric
      literals and the syntax of JSON are all ASCII.
    - A BigInt is a [Z], unbounded (engines cap a BigInt near 2^30 bits).
      A Number that [parseInt] gives is a [number]: NaN, an infinity, or
      [Num z] for the double whose value is the integer [z]; [to_double]
      rounds an integer to the nearest double and [number_to_string]
      prints a double as [String] does, in exponent form from 1e21.
    - A JavaScript exception is the outcome [Raise]; [try]/[catch] is
      [catch].  The dispatcher and the normalizer recurse through type
      strings they synthesize; the embedding bounds this recursion by
      fuel, computes the fuel from the arguments, and shows that it
      suffices ([validateParameterType_unfold],
      [normalizeParameterValue_unfold]).
    - [JSON.parse] and the binary codec are parameters of the engine. *)

From Stdlib Require Import ZArith String Ascii List Bool Lia.
From Stdlib Require Import DecimalString DecimalZ DecimalN DecimalPos.
Import ListNotations.

Open Scope string_scope.
Open Scope Z_scope.

(** ** Code units and character classes *)

Definition code (c : ascii) : N := N_of_ascii c.

Definition between (lo hi : N) (c : ascii) : bool :=
  (lo <=? code c)%N && (code c <=? hi)%N.

(** [\d] and [[0-9]] *)
Definition is_digit (c : ascii) : bool := between 48 57 c.

(** [[a-f0-9]] *)
Definition is_lower_hex (c : ascii) : bool := is_digit c || between 97 102 c.

(** [[0-9a-fA-F]] *)
Definition is_hex (c : ascii) : bool := is_lower_hex c || between 65 70 c.

(** The line terminators, which [.] does not match. *)
Definition is_line_terminator (c : ascii) : bool :=
  (code c =? 10)%N || (code c =? 13)%N.

(** WhiteSpace and LineTerminator code units, as stripped by
    [String.prototype.trim], [parseInt] and [BigInt]: TAB, LF, VT, FF, CR,
    SP and NBSP. *)
Definition is_white_space (c : ascii) : bool :=
  between 9 13 c || (code c =? 32)%N || (code c =? 160)%N.

(** [toLowerCase] on one code unit: A-Z, and the Latin-1 capitals
    U+00C0..U+00DE except the multiplication sign U+00D7. *)
Definition lower_char (c : ascii) : ascii :=
  if between 65 90 c || (between 192 222 c && negb (code c =? 215)%N)
  then ascii_of_N (code c + 32)
  else c.

(** ** String primitives *)

Fixpoint toLowerCase (s : string) : string :=
  match s with
  | EmptyString => EmptyString
  | String c r => String (lower_char c) (toLowerCase r)
  end.

Fixpoint trimStart (s : string) : string :=
  match s with
  | EmptyString => EmptyString
  | String c r => if is_white_space c then trimStart r else s
  end.

Fixpoint trimEnd (s : string) : string :=
  match s with
  | EmptyString => EmptyString
  | String c r =>
      match trimEnd r with
      | EmptyString => if is_white_space c then EmptyString else String c EmptyString
      | r' => String c r'
      end
  end.

Definition trim (s : string) : string := trimEnd (trimStart s).

Fixpoint startsWith (s p : string) {struct p} : bool :=
  match p with
  | EmptyString => true
  | String a p' =>
      match s with
      | EmptyString => false
      | String b s' => Ascii.eqb a b && startsWith s' p'
      end
  end.

(** [s.slice(n)] for [0 <= n]. *)
Fixpoint slice (n : nat) (s : string) : string :=
  match n, s with
  | O, _ => s
  | S n', EmptyString => EmptyString
  | S n', String _ r => slice n' r
  end.

Fixpoint string_forallb (p : ascii -> bool) (s : string) : bool :=
  match s with
  | EmptyString => true
  | String c r => p c && string_forallb p r
  end.

(** Longest prefix of characters satisfying [p], and the rest. *)
Fixpoint span (p : ascii -> bool) (s : string) : string * string :=
  match s with
  | EmptyString => (EmptyString, EmptyString)
  | String c r =>
      if p c then let (a, b) := span p r in (String c a, b)
      else (EmptyString, s)
  end.

Fixpoint last_char (s : string) : option ascii :=
  match s with
  | EmptyString => None
  | String c EmptyString => Some c
  | String _ r => last_char r
  end.

(** [Array.prototype.join]. *)
Fixpoint join (sep : string) (l : list string) : string :=
  match l with
  | [] => ""
  | [x] => x
  | x :: r => x ++ sep ++ join sep r
  end.

(** Truthiness of a string: [!value] holds of the empty string only. *)
Definition is_empty (s : string) : bool := String.eqb s "".

(** ** Outcomes of computations that may throw *)

(** [Done a] is a normal return, [Raise m] a thrown error with message
    [m], and [Stuck] an outcome the embedding does not determine: the fuel
    of a recursion ran out, or the code reads a property through the
    prototype of an array or of a primitive.  Where the runtime itself
    raises the error, [m] is the text V8 gives it. *)
Inductive comp (A : Type) : Type :=
| Done (a : A)
| Raise (message : string)
| Stuck.
Arguments Done {A} a.
Arguments Raise {A} message.
Arguments Stuck {A}.

Definition bind {A B} (m : comp A) (k : A -> comp B) : comp B :=
  match m with
  | Done a => k a
  | Raise e => Raise e
  | Stuck => Stuck
  end.

(** [try { m } catch { return h }] *)
Definition catch {A} (m : comp A) (h : A) : comp A :=
  match m with
  | Raise _ => Done h
  | other => other
  end.

Notation "x <- m ;; k" := (bind m (fun x => k))
  (at level 61, m at next level, right associativity).

(** ** Numbers *)

(** A Number holding an integer, an infinity, or NaN. *)
Inductive number : Type :=
| NaN
| Num (z : Z)
| Infinity (negative : bool).

(** Decimal text of an integer: [BigInt.prototype.toString], and [String]
    of a Number below 2^53. *)
Definition decimal (z : Z) : string := NilZero.string_of_int (Z.to_int z).

(** The nearest integer with a significand of 53 bits to a positive
    integer, ties going to the even significand. *)
Definition round_53 (m : Z) : Z :=
  let e := Z.log2 m - 52 in
  if e <=? 0 then m
  else
    let q := m / 2 ^ e in
    let r := m mod 2 ^ e in
    let half := 2 ^ (e - 1) in
    (if (half <? r) || ((r =? half) && Z.odd q) then q + 1 else q) * 2 ^ e.

(** The Number value of a mathematical integer: the nearest double, and
    an infinity from 2^1024 on. *)
Definition to_double (z : Z) : number :=
  let m := round_53 (Z.abs z) in
  if 2 ^ 1024 <=? m then Infinity (z <? 0) else Num (Z.sgn z * m).

(** [v] rounds to the double [m]. *)
Definition rounds_to (v m : Z) : bool :=
  match to_double v with
  | Num x => x =? m
  | _ => false
  end.

(** The digits [s], their number [k] and the position [n] of the decimal
    point that [Number::toString] prints for a double [m] of [D] decimal
    digits: the least [k], from [k] on, such that a [k]-digit [s] followed
    by zeros rounds to [m]; of two such [s] the closer to [m], and the even
    one when they are as close.  [fuel] bounds the search, which ends at
    the [D] digits of [m] itself. *)
Fixpoint shortest_digits (fuel : nat) (m D k : Z) : Z * Z * Z :=
  match fuel with
  | O => (m, D, D)
  | S fuel' =>
      let p := 10 ^ (D - k) in
      let lo := m / p in
      let hi := lo + 1 in
      let lo_ok := rounds_to (lo * p) m in
      let hi_ok := rounds_to (hi * p) m in
      if lo_ok || hi_ok then
        let s :=
          if lo_ok && hi_ok then
            if m - lo * p <? hi * p - m then lo
            else if hi * p - m <? m - lo * p then hi
            else if Z.even lo then lo else hi
          else if lo_ok then lo else hi in
        if s =? 10 ^ k then (1, 1, D + 1) else (s, k, D)
      else shortest_digits fuel' m D (k + 1)
  end.

Fixpoint zeros (n : nat) : string :=
  match n with
  | O => ""
  | S n' => String "0" (zeros n')
  end.

(** [String(m)] for a double [m] that is a natural number: all the digits
    below 2^53; from there the shortest digits that read back as [m],
    followed by zeros up to 21 digits in all, and beyond that in exponent
    form. *)
Definition natural_to_string (m : Z) : string :=
  if m <? 9007199254740992 then decimal m
  else
    let D := Z.of_nat (String.length (decimal m)) in
    let '(s, k, n) := shortest_digits (Z.to_nat D) m D 1 in
    if n <=? 21 then decimal s ++ zeros (Z.to_nat (n - k))
    else
      match decimal s with
      | String c EmptyString => String c ("e+" ++ decimal (n - 1))
      | String c r => String c ("." ++ r ++ "e+" ++ decimal (n - 1))
      | EmptyString => EmptyString
      end.

(** [String(n)] *)
Definition number_to_string (n : number) : string :=
  match n with
  | NaN => "NaN"
  | Num z => if z <? 0 then "-" ++ natural_to_string (- z) else natural_to_string z
  | Infinity negative => if negative then "-Infinity" else "Infinity"
  end.

(** Value of a digit in a radix up to 16, when it is one. *)
Definition digit_value (radix : Z) (c : ascii) : option Z :=
  let v :=
    if is_digit c then Some (Z.of_N (code c) - 48)
    else if between 97 102 c then Some (Z.of_N (code c) - 87)
    else if between 65 70 c then Some (Z.of_N (code c) - 55)
    else None in
  match v with
  | Some d => if d <? radix then Some d else None
  | None => None
  end.

(** Reads a whole string of digits in the radix, most significant first. *)
Fixpoint digits_value (radix : Z) (s : string) (acc : Z) : option Z :=
  match s with
  | EmptyString => Some acc
  | String c r =>
      match digit_value radix c with
      | Some d => digits_value radix r (acc * radix + d)
      | None => None
      end
  end.

Definition nonempty_digits (radix : Z) (s : string) : option Z :=
  match s with
  | EmptyString => None
  | _ => digits_value radix s 0
  end.

(** [BigInt(text)] (StringToBigInt): the text is trimmed; the empty text
    is 0; a decimal literal may carry a sign; the prefixes 0x, 0o and 0b
    (either case) take no sign; anything else is a SyntaxError. *)
Definition BigInt (text : string) : comp Z :=
  let of_option o :=
    match o with
    | Some z => Done z
    | None => Raise ("Cannot convert " ++ text ++ " to a BigInt")
    end in
  match trim text with
  | EmptyString => Done 0
  | String "0" (String "x" r) | String "0" (String "X" r) =>
      of_option (nonempty_digits 16 r)
  | String "0" (String "o" r) | String "0" (String "O" r) =>
      of_option (nonempty_digits 8 r)
  | String "0" (String "b" r) | String "0" (String "B" r) =>
      of_option (nonempty_digits 2 r)
  | String "-" r => of_option (option_map Z.opp (nonempty_digits 10 r))
  | String "+" r => of_option (nonempty_digits 10 r)
  | s => of_option (nonempty_digits 10 s)
  end.

(** [base ** exponent] on BigInts: a negative exponent is a RangeError. *)
Definition bigint_pow (base exponent : Z) : comp Z :=
  if exponent <? 0 then Raise "Exponent must be non-negative"
  else Done (base ^ exponent).

(** [parseInt(text, radix)] for an absent radix or radix 10: leading white
    space is skipped, a sign is read, with no radix given a 0x prefix
    selects base 16, and the longest prefix of digits is read; no digit at
    all is NaN.  The result is the double nearest to the integer read (the
    language lets an engine drop the decimal digits after the 20th before
    rounding; V8 rounds the exact integer). *)
Definition parseInt (text : string) (radix : option Z) : number :=
  let s := trimStart text in
  let '(negative, s) :=
    match s with
    | String "-" r => (true, r)
    | String "+" r => (false, r)
    | _ => (false, s)
    end in
  let '(base, s) :=
    match radix, s with
    | None, String "0" (String "x" r) | None, String "0" (String "X" r) => (16, r)
    | None, _ => (10, s)
    | Some b, _ => (b, s)
    end in
  let digits := fst (span (fun c => match digit_value base c with Some _ => true | None => false end) s) in
  match nonempty_digits base digits with
  | Some z => to_double (if negative then - z else z)
  | None => NaN
  end.

(** [n || 256], as the width given to [validateUint] and [validateInt]:
    NaN and 0 are falsy.  With an infinite width [BigInt(bits)] throws a
    RangeError where with a negative width the power throws one; the same
    handler catches both, and the infinite width is given as the negative
    width -1. *)
Definition or_256 (n : number) : Z :=
  match n with
  | NaN => 256
  | Num 0 => 256
  | Num z => z
  | Infinity _ => -1
  end.

(** ** The type grammar parser *)

Record ParsedType : Type := mkParsedType {
  baseType : string;
  isArray : bool;
  arrayDimensions : list (option number);  (* None is null: a dynamic dimension *)
  isTuple : bool
}.

(** ARRAY_TYPE_REGEX = /^(.+?)(\[.*\])$/ : the lazy first group is the
    shortest non-empty prefix followed by a "[", and the second group runs
    from that bracket to the closing "]" that ends the text; [.] matches
    no line terminator.  The result is the pair of groups. *)
Fixpoint split_at_bracket (s : string) : option (string * string) :=
  match s with
  | EmptyString => None
  | String c r =>
      if Ascii.eqb c "["%char then Some (EmptyString, s)
      else match split_at_bracket r with
           | Some (a, b) => Some (String c a, b)
           | None => None
           end
  end.

Definition match_array_type (type : string) : option (string * string) :=
  match type with
  | EmptyString => None
  | String c r =>
      if negb (string_forallb (fun x => negb (is_line_terminator x)) type) then None
      else
        match split_at_bracket r with
        | Some (a, group2) =>
            match group2, last_char group2 with
            | String _ (String _ _), Some "]"%char => Some (String c a, group2)
            | _, _ => None
            end
        | None => None
        end
  end.

(** The global match of ARRAY_DIMENSION_REGEX (an opening bracket, any
    number of digits, a closing bracket) over [dimensionStr], each match
    given by its captured digits.  The search resumes after a
    match; a match holds no further opening bracket, so resuming at the
    character after its opening bracket finds the same matches. *)
Fixpoint dimension_matches (s : string) : list string :=
  match s with
  | EmptyString => []
  | String c r =>
      if Ascii.eqb c "["%char then
        match span is_digit r with
        | (digits, String "]" _) => digits :: dimension_matches r
        | _ => dimension_matches r
        end
      else dimension_matches r
  end.

(** The callback of [dimensions.map]: FIXED_DIMENSION_REGEX = /\[(\d+)\]/
    matches when there is a digit, and [parseInt(digits, 10)] is the size. *)
Definition parse_dimension (digits : string) : option number :=
  match digits with
  | EmptyString => None
  | _ => Some (parseInt digits (Some 10))
  end.

Definition parseType (type : string) : ParsedType :=
  let tuple := String.eqb type "tuple" || startsWith type "tuple[" in
  let result := mkParsedType (if tuple then "tuple" else type) false [] tuple in
  match match_array_type type with
  | Some (group1, dimensionStr) =>
      mkParsedType group1 true
        (map parse_dimension (dimension_matches dimensionStr))
        (isTuple result || String.eqb group1 "tuple")
  | None => result
  end.

(** ** JavaScript values *)

Set Warnings "-register-all".

(** The values the code handles: what [JSON.parse] produces, the
    normalized values ([ParameterValue]), the [unknown] decoded values, and
    the built-in functions an object inherits.  [VNum] holds the Number's
    text, the result of [String] on it; [VObj] lists the own enumerable
    properties in enumeration order. *)
Inductive jsval : Type :=
| VUndefined
| VNull
| VBool (b : bool)
| VNum (text : string)
| VBigInt (z : Z)
| VStr (s : string)
| VArr (items : list jsval)
| VObj (props : list (string * jsval))
| VNative (name : string).

Inductive js_type : Type :=
| TUndefined | TObject | TBoolean | TNumber | TBigint | TString | TFunction.

Definition typeof (v : jsval) : js_type :=
  match v with
  | VUndefined => TUndefined
  | VNull => TObject
  | VBool _ => TBoolean
  | VNum _ => TNumber
  | VBigInt _ => TBigint
  | VStr _ => TString
  | VArr _ => TObject
  | VObj _ => TObject
  | VNative _ => TFunction
  end.

Definition is_object (v : jsval) : bool :=
  match typeof v with TObject => true | _ => false end.

Fixpoint assoc {A} (k : string) (l : list (string * A)) : option A :=
  match l with
  | [] => None
  | (k', a) :: r => if String.eqb k k' then Some a else assoc k r
  end.

(** Functions every plain object inherits from [Object.prototype]. *)
Definition object_prototype_functions : list string :=
  [ "constructor"; "__defineGetter__"; "__defineSetter__"; "hasOwnProperty";
    "__lookupGetter__"; "__lookupSetter__"; "isPrototypeOf";
    "propertyIsEnumerable"; "toString"; "valueOf"; "toLocaleString" ].

(** [o[k]] on a plain object: an own property, else what the prototype
    gives ([__proto__] is the prototype itself, which has no enumerable
    property), else [undefined]. *)
Definition get_prop (o : list (string * jsval)) (k : string) : jsval :=
  match assoc k o with
  | Some v => v
  | None =>
      if String.eqb k "__proto__" then VObj []
      else if existsb (String.eqb k) object_prototype_functions
      then VNative (if String.eqb k "constructor" then "Object" else k)
      else VUndefined
  end.

(** A canonical array index: the decimal text of an integer in
    [0, 2^32 - 2].  Such keys are enumerated first, in ascending order. *)
Definition array_index (k : string) : option Z :=
  match nonempty_digits 10 k with
  | Some z => if String.eqb (decimal z) k && (z <=? 4294967294) then Some z else None
  | None => None
  end.

Fixpoint obj_update (k : string) (v : jsval) (o : list (string * jsval))
  : option (list (string * jsval)) :=
  match o with
  | [] => None
  | (k', v') :: r =>
      if String.eqb k k' then Some ((k, v) :: r)
      else option_map (cons (k', v')) (obj_update k v r)
  end.

Fixpoint obj_insert_index (i : Z) (k : string) (v : jsval) (o : list (string * jsval))
  : list (string * jsval) :=
  match o with
  | [] => [(k, v)]
  | (k', v') :: r =>
      match array_index k' with
      | Some j => if i <? j then (k, v) :: o else (k', v') :: obj_insert_index i k v r
      | None => (k, v) :: o
      end
  end.

(** Creating or overwriting an own data property: an existing key keeps
    its place; a new array index goes among the indices; any other new
    key goes last. *)
Definition obj_define (k : string) (v : jsval) (o : list (string * jsval))
  : list (string * jsval) :=
  match obj_update k v o with
  | Some o' => o'
  | None =>
      match array_index k with
      | Some i => obj_insert_index i k v o
      | None => o ++ [(k, v)]
      end
  end.

(** The assignment [o[k] = v] on a plain object.  Assigning to
    [__proto__] runs the inherited setter and creates no own property. *)
Definition obj_set (k : string) (v : jsval) (o : list (string * jsval))
  : list (string * jsval) :=
  if String.eqb k "__proto__" then o else obj_define k v o.

Definition native_source (name : string) : string :=
  "function " ++ name ++ "() { [native code] }".

(** [String(v)].  An array joins its elements with commas, [null] and
    [undefined] elements giving the empty text.  A plain object gives
    its class tag through the inherited [toString]; an own [toString]
    that is not callable leaves only [valueOf], which yields no primitive:
    a TypeError. *)
Fixpoint js_String (v : jsval) : comp string :=
  match v with
  | VUndefined => Done "undefined"
  | VNull => Done "null"
  | VBool true => Done "true"
  | VBool false => Done "false"
  | VNum text => Done text
  | VBigInt z => Done (decimal z)
  | VStr s => Done s
  | VArr items =>
      parts <- (fix each (l : list jsval) : comp (list string) :=
                  match l with
                  | [] => Done []
                  | x :: r =>
                      sx <- match x with
                            | VUndefined | VNull => Done ""
                            | _ => js_String x
                            end ;;
                      sr <- each r ;;
                      Done (sx :: sr)
                  end) items ;;
      Done (join "," parts)
  | VObj props =>
      match assoc "toString" props with
      | None => Done "[object Object]"
      | Some (VNative _) => Stuck
      | Some _ => Raise "Cannot convert object to primitive value"
      end
  | VNative name => Done (native_source name)
  end.

(** The double quote. *)
Definition dquote : ascii := ascii_of_N 34.

(** The text between double quotes, as it stands. *)
Definition quoted (s : string) : string := String dquote (s ++ String dquote "").

Definition hex_digit (n : N) : ascii :=
  if (n <? 10)%N then ascii_of_N (48 + n) else ascii_of_N (87 + n).

(** QuoteJSONString on one code unit. *)
Definition quote_char (c : ascii) : string :=
  if (code c =? 8)%N then "\b"
  else if (code c =? 9)%N then "\t"
  else if (code c =? 10)%N then "\n"
  else if (code c =? 12)%N then "\f"
  else if (code c =? 13)%N then "\r"
  else if (code c =? 34)%N then String "\" (String dquote "")
  else if (code c =? 92)%N then "\\"
  else if (code c <? 32)%N
  then "\u00" ++ String (hex_digit (code c / 16)) (String (hex_digit (code c mod 16)) "")
  else String c "".

Fixpoint quote_body (s : string) : string :=
  match s with
  | EmptyString => EmptyString
  | String c r => quote_char c ++ quote_body r
  end.

Definition quote (s : string) : string :=
  String dquote (quote_body s ++ String dquote "").

(** [JSON.stringify(v)]: [None] is the result [undefined], given for
    [undefined] and functions; inside an array these print as null and
    inside an object their property is left out.  A BigInt is a
    TypeError. *)
Fixpoint JSON_stringify (v : jsval) : comp (option string) :=
  match v with
  | VUndefined => Done None
  | VNative _ => Done None
  | VNull => Done (Some "null")
  | VBool true => Done (Some "true")
  | VBool false => Done (Some "false")
  | VNum text =>
      Done (Some (if String.eqb text "NaN" || String.eqb text "Infinity"
                     || String.eqb text "-Infinity" then "null" else text))
  | VBigInt _ => Raise "Do not know how to serialize a BigInt"
  | VStr s => Done (Some (quote s))
  | VArr items =>
      parts <- (fix each (l : list jsval) : comp (list string) :=
                  match l with
                  | [] => Done []
                  | x :: r =>
                      sx <- JSON_stringify x ;;
                      sr <- each r ;;
                      Done (match sx with Some t => t | None => "null" end :: sr)
                  end) items ;;
      Done (Some ("[" ++ join "," parts ++ "]"))
  | VObj props =>
      parts <- (fix each (l : list (string * jsval)) : comp (list string) :=
                  match l with
                  | [] => Done []
                  | (k, x) :: r =>
                      sx <- JSON_stringify x ;;
                      sr <- each r ;;
                      Done (match sx with
                            | Some t => (quote k ++ ":" ++ t) :: sr
                            | None => sr
                            end)
                  end) props ;;
      Done (Some ("{" ++ join "," parts ++ "}"))
  end.

(** ** The ABI data model (types/index.ts)

    The records keep the fields the engine reads.  Left out are
    [indexed] and [internalType] of a parameter, the tag [type], [constant]
    and [payable] of a function, and the [name] and [cause] of an error. *)

Inductive AbiParameter : Type :=
  mkAbiParameter {
    p_name : string;
    p_type : string;
    p_components : option (list AbiParameter)
  }.

Record AbiFunction : Type := mkAbiFunction {
  fn_name : string;
  inputs : list AbiParameter;
  outputs : option (list AbiParameter);
  stateMutability : string
}.

(** A [ParameterValidationResult] is built in two shapes only:
    [{ isValid: true, normalizedValue }] and [{ isValid: false, error }]. *)
Inductive ParameterValidationResult : Type :=
| valid (normalizedValue : jsval)
| invalid (error : string).

Definition isValid (r : ParameterValidationResult) : bool :=
  match r with
  | valid _ => true
  | invalid _ => false
  end.

Inductive ActionBuilderErrorCode : Type :=
| INVALID_ADDRESS | INVALID_API_KEY | CONTRACT_NOT_FOUND | ABI_FETCH_FAILED
| INVALID_PARAMETER | ENCODING_FAILED | DECODING_FAILED | FUNCTION_NOT_FOUND
| NETWORK_ERROR | RPC_ERROR.

Record ActionBuilderError : Type := mkActionBuilderError {
  message : string;
  error_code : ActionBuilderErrorCode
}.

Inductive Result (T : Type) : Type :=
| success (data : T)
| failure (error : ActionBuilderError).
Arguments success {T} data.
Arguments failure {T} error.

Record EncodeCalldataResult : Type := mkEncodeCalldataResult {
  enc_calldata : string;
  enc_functionSignature : string
}.

Record Action : Type := mkAction {
  act_contractAddress : string;
  act_functionSignature : string;
  act_functionName : string;
  act_calldata : string;
  act_abi : list AbiFunction;
  act_value : option Z
}.

(** [abi] is read by [buildAction] as [input.abi]; [native_value] is the
    optional [value]. *)
Record BuildActionInput : Type := mkBuildActionInput {
  contractAddress : string;
  functionSignature : string;
  parameters : list (string * jsval);
  abi : list AbiFunction;
  native_value : option Z
}.

(** ** Scalar validators (validators.ts) *)

(** ADDRESS_REGEX = /^0x[a-f0-9]{40}$/ *)
Definition ADDRESS_REGEX (s : string) : bool :=
  match s with
  | String "0" (String "x" r) => (String.length r =? 40)%nat && string_forallb is_lower_hex r
  | _ => false
  end.

(** HEX_STRING_REGEX = /^0x[0-9a-fA-F]*$/ *)
Definition HEX_STRING_REGEX (s : string) : bool :=
  match s with
  | String "0" (String "x" r) => string_forallb is_hex r
  | _ => false
  end.

Definition validateAddress (value : string) : ParameterValidationResult :=
  if is_empty value then invalid "Address is required"
  else
    let lowerValue := toLowerCase value in
    if negb (ADDRESS_REGEX lowerValue)
    then invalid "Invalid Ethereum address. Must be 40 hex characters starting with 0x"
    else valid (VStr lowerValue).

Definition validateUint (value : string) (bits : Z) : comp ParameterValidationResult :=
  if is_empty value || negb (String.eqb (trim value) value)
  then Done (invalid "Invalid number format (no spaces allowed)")
  else
    catch
      (num <- BigInt value ;;
       if num <? 0 then Done (invalid "Must be a non-negative number")
       else
         power <- bigint_pow 2 bits ;;
         let maxValue := power - 1 in
         if num >? maxValue
         then Done (invalid ("Value exceeds uint" ++ decimal bits ++ " max"))
         else Done (valid (VBigInt num)))
      (invalid "Invalid number format").

Definition validateInt (value : string) (bits : Z) : comp ParameterValidationResult :=
  if is_empty value || negb (String.eqb (trim value) value)
  then Done (invalid "Invalid number format (no spaces allowed)")
  else
    catch
      (num <- BigInt value ;;
       power <- bigint_pow 2 (bits - 1) ;;
       let maxValue := power - 1 in
       minPower <- bigint_pow 2 (bits - 1) ;;
       let minValue := - minPower in
       if (num >? maxValue) || (num <? minValue)
       then Done (invalid ("Value out of range for int" ++ decimal bits))
       else Done (valid (VBigInt num)))
      (invalid "Invalid number format").

Definition validateBool (value : string) : ParameterValidationResult :=
  let normalized := trim (toLowerCase value) in
  if String.eqb normalized "true" then valid (VBool true)
  else if String.eqb normalized "false" then valid (VBool false)
  else invalid ("Must be " ++ quoted "true" ++ " or " ++ quoted "false").

(** [byteLength !== fixedLength] where [byteLength = (value.length - 2) / 2]:
    the quotient equals the integer [n] exactly when [value.length - 2] is
    [2 * n]; it equals neither NaN nor an infinity. *)
Definition byteLength_differs (value : string) (fixedLength : number) : bool :=
  match fixedLength with
  | Num n => negb (Z.of_nat (String.length value) - 2 =? 2 * n)
  | _ => true
  end.

(** [byteLength > 32] *)
Definition byteLength_exceeds_32 (value : string) : bool :=
  Z.of_nat (String.length value) - 2 >? 64.

Definition validateBytes (value : string) (fixedLength : option number)
  : ParameterValidationResult :=
  if is_empty value then invalid "Bytes value is required"
  else if negb (startsWith value "0x") then invalid "Must start with 0x"
  else if negb (HEX_STRING_REGEX value) then invalid "Invalid hex string"
  else
    match fixedLength with
    | Some n =>
        if byteLength_differs value n
        then invalid ("Must be exactly " ++ number_to_string n ++ " bytes")
        else if byteLength_exceeds_32 value
        then invalid "Fixed bytes cannot exceed 32"
        else valid (VStr value)
    | None => valid (VStr value)
    end.

Definition validateString (value : string) : ParameterValidationResult :=
  valid (VStr value).

(** ** Composite validators and the dispatcher (validators.ts) *)

(** [`[${d ?? ''}]`] *)
Definition render_dimension (d : option number) : string :=
  "[" ++ match d with Some n => number_to_string n | None => "" end ++ "]".

(** The element type of an array type: the base type followed by the
    dimensions after the first. *)
Definition innerTypeOf (parsed : ParsedType) : string :=
  if (1 <? length (arrayDimensions parsed))%nat
  then baseType parsed ++ join "" (map render_dimension (tl (arrayDimensions parsed)))
  else baseType parsed.

(** [arrayDimensions[0] !== null ? arrayDimensions[0] : undefined] *)
Definition expectedLengthOf (parsed : ParsedType) : option number :=
  match arrayDimensions parsed with
  | Some n :: _ => Some n
  | _ => None
  end.

(** [typeof x === 'object' ? JSON.stringify(x) : String(x)]; [None] is
    [undefined]. *)
Definition text_of (x : jsval) : comp (option string) :=
  if is_object x then JSON_stringify x
  else (s <- js_String x ;; Done (Some s)).

(** [typeof value === 'string' ? value : JSON.stringify(value)] *)
Definition parameter_text (value : jsval) : comp (option string) :=
  match value with
  | VStr s => Done (Some s)
  | _ => JSON_stringify value
  end.

(** [parsed.length !== expectedLength] *)
Definition length_differs (items : list jsval) (expectedLength : number) : bool :=
  match expectedLength with
  | Num n => negb (Z.of_nat (length items) =? n)
  | _ => true
  end.

Section Engine.

(** [JSON.parse], [None] being its SyntaxError. *)
Variable JSON_parse : string -> option jsval.

(** The binary codec: [new Interface([func]).encodeFunctionData(func.name, args)]. *)
Variable encodeFunctionData : AbiFunction -> list jsval -> comp string.

Definition parse_or_raise (text : string) : comp jsval :=
  match JSON_parse text with
  | Some v => Done v
  | None => Raise "Unexpected token in JSON"
  end.

Section Bodies.

(** The recursive callee, [validateParameterType]. *)
Variable validateParameterType_rec :
  option string -> string -> option (list AbiParameter) -> comp ParameterValidationResult.

(** The [for] loop of [validateArray] from index [i] on. *)
Fixpoint validateArray_loop (elementType : string) (components : option (list AbiParameter))
    (items : list jsval) (i : nat) (validatedElements : list jsval)
  : comp ParameterValidationResult :=
  match items with
  | [] => Done (valid (VArr validatedElements))
  | element :: rest =>
      elementValue <- text_of element ;;
      elementResult <- validateParameterType_rec elementValue elementType components ;;
      match elementResult with
      | invalid error =>
          Done (invalid ("Invalid element at index " ++ decimal (Z.of_nat i) ++ ": " ++ error))
      | valid normalizedValue =>
          validateArray_loop elementType components rest (S i)
            (validatedElements ++ [normalizedValue])
      end
  end.

(** The body of [validateArray]: the value is a JSON text, parsed, or an
    array, taken as it is. *)
Definition validateArray_with (value : jsval) (elementType : string)
    (components : option (list AbiParameter)) (expectedLength : option number)
  : comp ParameterValidationResult :=
  let check (parsed : jsval) : comp ParameterValidationResult :=
    match parsed with
    | VArr items =>
        match expectedLength with
        | Some n =>
            if length_differs items n
            then Done (invalid ("Array must have exactly " ++ number_to_string n ++ " elements"))
            else validateArray_loop elementType components items 0 []
        | None => validateArray_loop elementType components items 0 []
        end
    | _ => Done (invalid "Must be a valid JSON array")
    end in
  catch
    match value with
    | VStr text => parsed <- parse_or_raise text ;; check parsed
    | VArr items => check (VArr items)
    | _ => Done (invalid "Array must be a JSON array string")
    end
    (invalid "Invalid JSON array format").

(** The [for ... of components] loop of [validateTuple]. *)
Fixpoint validateTuple_loop (parsed : list (string * jsval)) (components : list AbiParameter)
    (validatedTuple : list (string * jsval)) : comp ParameterValidationResult :=
  match components with
  | [] => Done (valid (VObj validatedTuple))
  | component :: rest =>
      let componentValue := get_prop parsed (p_name component) in
      match componentValue with
      | VUndefined => Done (invalid ("Missing required field: " ++ p_name component))
      | _ =>
          valueStr <- text_of componentValue ;;
          result <- validateParameterType_rec valueStr (p_type component)
                      (p_components component) ;;
          match result with
          | invalid error =>
              Done (invalid ("Invalid field " ++ quoted (p_name component) ++ ": " ++ error))
          | valid normalizedValue =>
              validateTuple_loop parsed rest
                (obj_set (p_name component) normalizedValue validatedTuple)
          end
      end
  end.

(** The body of [validateTuple]: the value is a JSON text, parsed, or an
    object other than [null], taken as it is. *)
Definition validateTuple_with (value : jsval) (components : list AbiParameter)
  : comp ParameterValidationResult :=
  let check (parsed : jsval) : comp ParameterValidationResult :=
    match parsed with
    | VObj props => validateTuple_loop props components []
    | _ => Done (invalid "Must be a valid JSON object")
    end in
  catch
    match value with
    | VStr text => parsed <- parse_or_raise text ;; check parsed
    | VArr _ | VObj _ => check value
    | _ => Done (invalid "Tuple must be a JSON object string")
    end
    (invalid "Invalid JSON object format").

Definition validateParameterType_body (value : option string) (type : string)
    (components : option (list AbiParameter)) : comp ParameterValidationResult :=
  match value with
  | None => Done (invalid "Value is required")
  | Some value =>
      let parsed := parseType type in
      if isArray parsed then
        validateArray_with (VStr value) (innerTypeOf parsed) components
          (expectedLengthOf parsed)
      else if isTuple parsed then
        match components with
        | None | Some [] => Done (invalid "Tuple components are required")
        | Some cs => validateTuple_with (VStr value) cs
        end
      else if String.eqb (baseType parsed) "address" then Done (validateAddress value)
      else if startsWith (baseType parsed) "uint" then
        validateUint value (or_256 (parseInt (slice 4 (baseType parsed)) None))
      else if startsWith (baseType parsed) "int" then
        validateInt value (or_256 (parseInt (slice 3 (baseType parsed)) None))
      else if String.eqb (baseType parsed) "bool" then Done (validateBool value)
      else if String.eqb (baseType parsed) "bytes" then Done (validateBytes value None)
      else if startsWith (baseType parsed) "bytes" then
        Done (validateBytes value (Some (parseInt (slice 5 (baseType parsed)) None)))
      else if String.eqb (baseType parsed) "string" then Done (validateString value)
      else Done (valid (VStr value))
  end.

End Bodies.

(** Fuel for the recursion of the dispatcher and of the normalizer: each
    recursive call either drops an opening bracket of the type or descends
    into a component. *)
Fixpoint bracket_count (s : string) : nat :=
  match s with
  | EmptyString => O
  | String c r => ((if Ascii.eqb c "["%char then 1 else 0) + bracket_count r)%nat
  end.

Fixpoint param_size (p : AbiParameter) : nat :=
  match p with
  | mkAbiParameter _ t cs =>
      (1 + bracket_count t +
       match cs with
       | None => 0
       | Some l => (fix sum (l : list AbiParameter) : nat :=
                      match l with
                      | [] => 0
                      | c :: r => param_size c + sum r
                      end) l
       end)%nat
  end.

Definition components_size (cs : option (list AbiParameter)) : nat :=
  match cs with
  | None => O
  | Some l => fold_right (fun c n => (param_size c + n)%nat) O l
  end.

Definition fuel_for (type : string) (components : option (list AbiParameter)) : nat :=
  S (bracket_count type + components_size components).

Fixpoint validateParameterType_fuel (fuel : nat) (value : option string) (type : string)
    (components : option (list AbiParameter)) : comp ParameterValidationResult :=
  match fuel with
  | O => Stuck
  | S fuel' =>
      validateParameterType_body (validateParameterType_fuel fuel') value type components
  end.

(** Main validation function for any parameter type.  [None] as the value
    is [undefined] or [null]. *)
Definition validateParameterType (value : option string) (type : string)
    (components : option (list AbiParameter)) : comp ParameterValidationResult :=
  validateParameterType_fuel (fuel_for type components) value type components.

(** Validate an array value (JSON format). *)
Definition validateArray (value : jsval) (elementType : string)
    (components : option (list AbiParameter)) (expectedLength : option number)
  : comp ParameterValidationResult :=
  validateArray_with validateParameterType value elementType components expectedLength.

(** Validate a tuple value (JSON object format). *)
Definition validateTuple (value : jsval) (components : list AbiParameter)
  : comp ParameterValidationResult :=
  validateTuple_with validateParameterType value components.

(** ** Normalizer and denormalizer (normalizers.ts) *)

Definition of_text (t : option string) : jsval :=
  match t with
  | Some s => VStr s
  | None => VUndefined
  end.

(** What a property read gives: a value, or the wrapper object that is
    the prototype of a primitive, known by the text [JSON.stringify] gives
    for it. *)
Inductive field_read : Type :=
| FieldValue (v : jsval)
| FieldWrapper (json : string).

(** The function properties of the standard prototypes (ECMAScript 2024,
    with the additions of its Annex B). *)
Definition array_prototype_functions : list string :=
  [ "constructor"; "at"; "concat"; "copyWithin"; "entries"; "every"; "fill"; "filter";
    "find"; "findIndex"; "findLast"; "findLastIndex"; "flat"; "flatMap"; "forEach";
    "includes"; "indexOf"; "join"; "keys"; "lastIndexOf"; "map"; "pop"; "push";
    "reduce"; "reduceRight"; "reverse"; "shift"; "slice"; "some"; "sort"; "splice";
    "toLocaleString"; "toReversed"; "toSorted"; "toSpliced"; "toString"; "unshift";
    "values"; "with" ].

Definition string_prototype_functions : list string :=
  [ "constructor"; "anchor"; "at"; "big"; "blink"; "bold"; "charAt"; "charCodeAt";
    "codePointAt"; "concat"; "endsWith"; "fixed"; "fontcolor"; "fontsize"; "includes";
    "indexOf"; "isWellFormed"; "italics"; "lastIndexOf"; "link"; "localeCompare";
    "match"; "matchAll"; "normalize"; "padEnd"; "padStart"; "repeat"; "replace";
    "replaceAll"; "search"; "slice"; "small"; "split"; "startsWith"; "strike"; "sub";
    "substr"; "substring"; "sup"; "toLocaleLowerCase"; "toLocaleUpperCase";
    "toLowerCase"; "toString"; "toUpperCase"; "toWellFormed"; "trim"; "trimEnd";
    "trimLeft"; "trimRight"; "trimStart"; "valueOf" ].

Definition number_prototype_functions : list string :=
  [ "constructor"; "toExponential"; "toFixed"; "toLocaleString"; "toPrecision";
    "toString"; "valueOf" ].

Definition boolean_prototype_functions : list string :=
  [ "constructor"; "toString"; "valueOf" ].

(** A property that an array or a primitive inherits: a function of its
    own prototype (the constructor carries the name of the class, and
    [trimLeft] and [trimRight] are the functions [trimStart] and
    [trimEnd]), else a function of [Object.prototype], else nothing. *)
Definition inherited (class : string) (functions : list string) (name : string) : jsval :=
  if existsb (String.eqb name) functions then
    VNative (if String.eqb name "constructor" then class
             else if String.eqb name "trimLeft" then "trimStart"
             else if String.eqb name "trimRight" then "trimEnd"
             else name)
  else if existsb (String.eqb name) object_prototype_functions then VNative name
  else VUndefined.

(** [tupleValue[name]].  A plain object gives what [get_prop] gives.  An
    array has its elements and [length], a text its characters and
    [length]; these, numbers and booleans inherit from their prototypes,
    and [__proto__] is the prototype itself: an empty array for an array,
    a wrapper of the empty text, of 0 and of false for a text, a number and
    a boolean.  Reading a property of [null] or [undefined] is a
    TypeError.  BigInts and functions, which [JSON.parse] never returns,
    are left undetermined. *)
Definition read_field (tupleValue : jsval) (name : string) : comp field_read :=
  match tupleValue with
  | VObj props => Done (FieldValue (get_prop props name))
  | VNull => Raise ("Cannot read properties of null (reading '" ++ name ++ "')")
  | VUndefined => Raise ("Cannot read properties of undefined (reading '" ++ name ++ "')")
  | VArr items =>
      Done (match array_index name with
            | Some i =>
                match nth_error items (Z.to_nat i) with
                | Some v => FieldValue v
                | None => FieldValue VUndefined
                end
            | None =>
                if String.eqb name "length"
                then FieldValue (VNum (decimal (Z.of_nat (List.length items))))
                else if String.eqb name "__proto__" then FieldValue (VArr [])
                else FieldValue (inherited "Array" array_prototype_functions name)
            end)
  | VStr s =>
      Done (match array_index name with
            | Some i =>
                match String.get (Z.to_nat i) s with
                | Some c => FieldValue (VStr (String c EmptyString))
                | None => FieldValue VUndefined
                end
            | None =>
                if String.eqb name "length"
                then FieldValue (VNum (decimal (Z.of_nat (String.length s))))
                else if String.eqb name "__proto__" then FieldWrapper (quote "")
                else FieldValue (inherited "String" string_prototype_functions name)
            end)
  | VNum _ =>
      Done (if String.eqb name "__proto__" then FieldWrapper "0"
            else FieldValue (inherited "Number" number_prototype_functions name))
  | VBool _ =>
      Done (if String.eqb name "__proto__" then FieldWrapper "false"
            else FieldValue (inherited "Boolean" boolean_prototype_functions name))
  | VBigInt _ | VNative _ => Stuck
  end.

(** [typeof compValue === 'object' ? JSON.stringify(compValue) : String(compValue)];
    a wrapper is an object. *)
Definition field_text (compValue : field_read) : comp (option string) :=
  match compValue with
  | FieldValue v => text_of v
  | FieldWrapper json => Done (Some json)
  end.

Section NormalizeBody.

Variable normalizeParameterValue_rec :
  jsval -> string -> option (list AbiParameter) -> comp jsval.

(** [arrayValue.map((item) => ...)] *)
Fixpoint normalize_items (innerType : string) (components : option (list AbiParameter))
    (items : list jsval) : comp (list jsval) :=
  match items with
  | [] => Done []
  | item :: rest =>
      itemValue <- text_of item ;;
      v <- normalizeParameterValue_rec (of_text itemValue) innerType components ;;
      vs <- normalize_items innerType components rest ;;
      Done (v :: vs)
  end.

(** [components.map((comp) => ...)] *)
Fixpoint normalize_fields (tupleValue : jsval) (components : list AbiParameter)
  : comp (list jsval) :=
  match components with
  | [] => Done []
  | comp :: rest =>
      compValue <- read_field tupleValue (p_name comp) ;;
      match compValue with
      | FieldValue VUndefined => Raise ("Missing tuple field: " ++ p_name comp)
      | _ =>
          compValueStr <- field_text compValue ;;
          v <- normalizeParameterValue_rec (of_text compValueStr) (p_type comp)
                 (p_components comp) ;;
          vs <- normalize_fields tupleValue rest ;;
          Done (v :: vs)
      end
  end.

Definition normalize_array (value : jsval) (type : string) (parsed : ParsedType)
    (components : option (list AbiParameter)) : comp jsval :=
  arrayValue <- match value with
                | VStr text =>
                    match JSON_parse text with
                    | Some v => Done v
                    | None => Raise ("Invalid JSON array for type " ++ type)
                    end
                | VArr items => Done (VArr items)
                | _ => Raise ("Expected array for type " ++ type)
                end ;;
  match arrayValue with
  | VArr items =>
      vs <- normalize_items (innerTypeOf parsed) components items ;;
      Done (VArr vs)
  | VNull => Raise "Cannot read properties of null (reading 'map')"
  | _ => Raise "arrayValue.map is not a function"
  end.

Definition normalize_tuple (value : jsval) (components : list AbiParameter) : comp jsval :=
  tupleValue <- match value with
                | VStr text =>
                    match JSON_parse text with
                    | Some v => Done v
                    | None => Raise "Invalid JSON object for tuple"
                    end
                | VObj props => Done (VObj props)
                | _ => Raise "Expected object for tuple"
                end ;;
  vs <- normalize_fields tupleValue components ;;
  Done (VArr vs).

Definition normalizeParameterValue_body (value : jsval) (type : string)
    (components : option (list AbiParameter)) : comp jsval :=
  let parsed := parseType type in
  if isArray parsed then normalize_array value type parsed components
  else
    match isTuple parsed, components with
    | true, Some cs => normalize_tuple value cs
    | _, _ =>
        stringValue <- match value with
                       | VStr s => Done s
                       | _ => js_String value
                       end ;;
        if String.eqb (baseType parsed) "address" then Done (VStr (toLowerCase stringValue))
        else if startsWith (baseType parsed) "uint" || startsWith (baseType parsed) "int"
        then Done (VStr stringValue)
        else if String.eqb (baseType parsed) "bool"
        then Done (VBool (String.eqb (toLowerCase stringValue) "true"))
        else if String.eqb (baseType parsed) "bytes" || startsWith (baseType parsed) "bytes"
        then Done (VStr stringValue)
        else if String.eqb (baseType parsed) "string" then Done (VStr stringValue)
        else Done (VStr stringValue)
    end.

End NormalizeBody.

Fixpoint normalizeParameterValue_fuel (fuel : nat) (value : jsval) (type : string)
    (components : option (list AbiParameter)) : comp jsval :=
  match fuel with
  | O => Stuck
  | S fuel' =>
      normalizeParameterValue_body (normalizeParameterValue_fuel fuel') value type components
  end.

(** Normalize a parameter value for encoding. *)
Definition normalizeParameterValue (value : jsval) (type : string)
    (components : option (list AbiParameter)) : comp jsval :=
  normalizeParameterValue_fuel (fuel_for type components) value type components.

(** [JSON.stringify] of an array or of an object is never [undefined]. *)
Definition stringify_text (v : jsval) : comp string :=
  t <- JSON_stringify v ;;
  match t with
  | Some s => Done s
  | None => Stuck
  end.

(** Convert an encoded value back to a display-friendly string.  In the
    tuple loop [value[i]] past the end of the array is [undefined], whose
    display text is empty whatever the type ([denormalize_undefined]). *)
Fixpoint denormalizeParameterValue (value : jsval) (type : string)
    (components : option (list AbiParameter)) {struct value} : comp string :=
  let parsed := parseType type in
  let basic :=
    match value with
    | VBigInt z => Done (decimal z)
    | VBool b => Done (if b then "true" else "false")
    | VNull | VUndefined => Done ""
    | _ => js_String value
    end in
  match value with
  | VArr items =>
      if isArray parsed then
        denormalized <-
          (fix each (l : list jsval) : comp (list jsval) :=
             match l with
             | [] => Done []
             | item :: r =>
                 s <- denormalizeParameterValue item (innerTypeOf parsed) components ;;
                 rs <- each r ;;
                 Done (VStr s :: rs)
             end) items ;;
        stringify_text (VArr denormalized)
      else
        match isTuple parsed, components with
        | true, Some cs =>
            result <-
              (fix fields (vs : list jsval) (cs : list AbiParameter)
                   (result : list (string * jsval)) {struct vs}
                 : comp (list (string * jsval)) :=
                 match cs with
                 | [] => Done result
                 | comp :: cs' =>
                     match vs with
                     | [] =>
                         Done (fold_left (fun acc c => obj_set (p_name c) (VStr "") acc)
                                 cs result)
                     | v :: vs' =>
                         s <- denormalizeParameterValue v (p_type comp) (p_components comp) ;;
                         fields vs' cs' (obj_set (p_name comp) (VStr s) result)
                     end
                 end) items cs [] ;;
            stringify_text (VObj result)
        | _, _ => basic
        end
  | _ => basic
  end.

(** Prepare parameters for ethers.js encoding. *)
Fixpoint prepareParametersForEncoding (parameters : list (string * jsval))
    (inputs : list AbiParameter) : comp (list jsval) :=
  match inputs with
  | [] => Done []
  | input :: rest =>
      match get_prop parameters (p_name input) with
      | VUndefined => Raise ("Missing parameter: " ++ p_name input)
      | value =>
          v <- normalizeParameterValue value (p_type input) (p_components input) ;;
          vs <- prepareParametersForEncoding parameters rest ;;
          Done (v :: vs)
      end
  end.

(** ** ABI utilities (abi-utils.ts) *)

(** /^0x[a-fA-F0-9]{40}$/ *)
Definition isValidAddress (address : string) : bool :=
  match address with
  | String "0" (String "x" r) => (String.length r =? 40)%nat && string_forallb is_hex r
  | _ => false
  end.

Definition getFunctionSignature (fn : AbiFunction) : string :=
  fn_name fn ++ "(" ++ join "," (map p_type (inputs fn)) ++ ")".

Definition findFunctionBySignature (signature : string) (abi : list AbiFunction)
  : option AbiFunction :=
  find (fun fn => String.eqb (getFunctionSignature fn) signature) abi.

(** ** Calldata encoding and action assembly *)

Definition encodeCalldata (abi : list AbiFunction) (functionSignature : string)
    (parameters : list (string * jsval)) : comp (Result EncodeCalldataResult) :=
  match findFunctionBySignature functionSignature abi with
  | None =>
      Done (failure (mkActionBuilderError ("Function not found: " ++ functionSignature)
                       FUNCTION_NOT_FOUND))
  | Some func =>
      match (encodedParams <- prepareParametersForEncoding parameters (inputs func) ;;
             calldata <- encodeFunctionData func encodedParams ;;
             Done (success (mkEncodeCalldataResult calldata (getFunctionSignature func))))
      with
      | Raise e =>
          Done (failure (mkActionBuilderError ("Failed to encode calldata: " ++ e)
                           ENCODING_FAILED))
      | other => other
      end
  end.

(** The parameter loop of [buildAction]: the error of the first input that
    is missing or does not validate, if any. *)
Fixpoint validate_inputs (parameters : list (string * jsval)) (inputs : list AbiParameter)
  : comp (option ActionBuilderError) :=
  match inputs with
  | [] => Done None
  | inputParam :: rest =>
      match get_prop parameters (p_name inputParam) with
      | VUndefined =>
          Done (Some (mkActionBuilderError ("Missing parameter: " ++ p_name inputParam)
                        INVALID_PARAMETER))
      | value =>
          valueStr <- parameter_text value ;;
          validation <- validateParameterType valueStr (p_type inputParam)
                          (p_components inputParam) ;;
          match validation with
          | invalid error =>
              Done (Some (mkActionBuilderError
                            ("Invalid parameter " ++ p_name inputParam ++ ": " ++ error)
                            INVALID_PARAMETER))
          | valid _ => validate_inputs parameters rest
          end
      end
  end.

(** Build an action from the provided input. *)
Definition buildAction (input : BuildActionInput) : comp (Result Action) :=
  if negb (isValidAddress (contractAddress input)) then
    Done (failure (mkActionBuilderError "Invalid contract address" INVALID_ADDRESS))
  else
    match findFunctionBySignature (functionSignature input) (abi input) with
    | None =>
        Done (failure (mkActionBuilderError
                         ("Function not found: " ++ functionSignature input)
                         FUNCTION_NOT_FOUND))
    | Some func =>
        checked <- validate_inputs (parameters input) (inputs func) ;;
        match checked with
        | Some error => Done (failure error)
        | None =>
            encodeResult <- encodeCalldata (abi input) (functionSignature input)
                              (parameters input) ;;
            match encodeResult with
            | failure error => Done (failure error)
            | success data =>
                Done (success (mkAction (toLowerCase (contractAddress input))
                                 (enc_functionSignature data)
                                 (fn_name func)
                                 (enc_calldata data)
                                 [func]
                                 (native_value input)))
            end
        end
    end.

End Engine.

(** ** A reference [JSON.parse]

    The engine is parametric in [JSON.parse]; the properties below hold
    for any parser.  To run the engine on concrete texts, this parser reads
    the JSON grammar on the fragment whose values the embedding holds
    exactly: numbers that are integer literals of at most 15 digits, and
    strings whose escapes stay below U+0100.  It rejects every other
    text. *)

Definition is_json_space (c : ascii) : bool :=
  (code c =? 32)%N || (code c =? 9)%N || (code c =? 10)%N || (code c =? 13)%N.

Fixpoint skip_space (s : string) : string :=
  match s with
  | EmptyString => EmptyString
  | String c r => if is_json_space c then skip_space r else s
  end.

Definition unescape (c : ascii) : option ascii :=
  if Ascii.eqb c dquote then Some dquote
  else if Ascii.eqb c "\"%char then Some "\"%char
  else if Ascii.eqb c "/"%char then Some "/"%char
  else if Ascii.eqb c "b"%char then Some (ascii_of_N 8)
  else if Ascii.eqb c "f"%char then Some (ascii_of_N 12)
  else if Ascii.eqb c "n"%char then Some (ascii_of_N 10)
  else if Ascii.eqb c "r"%char then Some (ascii_of_N 13)
  else if Ascii.eqb c "t"%char then Some (ascii_of_N 9)
  else None.

(** The characters of a string literal after its opening quote, decoded,
    and the text after its closing quote. *)
Fixpoint read_string (s : string) : option (string * string) :=
  match s with
  | EmptyString => None
  | String c r =>
      if Ascii.eqb c dquote then Some (EmptyString, r)
      else if Ascii.eqb c "\"%char then
        match r with
        | String "u" (String h1 (String h2 (String h3 (String h4 r')))) =>
            match digits_value 16 (String h1 (String h2 (String h3 (String h4 ""))) ) 0 with
            | Some z =>
                if z <? 256 then
                  match read_string r' with
                  | Some (body, rest) => Some (String (ascii_of_N (Z.to_N z)) body, rest)
                  | None => None
                  end
                else None
            | None => None
            end
        | String e r' =>
            match unescape e, read_string r' with
            | Some x, Some (body, rest) => Some (String x body, rest)
            | _, _ => None
            end
        | EmptyString => None
        end
      else if (code c <? 32)%N then None
      else
        match read_string r with
        | Some (body, rest) => Some (String c body, rest)
        | None => None
        end
  end.

(** An integer literal, [-]? ( 0 | [1-9][0-9]* ), not followed by a
    fraction or an exponent; the value is the Number's text. *)
Definition read_number (s : string) : option (jsval * string) :=
  let '(negative, s) :=
    match s with
    | String "-" r => (true, r)
    | _ => (false, s)
    end in
  let '(digits, rest) := span is_digit s in
  let well_formed :=
    match digits with
    | EmptyString => false
    | String "0" (String _ _) => false
    | _ => (String.length digits <=? 15)%nat
    end in
  let continues :=
    match rest with
    | String "." _ | String "e" _ | String "E" _ => true
    | _ => false
    end in
  if well_formed && negb continues then
    match digits_value 10 digits 0 with
    | Some z => Some (VNum (decimal (if negative then - z else z)), rest)
    | None => None
    end
  else None.

Definition read_literal (word : string) (v : jsval) (s : string) : option (jsval * string) :=
  if startsWith s word then Some (v, slice (String.length word) s) else None.

Fixpoint read_value (fuel : nat) (s : string) : option (jsval * string) :=
  match fuel with
  | O => None
  | S fuel' =>
      let elements :=
        fix elements (n : nat) (s : string) (acc : list jsval) : option (jsval * string) :=
          match n with
          | O => None
          | S n' =>
              match read_value fuel' s with
              | Some (v, r) =>
                  match skip_space r with
                  | String "," r' => elements n' r' (acc ++ [v])%list
                  | String "]" r' => Some (VArr (acc ++ [v])%list, r')
                  | _ => None
                  end
              | None => None
              end
          end in
      let members :=
        fix members (n : nat) (s : string) (acc : list (string * jsval))
          : option (jsval * string) :=
          match n with
          | O => None
          | S n' =>
              match skip_space s with
              | String c r =>
                  if Ascii.eqb c dquote then
                    match read_string r with
                    | Some (k, r1) =>
                        match skip_space r1 with
                        | String ":" r2 =>
                            match read_value fuel' r2 with
                            | Some (v, r3) =>
                                match skip_space r3 with
                                | String "," r4 => members n' r4 (obj_define k v acc)
                                | String "}" r4 => Some (VObj (obj_define k v acc), r4)
                                | _ => None
                                end
                            | None => None
                            end
                        | _ => None
                        end
                    | None => None
                    end
                  else None
              | EmptyString => None
              end
          end in
      match skip_space s with
      | EmptyString => None
      | String c r =>
          if Ascii.eqb c dquote then
            match read_string r with
            | Some (body, rest) => Some (VStr body, rest)
            | None => None
            end
          else if Ascii.eqb c "["%char then
            match skip_space r with
            | String "]" r' => Some (VArr [], r')
            | _ => elements fuel' r []
            end
          else if Ascii.eqb c "{"%char then
            match skip_space r with
            | String "}" r' => Some (VObj [], r')
            | _ => members fuel' r []
            end
          else if Ascii.eqb c "n"%char then read_literal "null" VNull (String c r)
          else if Ascii.eqb c "t"%char then read_literal "true" (VBool true) (String c r)
          else if Ascii.eqb c "f"%char then read_literal "false" (VBool false) (String c r)
          else read_number (String c r)
      end
  end.

Definition parse_json (text : string) : option jsval :=
  match read_value (S (String.length text)) text with
  | Some (v, rest) =>
      match skip_space rest with
      | EmptyString => Some v
      | _ => None
      end
  | None => None
  end.

(** * The rest of the library

    The functions around the engine: the type hint of validators.ts, the
    remaining entry points of calldata-encoder.ts and action-builder.ts,
    the function table of abi-loader.ts and calldata-decoder.ts. *)

(** ** Type hints (validators.ts) *)

(** Get a user-friendly error message for a parameter type. *)
Definition getParameterTypeErrorMessage (type : string) : string :=
  let parsed := parseType type in
  if isArray parsed then "Must be a valid JSON array of " ++ baseType parsed ++ " values"
  else if isTuple parsed then "Must be a valid JSON object matching the tuple structure"
  else if String.eqb (baseType parsed) "address" then "Invalid Ethereum address"
  else if startsWith (baseType parsed) "uint"
  then "Must be a positive number (no spaces allowed)"
  else if startsWith (baseType parsed) "int"
  then "Must be a valid number (no spaces allowed)"
  else if String.eqb (baseType parsed) "bool" then "Must be true or false"
  else if String.eqb (baseType parsed) "bytes" || startsWith (baseType parsed) "bytes"
  then "Must be a valid hex string starting with 0x"
  else if String.eqb (baseType parsed) "string" then "Must be a valid string"
  else "Invalid input".

(** ** Function lookup by name (abi-utils.ts) *)

Definition findFunctionsByName (name : string) (abi : list AbiFunction) : list AbiFunction :=
  filter (fun fn => String.eqb (fn_name fn) name) abi.

(** ** The function table of a loaded contract (abi-loader.ts) *)

Record LoadAbiResult : Type := mkLoadAbiResult {
  proxyAbi : list AbiFunction;
  logicAbi : list AbiFunction;
  implementationAddress : option string;
  isProxy : bool
}.

(** [Map.prototype.set]: an existing key keeps its place and takes the new
    value; a new key goes last. *)
Fixpoint map_set {A} (k : string) (v : A) (m : list (string * A)) : list (string * A) :=
  match m with
  | [] => [(k, v)]
  | (k', v') :: r =>
      if String.eqb k k' then (k, v) :: r else (k', v') :: map_set k v r
  end.

(** One [for ... of] loop of [getAvailableFunctions]. *)
Definition add_functions (fns : list AbiFunction) (functions : list (string * AbiFunction))
  : list (string * AbiFunction) :=
  fold_left (fun m fn => map_set (getFunctionSignature fn) fn m) fns functions.

(** Get all available functions from loaded ABIs. *)
Definition getAvailableFunctions (abiResult : LoadAbiResult) : list AbiFunction :=
  map snd (add_functions (proxyAbi abiResult) (add_functions (logicAbi abiResult) [])).

(** ** Parameter presence (calldata-encoder.ts) *)

Record ParameterCheck : Type := mkParameterCheck {
  all_present : bool;          (* the field [valid] *)
  missing : list string
}.

(** Validate that all required parameters are provided for a function. *)
Definition validateFunctionParameters (func : AbiFunction) (parameters : list (string * jsval))
  : ParameterCheck :=
  let missing :=
    map p_name
      (filter (fun input =>
                 match get_prop parameters (p_name input) with
                 | VUndefined => true
                 | _ => false
                 end) (inputs func)) in
  mkParameterCheck (Nat.eqb (List.length missing) 0) missing.

(** ** Signatures as text (calldata-decoder.ts) *)

(** The split of a text at its last opening parenthesis. *)
Fixpoint split_at_last_paren (s : string) : option (string * string) :=
  match s with
  | EmptyString => None
  | String c r =>
      match split_at_last_paren r with
      | Some (a, b) => Some (String c a, b)
      | None => if Ascii.eqb c "("%char then Some (EmptyString, r) else None
      end
  end.

(** The text without its last character, when that is a closing
    parenthesis. *)
Fixpoint strip_closing_paren (s : string) : option string :=
  match s with
  | EmptyString => None
  | String c EmptyString => if Ascii.eqb c ")"%char then Some EmptyString else None
  | String c r =>
      match strip_closing_paren r with
      | Some r' => Some (String c r')
      | None => None
      end
  end.

(** The match of the signature pattern: one or more characters, an opening
    parenthesis, any characters, a closing parenthesis that ends the text.
    The greedy first group runs to the last opening parenthesis, which
    must not be the first character; no group holds a line terminator.
    The result is the pair of groups. *)
Definition match_signature (functionSignature : string) : option (string * string) :=
  if negb (string_forallb (fun x => negb (is_line_terminator x)) functionSignature)
  then None
  else
    match split_at_last_paren functionSignature with
    | Some (String c a, rest) =>
        match strip_closing_paren rest with
        | Some group2 => Some (String c a, group2)
        | None => None
        end
    | _ => None
    end.

(** [text.split(',')] *)
Fixpoint split_commas (text : string) : list string :=
  match text with
  | EmptyString => [EmptyString]
  | String c r =>
      if Ascii.eqb c ","%char then EmptyString :: split_commas r
      else
        match split_commas r with
        | h :: t => String c h :: t
        | [] => [String c EmptyString]
        end
  end.

(** [paramTypesStr ? paramTypesStr.split(',').map((t) => t.trim()) : []] *)
Definition parameter_types_of (paramTypesStr : string) : list string :=
  if is_empty paramTypesStr then [] else map trim (split_commas paramTypesStr).

(** The inputs [{ name: `param${index}`, type }] of the minimal ABI. *)
Fixpoint numbered_inputs (index : nat) (paramTypes : list string) : list AbiParameter :=
  match paramTypes with
  | [] => []
  | type :: rest =>
      mkAbiParameter ("param" ++ decimal (Z.of_nat index)) type None
      :: numbered_inputs (S index) rest
  end.

Definition minimal_function (funcName : string) (paramTypes : list string) : AbiFunction :=
  mkAbiFunction funcName (numbered_inputs 0 paramTypes) None "nonpayable".

(** ** Decoding (calldata-decoder.ts) *)

Record DecodeCalldataResult : Type := mkDecodeCalldataResult {
  dec_functionName : string;
  dec_functionSignature : string;
  dec_parameters : list (string * jsval);
  dec_parameterTypes : list string
}.

(** What [parseTransaction] gives: the name of the function and the read
    [args[i]] of the decoded arguments. *)
Record TransactionDescription : Type := mkTransactionDescription {
  tx_name : string;
  tx_args : nat -> comp jsval
}.

(** Combine all ABIs, keeping the first function of each signature. *)
Fixpoint combine_functions (functions : list AbiFunction) (seenSignatures : list string)
    (combinedAbi : list AbiFunction) : list AbiFunction :=
  match functions with
  | [] => combinedAbi
  | func :: rest =>
      let sig := getFunctionSignature func in
      if existsb (String.eqb sig) seenSignatures
      then combine_functions rest seenSignatures combinedAbi
      else combine_functions rest (seenSignatures ++ [sig]) (combinedAbi ++ [func])
  end.

Definition combineAbis (abis : list (list AbiFunction)) : list AbiFunction :=
  combine_functions (concat abis) [] [].

(** [decoded.parameterTypes[index] || 'unknown'] *)
Definition type_at (parameterTypes : list string) (index : nat) : string :=
  match nth_error parameterTypes index with
  | Some t => if is_empty t then "unknown" else t
  | None => "unknown"
  end.

(** The [map] of [formatDecodedParameters] from index [index] on. *)
Fixpoint format_entries (parameterTypes : list string) (index : nat)
    (entries : list (string * jsval)) : comp (list string) :=
  match entries with
  | [] => Done []
  | (name, value) :: rest =>
      text <- js_String value ;;
      others <- format_entries parameterTypes (S index) rest ;;
      Done ((type_at parameterTypes index ++ ": " ++ text) :: others)
  end.

(** Format decoded parameters for display. *)
Definition formatDecodedParameters (decoded : DecodeCalldataResult) : comp string :=
  formatted <- format_entries (dec_parameterTypes decoded) 0 (dec_parameters decoded) ;;
  Done (join ", " formatted).

Section Codec.

Variable JSON_parse : string -> option jsval.

(** [new Interface([func]).encodeFunctionData(func.name, args)] *)
Variable encodeFunctionData : AbiFunction -> list jsval -> comp string.

(** [new Interface(abi).parseTransaction({ data })]; [None] is [null]. *)
Variable parseTransaction : list AbiFunction -> string -> comp (option TransactionDescription).

(** Encode calldata by function name (uses first matching overload). *)
Definition encodeCalldataByName (abi : list AbiFunction) (functionName : string)
    (parameters : list jsval) : comp (Result EncodeCalldataResult) :=
  let matchingFuncs := filter (fun fn => String.eqb (fn_name fn) functionName) abi in
  if Nat.eqb (List.length matchingFuncs) 0 then
    Done (failure (mkActionBuilderError ("Function not found: " ++ functionName)
                     FUNCTION_NOT_FOUND))
  else
    match find (fun fn => Nat.eqb (List.length (inputs fn)) (List.length parameters))
            matchingFuncs with
    | None =>
        Done (failure (mkActionBuilderError
                         ("No overload of " ++ functionName ++ " matches "
                          ++ decimal (Z.of_nat (List.length parameters)) ++ " parameters")
                         FUNCTION_NOT_FOUND))
    | Some func =>
        match (calldata <- encodeFunctionData func parameters ;;
               Done (success (mkEncodeCalldataResult calldata (getFunctionSignature func))))
        with
        | Raise e =>
            Done (failure (mkActionBuilderError ("Failed to encode calldata: " ++ e)
                             ENCODING_FAILED))
        | other => other
        end
    end.

(** Build an action using a predefined method ABI. *)
Definition buildActionFromPredefined (input : BuildActionInput) (abi : list AbiFunction)
  : comp (Result Action) :=
  if negb (isValidAddress (contractAddress input)) then
    Done (failure (mkActionBuilderError "Invalid contract address" INVALID_ADDRESS))
  else
    match findFunctionBySignature (functionSignature input) abi with
    | None =>
        Done (failure (mkActionBuilderError
                         ("Function not found: " ++ functionSignature input)
                         FUNCTION_NOT_FOUND))
    | Some func =>
        checked <- validate_inputs JSON_parse (parameters input) (inputs func) ;;
        match checked with
        | Some error => Done (failure error)
        | None =>
            encodeResult <- encodeCalldata JSON_parse encodeFunctionData abi
                              (functionSignature input) (parameters input) ;;
            match encodeResult with
            | failure error => Done (failure error)
            | success data =>
                Done (success (mkAction (toLowerCase (contractAddress input))
                                 (enc_functionSignature data)
                                 (fn_name func)
                                 (enc_calldata data)
                                 [func]
                                 (native_value input)))
            end
        end
    end.

(** The parameter loop of [decodeCalldata] from index [i] on:
    [input.name || `param${i}`] names the display text of [args[i]]. *)
Fixpoint decode_inputs (args : nat -> comp jsval) (inputs : list AbiParameter) (i : nat)
    (parameters : list (string * jsval)) (parameterTypes : list string)
  : comp (list (string * jsval) * list string) :=
  match inputs with
  | [] => Done (parameters, parameterTypes)
  | input :: rest =>
      let paramName :=
        if is_empty (p_name input) then "param" ++ decimal (Z.of_nat i) else p_name input in
      value <- args i ;;
      text <- denormalizeParameterValue value (p_type input) (p_components input) ;;
      decode_inputs args rest (S i) (obj_set paramName (VStr text) parameters)
        (parameterTypes ++ [p_type input])
  end.

Definition decoding_failed (outcome : comp (Result DecodeCalldataResult))
  : comp (Result DecodeCalldataResult) :=
  match outcome with
  | Raise e =>
      Done (failure (mkActionBuilderError ("Failed to decode calldata: " ++ e)
                       DECODING_FAILED))
  | other => other
  end.

(** Decode calldata using a known ABI. *)
Definition decodeCalldata (calldata : string) (abi : list AbiFunction)
  : comp (Result DecodeCalldataResult) :=
  decoding_failed
    (decoded <- parseTransaction abi calldata ;;
     match decoded with
     | None =>
         Done (failure (mkActionBuilderError
                          "Failed to decode calldata - no matching function found"
                          DECODING_FAILED))
     | Some decoded =>
         match find (fun fn => String.eqb (fn_name fn) (tx_name decoded)) abi with
         | None =>
             Done (failure (mkActionBuilderError
                              ("Function " ++ tx_name decoded ++ " not found in ABI")
                              FUNCTION_NOT_FOUND))
         | Some func =>
             built <- decode_inputs (tx_args decoded) (inputs func) 0 [] [] ;;
             Done (success (mkDecodeCalldataResult (tx_name decoded)
                              (getFunctionSignature func) (fst built) (snd built)))
         end
     end).

(** The parameter loop of [decodeCalldataBySignature] from index [i] on. *)
Fixpoint decode_types (args : nat -> comp jsval) (paramTypes : list string) (i : nat)
    (parameters : list (string * jsval)) : comp (list (string * jsval)) :=
  match paramTypes with
  | [] => Done parameters
  | type :: rest =>
      value <- args i ;;
      text <- denormalizeParameterValue value type None ;;
      decode_types args rest (S i)
        (obj_set ("param" ++ decimal (Z.of_nat i)) (VStr text) parameters)
  end.

(** Decode calldata using a function signature (without full ABI). *)
Definition decodeCalldataBySignature (calldata functionSignature : string)
  : comp (Result DecodeCalldataResult) :=
  decoding_failed
    match match_signature functionSignature with
    | None =>
        Done (failure (mkActionBuilderError
                         ("Invalid function signature: " ++ functionSignature)
                         DECODING_FAILED))
    | Some (funcName, paramTypesStr) =>
        let paramTypes := parameter_types_of paramTypesStr in
        let minimalAbi := [minimal_function funcName paramTypes] in
        decoded <- parseTransaction minimalAbi calldata ;;
        match decoded with
        | None =>
            Done (failure (mkActionBuilderError "Failed to decode calldata" DECODING_FAILED))
        | Some decoded =>
            parameters <- decode_types (tx_args decoded) paramTypes 0 [] ;;
            Done (success (mkDecodeCalldataResult funcName functionSignature
                             parameters paramTypes))
        end
    end.

(** Try to decode calldata by matching against multiple ABIs. *)
Definition tryDecodeCalldata (calldata : string) (abis : list (list AbiFunction))
  : comp (Result DecodeCalldataResult) :=
  decodeCalldata calldata (combineAbis abis).

End Codec.

(** ** Vocabulary of the properties *)

Definition no_space (c : ascii) : bool := negb (is_white_space c).

(** A text that starts with white space. *)
Definition leading_space (s : string) : bool :=
  match s with
  | String c _ => is_white_space c
  | EmptyString => false
  end.

(** A text that ends with white space. *)
Definition trailing_space (s : string) : bool :=
  match last_char s with
  | Some c => is_white_space c
  | None => false
  end.

Definition rejects (m : comp ParameterValidationResult) : Prop :=
  exists error, m = Done (invalid error).

Definition bytes33 : string :=
  "0x000102030405060708090a0b0c0d0e0f101112131415161718191a1b1c1d1e1f20".

(** The measure that bounds the recursion of the dispatcher. *)
Definition measure (type : string) (components : option (list AbiParameter)) : nat :=
  (bracket_count type + components_size components)%nat.

(** The type of the dispatcher, as its own callee. *)
Definition callee : Type :=
  option string -> string -> option (list AbiParameter) -> comp ParameterValidationResult.

(** A component name under which [o[name] = v] appends a property: not
    an array index (those are enumerated first) and not [__proto__]. *)
Definition plain_name (n : string) : bool :=
  match array_index n with
  | Some _ => false
  | None => negb (String.eqb n "__proto__")
  end.

Fixpoint distinct (l : list string) : bool :=
  match l with
  | [] => true
  | x :: r => negb (existsb (String.eqb x) r) && distinct r
  end.

(** Component names that are pairwise distinct and plain. *)
Definition plain_names (components : list AbiParameter) : bool :=
  distinct (map p_name components) && forallb plain_name (map p_name components).

(** The component is present in the parsed object and its value passes
    the validator of its type. *)
Definition field_ok (rec : callee) (parsed : list (string * jsval)) (c : AbiParameter) : Prop :=
  get_prop parsed (p_name c) <> VUndefined
  /\ exists t v,
       text_of (get_prop parsed (p_name c)) = Done t
       /\ rec t (p_type c) (p_components c) = Done (valid v).

(** The property [kv] holds the normalized value of component [c]. *)
Definition field_of (rec : callee) (parsed : list (string * jsval)) (c : AbiParameter)
    (kv : string * jsval) : Prop :=
  fst kv = p_name c
  /\ exists t,
       text_of (get_prop parsed (p_name c)) = Done t
       /\ rec t (p_type c) (p_components c) = Done (valid (snd kv)).

(** What the tuple loop does with the outcome of a field's validator. *)
Definition field_step (c : AbiParameter)
    (continue : jsval -> comp ParameterValidationResult)
    (result : ParameterValidationResult) : comp ParameterValidationResult :=
  match result with
  | invalid error => Done (invalid ("Invalid field " ++ quoted (p_name c) ++ ": " ++ error))
  | valid normalizedValue => continue normalizedValue
  end.

(** Example data: the two-field tuple of the repository's tests. *)
Definition transfer_components : list AbiParameter :=
  [ mkAbiParameter "to" "address" None; mkAbiParameter "amount" "uint256" None ].

Definition two_uints : list AbiParameter :=
  [ mkAbiParameter "a" "uint256" None; mkAbiParameter "b" "uint256" None ].

(** [{"to":"0x1234567890123456789012345678901234567890"}] *)
Definition tuple_without_amount : string :=
  "{" ++ quoted "to" ++ ":" ++ quoted "0x1234567890123456789012345678901234567890" ++ "}".

(** [{"amount":"1000","to":"0x1234567890123456789012345678901234567890"}] *)
Definition tuple_amount_first : string :=
  "{" ++ quoted "amount" ++ ":" ++ quoted "1000" ++ "," ++ quoted "to" ++ ":"
  ++ quoted "0x1234567890123456789012345678901234567890" ++ "}".

(** [{"to":"0x1234567890123456789012345678901234567890","amount":null}] *)
Definition tuple_null_amount : string :=
  "{" ++ quoted "to" ++ ":" ++ quoted "0x1234567890123456789012345678901234567890" ++ ","
  ++ quoted "amount" ++ ":null}".

(** [{"a":"x"}] *)
Definition tuple_bad_a : string := "{" ++ quoted "a" ++ ":" ++ quoted "x" ++ "}".

(** [{"b":"5","1":"6"}] *)
Definition tuple_b_1 : string :=
  "{" ++ quoted "b" ++ ":" ++ quoted "5" ++ "," ++ quoted "1" ++ ":" ++ quoted "6" ++ "}".

Definition components_b_1 : list AbiParameter :=
  [ mkAbiParameter "b" "uint256" None; mkAbiParameter "1" "uint256" None ].





(** Example data: a minimal ERC-20 ABI and a call of its [transfer]. *)
Definition transfer_function : AbiFunction :=
  mkAbiFunction "transfer"
    [ mkAbiParameter "to" "address" None; mkAbiParameter "amount" "uint256" None ]
    (Some [ mkAbiParameter "" "bool" None ]) "nonpayable".

Definition balanceOf_function : AbiFunction :=
  mkAbiFunction "balanceOf" [ mkAbiParameter "account" "address" None ]
    (Some [ mkAbiParameter "" "uint256" None ]) "view".

Definition erc20_abi : list AbiFunction := [ balanceOf_function; transfer_function ].

(** The calldata of [transfer(0x1234567890123456789012345678901234567890, 1000)]. *)
Definition transfer_calldata : string :=
  "0xa9059cbb"
  ++ "0000000000000000000000001234567890123456789012345678901234567890"
  ++ "00000000000000000000000000000000000000000000000000000000000003e8".

(** A codec that answers the calldata above, for running the examples. *)
Definition transfer_codec (func : AbiFunction) (args : list jsval) : comp string :=
  Done transfer_calldata.

Definition transfer_input (parameters : list (string * jsval)) : BuildActionInput :=
  mkBuildActionInput "0xAbCdEf1234567890123456789012345678901234"
    "transfer(address,uint256)" parameters erc20_abi None.

Definition address_1234 : string := "0x1234567890123456789012345678901234567890".

Definition transfer_parameters : list (string * jsval) :=
  [ ("to", VStr address_1234); ("amount", VStr "1000") ].

(** [function note(string toString, string __proto__)] *)
Definition note_function : AbiFunction :=
  mkAbiFunction "note"
    [ mkAbiParameter "toString" "string" None; mkAbiParameter "__proto__" "string" None ]
    None "nonpayable".

Definition note_input (signature : string) (abi : list AbiFunction) : BuildActionInput :=
  mkBuildActionInput "0xAbCdEf1234567890123456789012345678901234" signature [] abi None.

(** [function pay((address to, uint256 amount) payment)] *)
Definition pay_function : AbiFunction :=
  mkAbiFunction "pay"
    [ mkAbiParameter "payment" "tuple"
        (Some [ mkAbiParameter "to" "address" None;
                mkAbiParameter "amount" "uint256" None ]) ]
    None "nonpayable".

(** The type of the normalizer, as its own callee. *)
Definition normalizer : Type :=
  jsval -> string -> option (list AbiParameter) -> comp jsval.

(** Example data: JSON texts of the repository's tests. *)
Definition address_abcd : string := "0xabcdef1234567890123456789012345678901234".

(** [["0x1234567890123456789012345678901234567890", "0xabcdef1234567890123456789012345678901234"]] *)
Definition two_addresses : string :=
  "[" ++ quoted address_1234 ++ ", " ++ quoted address_abcd ++ "]".

(** [{"to": "0x1234567890123456789012345678901234567890", "amount": "1000"}] *)
Definition tuple_to_amount : string :=
  "{" ++ quoted "to" ++ ": " ++ quoted address_1234 ++ ", "
  ++ quoted "amount" ++ ": " ++ quoted "1000" ++ "}".

(** [{"to": "invalid", "amount": "1000"}] *)
Definition tuple_invalid_to : string :=
  "{" ++ quoted "to" ++ ": " ++ quoted "invalid" ++ ", "
  ++ quoted "amount" ++ ": " ++ quoted "1000" ++ "}".

(** Case analysis on the 256 code units. *)
Ltac ascii_cases c := destruct c as [[] [] [] [] [] [] [] []].

(** ** Vocabulary of the further properties *)

(** A text without white space at either end. *)
Definition trimmed (s : string) : bool := negb (leading_space s) && negb (trailing_space s).

(** A text made of 0x or 0X and 40 hex digits. *)
Definition address_shape (a : string) : bool :=
  match a with
  | String c1 (String c2 h) =>
      Ascii.eqb c1 "0"%char
      && (Ascii.eqb c2 "x"%char || Ascii.eqb c2 "X"%char)
      && (String.length h =? 40)%nat
      && string_forallb is_hex h
  | _ => false
  end.

(** Example data: an address written with the prefix 0X. *)
Definition address_upper_prefix : string := "0X1234567890123456789012345678901234567890".


(** A dimension that is dynamic or a size below 2^53, which the source
    holds exactly. *)
Definition exact_dimension (d : option number) : Prop :=
  d = None \/ exists z, 0 <= z < 9007199254740992 /\ d = Some (Num z).

(** A character of a type as it stands in a signature: no parenthesis, no
    comma, no line terminator. *)
Definition signature_char (c : ascii) : bool :=
  negb (Ascii.eqb c "("%char) && negb (Ascii.eqb c ","%char) && negb (is_line_terminator c).

(** A type as it stands in a signature: not empty, of signature
    characters, without white space at either end. *)
Definition plain_type (t : string) : bool :=
  negb (is_empty t) && string_forallb signature_char t && String.eqb (trim t) t.

(** [function approve(address spender, uint256 amount)] *)
Definition approve_function : AbiFunction :=
  mkAbiFunction "approve"
    [ mkAbiParameter "spender" "address" None; mkAbiParameter "amount" "uint256" None ]
    None "nonpayable".

(** A parameter value as a form passes it: a text, or nothing. *)
Definition text_valued (v : jsval) : bool :=
  match v with
  | VStr _ | VUndefined => true
  | _ => false
  end.

(** The declared inputs are given as texts, where they are given. *)
Definition text_parameters (parameters : list (string * jsval)) (inputs : list AbiParameter)
  : Prop :=
  Forall (fun p => text_valued (get_prop parameters (p_name p)) = true) inputs.

(** The error codes of the results of [buildAction]. *)
Definition buildAction_codes : list ActionBuilderErrorCode :=
  [INVALID_ADDRESS; FUNCTION_NOT_FOUND; INVALID_PARAMETER; ENCODING_FAILED].

(** [`param${index}`] *)
Definition param_name (index : nat) : string := "param" ++ decimal (Z.of_nat index).

(** A property whose value is a text. *)
Definition text_entry (kv : string * jsval) : Prop := exists s, snd kv = VStr s.

(** A value as the codec decodes it: a BigInt, a boolean, a text, or an
    array of such values. *)
Fixpoint decoded_value (v : jsval) : bool :=
  match v with
  | VBigInt _ | VBool _ | VStr _ => true
  | VArr items => forallb decoded_value items
  | _ => false
  end.

(** The loops of the denormalizer, over what they do with one value. *)
Section DenormalizeLoops.

Variable each_item : jsval -> comp string.
Variable field : jsval -> AbiParameter -> comp string.

Fixpoint denormalize_items (l : list jsval) : comp (list jsval) :=
  match l with
  | [] => Done []
  | item :: r =>
      s <- each_item item ;;
      rs <- denormalize_items r ;;
      Done (VStr s :: rs)
  end.

Fixpoint denormalize_fields (vs : list jsval) (cs : list AbiParameter)
    (result : list (string * jsval)) {struct vs} : comp (list (string * jsval)) :=
  match cs with
  | [] => Done result
  | comp :: cs' =>
      match vs with
      | [] => Done (fold_left (fun acc c => obj_set (p_name c) (VStr "") acc) cs result)
      | v :: vs' =>
          s <- field v comp ;;
          denormalize_fields vs' cs' (obj_set (p_name comp) (VStr s) result)
      end
  end.

End DenormalizeLoops.

(** The value given to the codec stands for the validated value: it is
    that value, or a text that [BigInt] reads as the validated integer. *)
Definition codec_form (validated encoded : jsval) : Prop :=
  validated = encoded
  \/ exists n s, validated = VBigInt n /\ encoded = VStr s /\ BigInt s = Done n.

(** The display of the argument at [i] for an input:
    [denormalizeParameterValue(decoded.args[i], input.type, input.components)]. *)
Definition display (args : nat -> comp jsval) (i : nat) (input : AbiParameter) : comp string :=
  value <- args i ;;
  denormalizeParameterValue value (p_type input) (p_components input).

(** [input.name || `param${i}`] *)
Definition display_name (i : nat) (input : AbiParameter) : string :=
  if is_empty (p_name input) then param_name i else p_name input.

(** The inputs from index [i] on have the given texts as their displays. *)
Fixpoint displayed (args : nat -> comp jsval) (i : nat) (inputs : list AbiParameter)
    (texts : list string) : Prop :=
  match inputs, texts with
  | [], [] => True
  | input :: inputs', text :: texts' =>
      display args i input = Done text /\ displayed args (S i) inputs' texts'
  | _, _ => False
  end.

(** The assignments [parameters[paramName] = text] for the inputs from
    index [i] on, in order. *)
Fixpoint assigned (i : nat) (inputs : list AbiParameter) (texts : list string)
    (parameters : list (string * jsval)) : list (string * jsval) :=
  match inputs, texts with
  | input :: inputs', text :: texts' =>
      assigned (S i) inputs' texts' (obj_set (display_name i input) (VStr text) parameters)
  | _, _ => parameters
  end.

(** A transaction reader for running the examples: it knows the function
    [transfer] and gives its two arguments. *)
Definition transfer_reader (abi : list AbiFunction) (data : string)
  : comp (option TransactionDescription) :=
  Done (Some (mkTransactionDescription "transfer"
                (fun i => match i with
                          | O => Done (VStr address_1234)
                          | _ => Done (VBigInt 1000)
                          end))).

(** [`${type}: ${value}`], the type being [type || 'unknown']. *)
Definition labelled (entry : string * string) : string :=
  (if is_empty (fst entry) then "unknown" else fst entry) ++ ": " ++ snd entry.

(** A value of the type [ParameterValue]: a text, a boolean, a BigInt, or
    an array or an object of such values. *)
Fixpoint parameter_value (v : jsval) : bool :=
  match v with
  | VStr _ | VBool _ | VBigInt _ => true
  | VArr items => forallb parameter_value items
  | VObj props => forallb (fun kv : string * jsval => parameter_value (snd kv)) props
  | _ => false
  end.

(** A parameter map that holds values of the type [ParameterValue]. *)
Definition parameter_map (parameters : list (string * jsval)) : Prop :=
  Forall (fun kv => parameter_value (snd kv) = true) parameters.

(** A value as [JSON.parse] returns it: null, a boolean, a number, a text,
    or an array or an object of such values. *)
Fixpoint json_value (v : jsval) : bool :=
  match v with
  | VNull | VBool _ | VNum _ | VStr _ => true
  | VArr items => forallb json_value items
  | VObj props => forallb (fun kv : string * jsval => json_value (snd kv)) props
  | _ => false
  end.

(** [JSON.parse] returns JSON values. *)
Definition parses_json (JSON_parse : string -> option jsval) : Prop :=
  forall text v, JSON_parse text = Some v -> json_value v = true.

(** The seven cases of a statement about the hints, and one of them. *)
Ltac hint_cases :=
  refine (conj _ (conj _ (conj _ (conj _ (conj _ (conj _ _)))))).

Ltac hint_case :=
  let H := fresh "H" in
  intro H; first [discriminate H | reflexivity | eexists; reflexivity].

(** * The repository's tests, on the embedding

    The cases of validators.test.ts, with the default bit width 256 written
    out. *)

Example test_parseType_simple :
  parseType "address" = mkParsedType "address" false [] false
  /\ parseType "uint256" = mkParsedType "uint256" false [] false.
Proof. split; reflexivity. Qed.

Example test_parseType_arrays :
  parseType "address[]" = mkParsedType "address" true [None] false
  /\ parseType "uint256[5]" = mkParsedType "uint256" true [Some (Num 5)] false
  /\ parseType "uint256[][]" = mkParsedType "uint256" true [None; None] false.
Proof. repeat split; reflexivity. Qed.

Example test_parseType_tuples :
  parseType "tuple" = mkParsedType "tuple" false [] true
  /\ parseType "tuple[]" = mkParsedType "tuple" true [None] true.
Proof. split; reflexivity. Qed.

Example test_validateAddress :
  validateAddress address_1234 = valid (VStr address_1234)
  /\ validateAddress "0xAbCdEf1234567890123456789012345678901234" = valid (VStr address_abcd)
  /\ isValid (validateAddress "0x123") = false
  /\ isValid (validateAddress "not an address") = false
  /\ isValid (validateAddress "") = false.
Proof. repeat split; reflexivity. Qed.

Example test_validateUint :
  validateUint "0" 256 = Done (valid (VBigInt 0))
  /\ validateUint "123" 256 = Done (valid (VBigInt 123))
  /\ validateUint "1000000000000000000" 256 = Done (valid (VBigInt 1000000000000000000))
  /\ validateUint "-1" 256 = Done (invalid "Must be a non-negative number")
  /\ validateUint " 123" 256 = Done (invalid "Invalid number format (no spaces allowed)")
  /\ validateUint "123 " 256 = Done (invalid "Invalid number format (no spaces allowed)")
  /\ validateUint "255" 8 = Done (valid (VBigInt 255))
  /\ validateUint "256" 8 = Done (invalid "Value exceeds uint8 max").
Proof. repeat split; reflexivity. Qed.

Example test_validateInt :
  validateInt "0" 256 = Done (valid (VBigInt 0))
  /\ validateInt "-123" 256 = Done (valid (VBigInt (-123)))
  /\ validateInt "123" 256 = Done (valid (VBigInt 123))
  /\ validateInt "127" 8 = Done (valid (VBigInt 127))
  /\ validateInt "-128" 8 = Done (valid (VBigInt (-128)))
  /\ validateInt "128" 8 = Done (invalid "Value out of range for int8")
  /\ validateInt "-129" 8 = Done (invalid "Value out of range for int8").
Proof. repeat split; reflexivity. Qed.

Example test_validateBool :
  validateBool "true" = valid (VBool true)
  /\ validateBool "false" = valid (VBool false)
  /\ validateBool "TRUE" = valid (VBool true)
  /\ validateBool "FALSE" = valid (VBool false)
  /\ isValid (validateBool "yes") = false
  /\ isValid (validateBool "1") = false
  /\ isValid (validateBool "") = false.
Proof. repeat split; reflexivity. Qed.

Example test_validateBytes :
  validateBytes "0x" None = valid (VStr "0x")
  /\ validateBytes "0x1234" None = valid (VStr "0x1234")
  /\ validateBytes "0xabcdef" None = valid (VStr "0xabcdef")
  /\ validateBytes address_1234 (Some (Num 20)) = valid (VStr address_1234)
  /\ validateBytes "0x12" (Some (Num 1)) = valid (VStr "0x12")
  /\ validateBytes "0x1234" (Some (Num 1)) = invalid "Must be exactly 1 bytes"
  /\ validateBytes "1234" None = invalid "Must start with 0x"
  /\ validateBytes "0xGG" None = invalid "Invalid hex string"
  /\ validateBytes "" None = invalid "Bytes value is required".
Proof. repeat split; reflexivity. Qed.

Example test_validateArray :
  validateArray parse_json (VStr two_addresses) "address" None None
  = Done (valid (VArr [VStr address_1234; VStr address_abcd]))
  /\ validateArray parse_json (VStr "[1, 2, 3]") "uint256" None None
     = Done (valid (VArr [VBigInt 1; VBigInt 2; VBigInt 3]))
  /\ validateArray parse_json (VStr "[1, 2, 3]") "uint256" None (Some (Num 3))
     = Done (valid (VArr [VBigInt 1; VBigInt 2; VBigInt 3]))
  /\ validateArray parse_json (VStr "[1, 2]") "uint256" None (Some (Num 3))
     = Done (invalid "Array must have exactly 3 elements")
  /\ validateArray parse_json (VStr ("[" ++ quoted "not an address" ++ "]")) "address"
       None None
     = Done (invalid
               "Invalid element at index 0: Invalid Ethereum address. Must be 40 hex characters starting with 0x")
  /\ validateArray parse_json (VStr "not json") "uint256" None None
     = Done (invalid "Invalid JSON array format").
Proof. repeat split; reflexivity. Qed.

Example test_validateTuple :
  validateTuple parse_json (VStr tuple_to_amount) transfer_components
  = Done (valid (VObj [("to", VStr address_1234); ("amount", VBigInt 1000)]))
  /\ validateTuple parse_json (VStr tuple_without_amount) transfer_components
     = Done (invalid "Missing required field: amount")
  /\ validateTuple parse_json (VStr tuple_invalid_to) transfer_components
     = Done (invalid ("Invalid field " ++ quoted "to"
                      ++ ": Invalid Ethereum address. Must be 40 hex characters starting with 0x")).
Proof. repeat split; reflexivity. Qed.

Example test_validateParameterType :
  validateParameterType parse_json (Some address_1234) "address" None
  = Done (valid (VStr address_1234))
  /\ validateParameterType parse_json (Some "123") "uint256" None
     = Done (valid (VBigInt 123))
  /\ validateParameterType parse_json (Some "-123") "int256" None
     = Done (valid (VBigInt (-123)))
  /\ validateParameterType parse_json (Some "true") "bool" None
     = Done (valid (VBool true))
  /\ validateParameterType parse_json (Some "0x1234") "bytes" None
     = Done (valid (VStr "0x1234"))
  /\ validateParameterType parse_json (Some "hello") "string" None
     = Done (valid (VStr "hello"))
  /\ validateParameterType parse_json (Some two_addresses) "address[]" None
     = Done (valid (VArr [VStr address_1234; VStr address_abcd])).
Proof. repeat split; reflexivity. Qed.

(** A round trip through the normalizer and the denormalizer: the inner
    arrays come back as JSON texts, which validate as arrays again. *)
Example test_round_trip_nested :
  (v <- normalizeParameterValue parse_json (VStr "[[1,2],[3,4]]") "uint256[][]" None ;;
   t <- denormalizeParameterValue v "uint256[][]" None ;;
   validateParameterType parse_json (Some t) "uint256[][]" None)
  = Done (valid (VArr [VArr [VBigInt 1; VBigInt 2]; VArr [VBigInt 3; VBigInt 4]])).
Proof. reflexivity. Qed.

(** * Properties *)

(** ** Decimal text *)

Lemma digits_value_uint_acc (u : Decimal.uint) (p : positive) :
  digits_value 10 (NilEmpty.string_of_uint u) (Z.pos p)
  = Some (Z.pos (Pos.of_uint_acc u p)).
Proof.
  revert p; induction u; intro p;
    cbn [NilEmpty.string_of_uint digits_value Pos.of_uint_acc];
    try reflexivity;
    match goal with
    | |- context [digit_value 10 ?c] =>
        let v := eval vm_compute in (digit_value 10 c) in
        change (digit_value 10 c) with v
    end;
    cbv iota beta; rewrite <- IHu; f_equal; lia.
Qed.

Lemma digits_value_uint (u : Decimal.uint) :
  digits_value 10 (NilEmpty.string_of_uint u) 0 = Some (Z.of_N (Pos.of_uint u)).
Proof.
  induction u;
    cbn [NilEmpty.string_of_uint digits_value Pos.of_uint];
    try reflexivity;
    match goal with
    | |- context [digit_value 10 ?c] =>
        let v := eval vm_compute in (digit_value 10 c) in
        change (digit_value 10 c) with v
    end;
    cbv iota beta; try exact IHu;
    apply (digits_value_uint_acc u).
Qed.

Lemma uint_digits (u : Decimal.uint) :
  string_forallb is_digit (NilEmpty.string_of_uint u) = true.
Proof. induction u; simpl; auto. Qed.

Lemma uint_text_nonempty (p : positive) :
  NilEmpty.string_of_uint (Pos.to_uint p) <> "".
Proof.
  intro H.
  assert (E : Pos.of_uint (Pos.to_uint p) = N.pos p) by apply DecimalPos.Unsigned.of_to.
  destruct (Pos.to_uint p); simpl in H; try discriminate.
Qed.

Lemma decimal_pos (p : positive) :
  decimal (Z.pos p) = NilEmpty.string_of_uint (Pos.to_uint p).
Proof.
  unfold decimal; simpl.
  pose proof (uint_text_nonempty p) as H.
  destruct (Pos.to_uint p); simpl in *; congruence.
Qed.

Lemma decimal_neg (p : positive) :
  decimal (Z.neg p) = String "-" (NilEmpty.string_of_uint (Pos.to_uint p)).
Proof.
  unfold decimal; simpl.
  pose proof (uint_text_nonempty p) as H.
  destruct (Pos.to_uint p); simpl in *; congruence.
Qed.

Lemma digits_value_pos (p : positive) :
  digits_value 10 (NilEmpty.string_of_uint (Pos.to_uint p)) 0 = Some (Z.pos p).
Proof.
  rewrite digits_value_uint, DecimalPos.Unsigned.of_to; reflexivity.
Qed.

(** ** Trimming *)

Lemma string_forallb_impl (p q : ascii -> bool) (s : string) :
  (forall c, p c = true -> q c = true) ->
  string_forallb p s = true -> string_forallb q s = true.
Proof.
  intro H; induction s as [|c r IH]; simpl; [reflexivity|].
  rewrite !andb_true_iff; intros [Hc Hr]; auto.
Qed.

Lemma trimStart_no_space (s : string) :
  string_forallb no_space s = true -> trimStart s = s.
Proof.
  destruct s as [|c r]; simpl; [reflexivity|].
  unfold no_space at 1; destruct (is_white_space c); simpl; [discriminate|reflexivity].
Qed.

Lemma trimEnd_no_space (s : string) :
  string_forallb no_space s = true -> trimEnd s = s.
Proof.
  induction s as [|c r IH]; simpl; [reflexivity|].
  rewrite andb_true_iff; intros [Hc Hr]; rewrite (IH Hr).
  unfold no_space in Hc; destruct (is_white_space c); [discriminate|].
  destruct r; reflexivity.
Qed.

Lemma trim_no_space (s : string) :
  string_forallb no_space s = true -> trim s = s.
Proof.
  intro H; unfold trim; rewrite (trimStart_no_space s H); apply trimEnd_no_space, H.
Qed.

Lemma trimEnd_length (s : string) :
  (String.length (trimEnd s) <= String.length s)%nat.
Proof.
  induction s as [|c r IH]; simpl; [lia|].
  destruct (trimEnd r); [destruct (is_white_space c)|]; simpl in *; lia.
Qed.

Lemma trimStart_length (s : string) :
  (String.length (trimStart s) <= String.length s)%nat.
Proof.
  induction s as [|c r IH]; simpl; [lia|].
  destruct (is_white_space c); simpl; lia.
Qed.

Lemma trimStart_last (s : string) :
  trimStart s <> "" -> last_char (trimStart s) = last_char s.
Proof.
  induction s as [|c r IH]; simpl; [reflexivity|].
  destruct (is_white_space c); [|reflexivity].
  intro H; rewrite (IH H).
  destruct r; [simpl in H; congruence|reflexivity].
Qed.

Lemma trimEnd_last_space (s : string) (c : ascii) :
  last_char s = Some c -> is_white_space c = true ->
  (String.length (trimEnd s) < String.length s)%nat.
Proof.
  induction s as [|a r IH]; simpl; [discriminate|].
  destruct r as [|b r'].
  - intros [= ->] Hc; simpl; rewrite Hc; simpl; lia.
  - intros Hl Hc; specialize (IH Hl Hc).
    destruct (trimEnd (String b r')); [destruct (is_white_space a)|]; simpl in *; lia.
Qed.

Lemma trim_outer_space (s : string) :
  leading_space s = true \/ trailing_space s = true -> trim s <> s.
Proof.
  intros H E.
  assert (L : (String.length (trim s) < String.length s)%nat);
    [|rewrite E in L; lia].
  unfold trim; destruct H as [H|H].
  - destruct s as [|c r]; simpl in H; [discriminate|].
    simpl; rewrite H.
    pose proof (trimEnd_length (trimStart r)); pose proof (trimStart_length r).
    simpl; lia.
  - unfold trailing_space in H.
    destruct (last_char s) as [c|] eqn:Hl; [|discriminate].
    destruct (string_dec (trimStart s) "") as [Z|NZ].
    + rewrite Z; destruct s; simpl in *; [discriminate|lia].
    + pose proof (trimStart_last s NZ) as Hl'; rewrite Hl in Hl'.
      pose proof (trimEnd_last_space _ _ Hl' H); pose proof (trimStart_length s); lia.
Qed.

(** ** [BigInt] on decimal text *)

Lemma digit_no_space (c : ascii) : is_digit c = true -> no_space c = true.
Proof.
  ascii_cases c; intro H; try reflexivity;
    vm_compute in H; discriminate.
Qed.

Lemma BigInt_digits (s : string) :
  s <> "" -> string_forallb is_digit s = true ->
  BigInt s = match digits_value 10 s 0 with
             | Some z => Done z
             | None => Raise ("Cannot convert " ++ s ++ " to a BigInt")
             end.
Proof.
  intros NE H; unfold BigInt.
  rewrite (trim_no_space s (string_forallb_impl _ _ s digit_no_space H)).
  destruct s as [|c1 s1]; [congruence|].
  simpl in H; apply andb_true_iff in H; destruct H as [H1 H].
  ascii_cases c1;
    try (vm_compute in H1; discriminate); try reflexivity.
  destruct s1 as [|c2 r]; [reflexivity|].
  simpl in H; apply andb_true_iff in H; destruct H as [H2 H].
  ascii_cases c2;
    try (vm_compute in H2; discriminate); reflexivity.
Qed.

Lemma BigInt_decimal (z : Z) : BigInt (decimal z) = Done z.
Proof.
  destruct z as [|p|p].
  - reflexivity.
  - rewrite decimal_pos, BigInt_digits, digits_value_pos;
      [reflexivity|apply uint_text_nonempty|apply uint_digits].
  - rewrite decimal_neg; unfold BigInt.
    rewrite trim_no_space.
    + cbv iota beta.
      pose proof (uint_text_nonempty p) as NE.
      pose proof (digits_value_pos p) as D.
      unfold nonempty_digits.
      destruct (NilEmpty.string_of_uint (Pos.to_uint p)); [congruence|].
      rewrite D; reflexivity.
    + simpl; apply (string_forallb_impl _ _ _ digit_no_space), uint_digits.
Qed.

Lemma decimal_no_space (z : Z) : string_forallb no_space (decimal z) = true.
Proof.
  destruct z as [|p|p].
  - reflexivity.
  - rewrite decimal_pos; apply (string_forallb_impl _ _ _ digit_no_space), uint_digits.
  - rewrite decimal_neg; simpl.
    apply (string_forallb_impl _ _ _ digit_no_space), uint_digits.
Qed.

Lemma decimal_nonempty (z : Z) : is_empty (decimal z) = false.
Proof.
  destruct z as [|p|p].
  - reflexivity.
  - rewrite decimal_pos; pose proof (uint_text_nonempty p).
    destruct (NilEmpty.string_of_uint (Pos.to_uint p)); [congruence|reflexivity].
  - rewrite decimal_neg; reflexivity.
Qed.

(** ** Integer validators *)

Lemma integer_guard_decimal (z : Z) :
  is_empty (decimal z) || negb (String.eqb (trim (decimal z)) (decimal z)) = false.
Proof.
  rewrite decimal_nonempty, (trim_no_space _ (decimal_no_space z)), String.eqb_refl.
  reflexivity.
Qed.

Lemma integer_guard_space (s : string) :
  leading_space s = true \/ trailing_space s = true ->
  is_empty s || negb (String.eqb (trim s) s) = true.
Proof.
  intro H; apply trim_outer_space in H.
  destruct (String.eqb_spec (trim s) s); [contradiction|].
  apply orb_true_r.
Qed.

Lemma validateUint_in_range (bits N : Z) :
  0 <= bits -> 0 <= N <= 2 ^ bits - 1 ->
  validateUint (decimal N) bits = Done (valid (VBigInt N)).
Proof.
  intros Hb HN; unfold validateUint, bigint_pow.
  rewrite integer_guard_decimal, BigInt_decimal; simpl.
  destruct (Z.ltb_spec N 0); [lia|].
  destruct (Z.ltb_spec bits 0); [lia|]; simpl.
  destruct (Z.gtb_spec N (2 ^ bits - 1)); [lia|reflexivity].
Qed.

Lemma validateUint_out_of_range (bits N : Z) :
  N < 0 \/ 2 ^ bits - 1 < N -> rejects (validateUint (decimal N) bits).
Proof.
  intros HN; unfold validateUint, bigint_pow, rejects.
  rewrite integer_guard_decimal, BigInt_decimal; simpl.
  destruct (Z.ltb_spec N 0); [eexists; reflexivity|].
  destruct (Z.ltb_spec bits 0); simpl; [eexists; reflexivity|].
  destruct (Z.gtb_spec N (2 ^ bits - 1)); [eexists; reflexivity|lia].
Qed.

Lemma validateInt_in_range (bits N : Z) :
  0 < bits -> - 2 ^ (bits - 1) <= N <= 2 ^ (bits - 1) - 1 ->
  validateInt (decimal N) bits = Done (valid (VBigInt N)).
Proof.
  intros Hb HN; unfold validateInt, bigint_pow.
  rewrite integer_guard_decimal, BigInt_decimal; simpl.
  destruct (Z.ltb_spec (bits - 1) 0); [lia|]; simpl.
  destruct (Z.gtb_spec N (2 ^ (bits - 1) - 1)); [lia|].
  destruct (Z.ltb_spec N (- 2 ^ (bits - 1))); [lia|reflexivity].
Qed.

Lemma validateInt_out_of_range (bits N : Z) :
  N < - 2 ^ (bits - 1) \/ 2 ^ (bits - 1) - 1 < N ->
  rejects (validateInt (decimal N) bits).
Proof.
  intros HN; unfold validateInt, bigint_pow, rejects.
  rewrite integer_guard_decimal, BigInt_decimal; simpl.
  destruct (Z.ltb_spec (bits - 1) 0); simpl; [eexists; reflexivity|].
  destruct (Z.gtb_spec N (2 ^ (bits - 1) - 1)); simpl; [eexists; reflexivity|].
  destruct (Z.ltb_spec N (- 2 ^ (bits - 1))); [eexists; reflexivity|lia].
Qed.

(** C3.  For a bit width [bits]: the decimal text of every integer of
    [0, 2^bits - 1] passes [validateUint], and 2^bits and -1 are rejected;
    the decimal text of every integer of [-2^(bits-1), 2^(bits-1) - 1]
    passes [validateInt], and one past each bound is rejected; both reject
    a literal with leading or trailing white space. *)
Theorem integer_range_checking (bits : Z) (Hbits : 0 < bits) :
  (forall N, 0 <= N <= 2 ^ bits - 1 ->
     validateUint (decimal N) bits = Done (valid (VBigInt N)))
  /\ rejects (validateUint (decimal (2 ^ bits)) bits)
  /\ rejects (validateUint (decimal (-1)) bits)
  /\ (forall N, - 2 ^ (bits - 1) <= N <= 2 ^ (bits - 1) - 1 ->
        validateInt (decimal N) bits = Done (valid (VBigInt N)))
  /\ rejects (validateInt (decimal (2 ^ (bits - 1))) bits)
  /\ rejects (validateInt (decimal (- 2 ^ (bits - 1) - 1)) bits)
  /\ (forall s, leading_space s = true \/ trailing_space s = true ->
        validateUint s bits = Done (invalid "Invalid number format (no spaces allowed)")
        /\ validateInt s bits = Done (invalid "Invalid number format (no spaces allowed)")).
Proof.
  split; [|split; [|split; [|split; [|split; [|split; [|intros s H; split]]]]]].
  - intros N HN; apply validateUint_in_range; lia.
  - apply validateUint_out_of_range; lia.
  - apply validateUint_out_of_range; lia.
  - intros N HN; apply validateInt_in_range; lia.
  - apply validateInt_out_of_range; lia.
  - apply validateInt_out_of_range; lia.
  - unfold validateUint; rewrite (integer_guard_space s H); reflexivity.
  - unfold validateInt; rewrite (integer_guard_space s H); reflexivity.
Qed.

Lemma integer_range_checking_witness :
  validateUint (decimal 255) 8 = Done (valid (VBigInt 255))
  /\ rejects (validateUint (decimal 256) 8)
  /\ validateInt (decimal (-128)) 8 = Done (valid (VBigInt (-128)))
  /\ rejects (validateInt (decimal 128) 8)
  /\ validateUint " 123" 8 = Done (invalid "Invalid number format (no spaces allowed)").
Proof.
  destruct (integer_range_checking 8 ltac:(lia)) as (U & Umax & _ & I & Imax & _ & W).
  refine (conj (U 255 _) (conj Umax (conj (I (-128) _) (conj Imax _)))).
  - vm_compute; split; discriminate.
  - vm_compute; split; discriminate.
  - apply (W " 123"); left; reflexivity.
Defined.

(** ** Addresses *)

Lemma lower_char_hex (c : ascii) : is_hex c = true -> is_lower_hex (lower_char c) = true.
Proof.
  ascii_cases c; intro H; try reflexivity;
    vm_compute in H; discriminate.
Qed.

Lemma lower_char_idempotent (c : ascii) : lower_char (lower_char c) = lower_char c.
Proof. ascii_cases c; reflexivity. Qed.

Lemma toLowerCase_idempotent (s : string) : toLowerCase (toLowerCase s) = toLowerCase s.
Proof.
  induction s as [|c r IH]; simpl; [reflexivity|].
  rewrite lower_char_idempotent, IH; reflexivity.
Qed.

Lemma toLowerCase_length (s : string) : String.length (toLowerCase s) = String.length s.
Proof. induction s as [|c r IH]; simpl; congruence. Qed.

Lemma toLowerCase_hex (s : string) :
  string_forallb is_hex s = true -> string_forallb is_lower_hex (toLowerCase s) = true.
Proof.
  induction s as [|c r IH]; simpl; [reflexivity|].
  rewrite !andb_true_iff; intros [Hc Hr]; split; [apply lower_char_hex, Hc|apply IH, Hr].
Qed.

(** C7.  Every text made of 0x and 40 hex digits, in any letter case, is a
    valid address whose normalized value is its lowercase form; validating
    that lowercase form again succeeds with the same normalized value. *)
Theorem validateAddress_idempotent (h : string)
    (Hlen : String.length h = 40%nat) (Hhex : string_forallb is_hex h = true) :
  let address := "0x" ++ h in
  validateAddress address = valid (VStr (toLowerCase address))
  /\ validateAddress (toLowerCase address) = valid (VStr (toLowerCase address)).
Proof.
  assert (V : validateAddress ("0x" ++ h) = valid (VStr (toLowerCase ("0x" ++ h)))).
  { unfold validateAddress; simpl.
    rewrite toLowerCase_length, Hlen, (toLowerCase_hex h Hhex); reflexivity. }
  split; [exact V|].
  unfold validateAddress in *; rewrite toLowerCase_idempotent.
  simpl in *.
  rewrite toLowerCase_length, Hlen, (toLowerCase_hex h Hhex); reflexivity.
Qed.

Lemma validateAddress_idempotent_witness :
  validateAddress "0xAbCdEf1234567890123456789012345678901234"
  = valid (VStr "0xabcdef1234567890123456789012345678901234")
  /\ validateAddress "0xabcdef1234567890123456789012345678901234"
     = valid (VStr "0xabcdef1234567890123456789012345678901234").
Proof.
  exact (validateAddress_idempotent "AbCdEf1234567890123456789012345678901234"
           eq_refl eq_refl).
Defined.

(** ** Bytes *)

Lemma validateBytes_length_mismatch (value : string) (N : Z) :
  Z.of_nat (String.length value) - 2 <> 2 * N ->
  isValid (validateBytes value (Some (Num N))) = false.
Proof.
  intro H; unfold validateBytes.
  destruct (is_empty value); [reflexivity|].
  destruct (startsWith value "0x"); [|reflexivity].
  destruct (HEX_STRING_REGEX value); [|reflexivity].
  cbn [negb]; unfold byteLength_differs.
  destruct (Z.eqb_spec (Z.of_nat (String.length value) - 2) (2 * N)); [contradiction|].
  reflexivity.
Qed.

Lemma validateBytes_above_32 (value : string) (N : Z) :
  32 < N -> isValid (validateBytes value (Some (Num N))) = false.
Proof.
  intro H; unfold validateBytes.
  destruct (is_empty value); [reflexivity|].
  destruct (startsWith value "0x"); [|reflexivity].
  destruct (HEX_STRING_REGEX value); [|reflexivity].
  cbn [negb]; unfold byteLength_differs.
  destruct (Z.eqb_spec (Z.of_nat (String.length value) - 2) (2 * N)); [|reflexivity].
  cbn [negb]; unfold byteLength_exceeds_32.
  destruct (Z.gtb_spec (Z.of_nat (String.length value) - 2) 64); [reflexivity|lia].
Qed.

Lemma HEX_STRING_REGEX_prefix (value : string) :
  HEX_STRING_REGEX value = true -> is_empty value = false /\ startsWith value "0x" = true.
Proof.
  destruct value as [|c1 [|c2 r]]; simpl; try discriminate.
  - ascii_cases c1; discriminate.
  - ascii_cases c1; try discriminate;
      ascii_cases c2; try discriminate.
    intros _; split; reflexivity.
Qed.

Lemma validateBytes_ceiling (value : string) (N : Z) :
  32 < N -> HEX_STRING_REGEX value = true ->
  Z.of_nat (String.length value) - 2 = 2 * N ->
  validateBytes value (Some (Num N)) = invalid "Fixed bytes cannot exceed 32".
Proof.
  intros H Hx Hl; unfold validateBytes.
  destruct (HEX_STRING_REGEX_prefix value Hx) as [-> ->]; rewrite Hx.
  cbn [negb]; unfold byteLength_differs.
  destruct (Z.eqb_spec (Z.of_nat (String.length value) - 2) (2 * N)); [|contradiction].
  cbn [negb]; unfold byteLength_exceeds_32.
  destruct (Z.gtb_spec (Z.of_nat (String.length value) - 2) 64); [reflexivity|lia].
Qed.

Lemma validateBytes_length_error (value : string) (N : Z) :
  HEX_STRING_REGEX value = true ->
  Z.of_nat (String.length value) - 2 <> 2 * N ->
  validateBytes value (Some (Num N))
  = invalid ("Must be exactly " ++ number_to_string (Num N) ++ " bytes").
Proof.
  intros Hx Hl; unfold validateBytes.
  destruct (HEX_STRING_REGEX_prefix value Hx) as [-> ->]; rewrite Hx.
  cbn [negb]; unfold byteLength_differs.
  destruct (Z.eqb_spec (Z.of_nat (String.length value) - 2) (2 * N)); [contradiction|].
  reflexivity.
Qed.

(** C6, as the code has it.  [validateBytes] rejects a value whose byte
    length differs from the fixed length N (so 0x1234 against 1 is invalid
    and 0x12 against 1 is valid), and rejects every request with N > 32;
    the error of such a request is "Fixed bytes cannot exceed 32" when the
    value is a hex string of exactly N bytes, and otherwise the error of
    the earlier check that fails: "Bytes value is required" for the empty
    text, "Must start with 0x" without that prefix, "Invalid hex string"
    for another character after it, and "Must be exactly N bytes" for a
    hex string of another length. *)
Theorem validateBytes_fixed_length (value : string) (N : Z) :
  (Z.of_nat (String.length value) - 2 <> 2 * N ->
     isValid (validateBytes value (Some (Num N))) = false)
  /\ isValid (validateBytes "0x1234" (Some (Num 1))) = false
  /\ validateBytes "0x12" (Some (Num 1)) = valid (VStr "0x12")
  /\ (32 < N -> isValid (validateBytes value (Some (Num N))) = false)
  /\ (32 < N -> HEX_STRING_REGEX value = true ->
      Z.of_nat (String.length value) - 2 = 2 * N ->
      validateBytes value (Some (Num N)) = invalid "Fixed bytes cannot exceed 32")
  /\ (HEX_STRING_REGEX value = true ->
      Z.of_nat (String.length value) - 2 <> 2 * N ->
      validateBytes value (Some (Num N))
      = invalid ("Must be exactly " ++ number_to_string (Num N) ++ " bytes"))
  /\ (0 <= N < 9007199254740992 -> number_to_string (Num N) = decimal N)
  /\ (value = "" ->
      validateBytes value (Some (Num N)) = invalid "Bytes value is required")
  /\ (value <> "" -> startsWith value "0x" = false ->
      validateBytes value (Some (Num N)) = invalid "Must start with 0x")
  /\ (startsWith value "0x" = true -> HEX_STRING_REGEX value = false ->
      validateBytes value (Some (Num N)) = invalid "Invalid hex string").
Proof.
  split; [apply validateBytes_length_mismatch|].
  split; [reflexivity|].
  split; [reflexivity|].
  split; [apply validateBytes_above_32|].
  split; [apply validateBytes_ceiling|].
  split; [apply validateBytes_length_error|].
  split.
  { intros [H0 H1]; unfold number_to_string, natural_to_string.
    destruct (Z.ltb_spec N 0); [lia|].
    destruct (Z.ltb_spec N 9007199254740992); [reflexivity|lia]. }
  split; [intros ->; reflexivity|].
  split.
  - intros NE S; unfold validateBytes, is_empty.
    destruct (String.eqb_spec value ""); [contradiction|].
    rewrite S; reflexivity.
  - intros S H; unfold validateBytes, is_empty.
    destruct (String.eqb_spec value "") as [->|_]; [discriminate S|].
    rewrite S, H; reflexivity.
Qed.

Lemma validateBytes_fixed_length_witness :
  isValid (validateBytes "0x12" (Some (Num 33))) = false
  /\ validateBytes bytes33 (Some (Num 33)) = invalid "Fixed bytes cannot exceed 32".
Proof.
  destruct (validateBytes_fixed_length "0x12" 33) as (M & _ & _ & _ & _).
  destruct (validateBytes_fixed_length bytes33 33) as (_ & _ & _ & _ & C & _).
  split.
  - apply M; vm_compute; discriminate.
  - apply C; [lia|reflexivity|reflexivity].
Defined.

(** The claim C6 as written fails: a request with N = 33 whose value has
    another length is rejected with the length error, not with the
    ceiling error. *)
Lemma validateBytes_ceiling_counterexample :
  32 < 33
  /\ validateBytes "0x12" (Some (Num 33)) = invalid "Must be exactly 33 bytes"
  /\ validateBytes "0x12" (Some (Num 33)) <> invalid "Fixed bytes cannot exceed 32".
Proof.
  split; [lia|]; split; [reflexivity|discriminate].
Qed.

(** ** The type parser and the fuel measure *)

Lemma bracket_count_app (a b : string) :
  bracket_count (a ++ b) = (bracket_count a + bracket_count b)%nat.
Proof. induction a as [|c r IH]; simpl; [reflexivity|rewrite IH; lia]. Qed.

Lemma split_at_bracket_spec (s a b : string) :
  split_at_bracket s = Some (a, b) -> s = a ++ b /\ exists r, b = String "[" r.
Proof.
  revert a b; induction s as [|c r IH]; simpl; intros a b H; [discriminate|].
  destruct (Ascii.eqb_spec c "["%char) as [->|_].
  - injection H as <- <-; split; [reflexivity|eexists; reflexivity].
  - destruct (split_at_bracket r) as [[a' b']|]; [|discriminate].
    injection H as <- <-.
    destruct (IH a' b' eq_refl) as [-> Hb]; split; [reflexivity|exact Hb].
Qed.

Lemma match_array_type_spec (type g1 g2 : string) :
  match_array_type type = Some (g1, g2) ->
  type = g1 ++ g2 /\ exists r, g2 = String "[" r.
Proof.
  unfold match_array_type; destruct type as [|c r]; [discriminate|].
  destruct (negb _); [discriminate|].
  destruct (split_at_bracket r) as [[a b]|] eqn:E; [|discriminate].
  destruct (split_at_bracket_spec r a b E) as [-> Hb].
  destruct b as [|b1 [|b2 b']]; try discriminate.
  destruct (last_char _) as [l|]; [|discriminate].
  destruct (Ascii.eqb_spec l "]"%char) as [->|N].
  - intros [= <- <-]; split; [reflexivity|exact Hb].
  - intro H; exfalso.
    ascii_cases l; try discriminate H; apply N; reflexivity.
Qed.

Lemma dimension_matches_count (s : string) :
  (List.length (dimension_matches s) <= bracket_count s)%nat.
Proof.
  induction s as [|c r IH]; simpl; [lia|].
  destruct (Ascii.eqb c "["%char); [|simpl; lia].
  destruct (span is_digit r) as [digits [|x rest]]; [simpl; lia|].
  destruct (Ascii.eqb x "]"%char) eqn:E.
  - apply Ascii.eqb_eq in E; subst x; simpl; lia.
  - assert (F : match x with "]"%char => digits :: dimension_matches r
                | _ => dimension_matches r end = dimension_matches r).
    { ascii_cases x; try reflexivity; discriminate E. }
    rewrite F; lia.
Qed.

Lemma no_bracket_count (p : ascii -> bool) (s : string) :
  (forall c, p c = true -> Ascii.eqb c "["%char = false) ->
  string_forallb p s = true -> bracket_count s = O.
Proof.
  intro H; induction s as [|c r IH]; simpl; [reflexivity|].
  rewrite andb_true_iff; intros [Hc Hr]; rewrite (H c Hc), (IH Hr); reflexivity.
Qed.

Lemma digit_no_bracket (c : ascii) : is_digit c = true -> Ascii.eqb c "["%char = false.
Proof.
  ascii_cases c; intro H; try reflexivity;
    vm_compute in H; discriminate.
Qed.

Lemma decimal_no_bracket (z : Z) : bracket_count (decimal z) = O.
Proof.
  destruct z as [|p|p].
  - reflexivity.
  - rewrite decimal_pos; apply (no_bracket_count _ _ digit_no_bracket), uint_digits.
  - rewrite decimal_neg; simpl.
    apply (no_bracket_count _ _ digit_no_bracket), uint_digits.
Qed.

Lemma zeros_no_bracket (n : nat) : bracket_count (zeros n) = O.
Proof. induction n as [|n IH]; [reflexivity|exact IH]. Qed.

Lemma bracket_count_cons (c : ascii) (r : string) :
  bracket_count (String c r) = O -> Ascii.eqb c "["%char = false /\ bracket_count r = O.
Proof.
  cbn [bracket_count]; destruct (Ascii.eqb c "["%char); [discriminate|auto].
Qed.

Lemma natural_to_string_no_bracket (m : Z) : bracket_count (natural_to_string m) = O.
Proof.
  unfold natural_to_string.
  destruct (m <? 9007199254740992); [apply decimal_no_bracket|].
  destruct (shortest_digits _ m _ 1) as [[s k] n].
  destruct (n <=? 21).
  - rewrite bracket_count_app, decimal_no_bracket, zeros_no_bracket; reflexivity.
  - pose proof (decimal_no_bracket s) as B.
    pose proof (decimal_no_bracket (n - 1)) as E.
    destruct (decimal s) as [|c r]; [reflexivity|].
    destruct (bracket_count_cons c r B) as [C R].
    assert (T : forall t, bracket_count t = O -> bracket_count (String c t) = O).
    { intros t Ht; cbn [bracket_count]; rewrite C, Ht; reflexivity. }
    destruct r as [|c' r']; apply T.
    + exact E.
    + change (bracket_count ("." ++ String c' r' ++ "e+" ++ decimal (n - 1)) = O).
      rewrite !bracket_count_app, R, E; reflexivity.
Qed.

Lemma number_to_string_no_bracket (n : number) : bracket_count (number_to_string n) = O.
Proof.
  destruct n as [|z|[]]; try reflexivity.
  unfold number_to_string; destruct (z <? 0); [|apply natural_to_string_no_bracket].
  cbn [append bracket_count]; apply natural_to_string_no_bracket.
Qed.

Lemma render_dimension_count (d : option number) :
  bracket_count (render_dimension d) = 1%nat.
Proof.
  unfold render_dimension; destruct d as [n|]; [|reflexivity].
  cbn [append bracket_count]; rewrite bracket_count_app, number_to_string_no_bracket.
  reflexivity.
Qed.

Lemma join_render_count (l : list (option number)) :
  bracket_count (join "" (map render_dimension l)) = List.length l.
Proof.
  induction l as [|d r IH]; [reflexivity|].
  change (map render_dimension (d :: r)) with (render_dimension d :: map render_dimension r).
  destruct r as [|d' r'].
  - simpl join; apply render_dimension_count.
  - change (join "" (render_dimension d :: map render_dimension (d' :: r')))
      with (render_dimension d ++ "" ++ join "" (map render_dimension (d' :: r'))).
    rewrite !bracket_count_app, render_dimension_count, IH; reflexivity.
Qed.

(** The element type of an array type holds fewer opening brackets than
    the array type: the recursion on synthesized type strings ends. *)
Lemma innerType_smaller (type : string) :
  isArray (parseType type) = true ->
  (bracket_count (innerTypeOf (parseType type)) < bracket_count type)%nat.
Proof.
  unfold parseType.
  destruct (match_array_type type) as [[g1 g2]|] eqn:E;
    [|destruct (_ || _); discriminate].
  intros _.
  destruct (match_array_type_spec type g1 g2 E) as [-> [r ->]].
  unfold innerTypeOf; cbn [arrayDimensions baseType].
  rewrite length_map, bracket_count_app.
  pose proof (dimension_matches_count (String "[" r)) as L.
  assert (B : (1 <= bracket_count (String "[" r))%nat) by (simpl; lia).
  destruct (Nat.ltb_spec 1 (List.length (dimension_matches (String "[" r)))) as [G|G].
  - rewrite bracket_count_app, join_render_count, length_tl, length_map. lia.
  - lia.
Qed.

Lemma param_size_eq (p : AbiParameter) :
  param_size p
  = (1 + bracket_count (p_type p) + components_size (p_components p))%nat.
Proof.
  destruct p as [n t [l|]]; simpl; [|reflexivity].
  apply (f_equal S), (f_equal (Nat.add _)).
  induction l as [|c r IH]; [reflexivity|].
  cbn [fold_right]; rewrite <- IH; reflexivity.
Qed.

Lemma components_size_in (c : AbiParameter) (cs : list AbiParameter) :
  In c cs -> (param_size c <= components_size (Some cs))%nat.
Proof.
  induction cs as [|x r IH]; simpl; [contradiction|].
  intros [->|H]; [lia|]. specialize (IH H); simpl in IH; lia.
Qed.

Lemma component_smaller (c : AbiParameter) (cs : list AbiParameter) (type : string) :
  In c cs ->
  (bracket_count (p_type c) + components_size (p_components c)
   < bracket_count type + components_size (Some cs))%nat.
Proof.
  intro H; pose proof (components_size_in c cs H); pose proof (param_size_eq c); lia.
Qed.

(** ** The recursion of the dispatcher *)

Section Dispatcher.

Variable JSON_parse : string -> option jsval.

Lemma validateArray_loop_ext (rec1 rec2 : callee) (elementType : string)
    (components : option (list AbiParameter)) :
  (forall v, rec1 v elementType components = rec2 v elementType components) ->
  forall items i acc,
    validateArray_loop rec1 elementType components items i acc
    = validateArray_loop rec2 elementType components items i acc.
Proof.
  intros H items; induction items as [|x r IH]; intros i acc; simpl; [reflexivity|].
  destruct (text_of x) as [t| |]; simpl; try reflexivity.
  rewrite H; destruct (rec2 t elementType components) as [[v|e]| |]; simpl;
    try reflexivity.
  apply IH.
Qed.

Lemma validateTuple_loop_ext (rec1 rec2 : callee) (parsed : list (string * jsval))
    (components : list AbiParameter) :
  (forall c, In c components ->
     forall v, rec1 v (p_type c) (p_components c) = rec2 v (p_type c) (p_components c)) ->
  forall acc,
    validateTuple_loop rec1 parsed components acc
    = validateTuple_loop rec2 parsed components acc.
Proof.
  induction components as [|c r IH]; intros H acc; simpl; [reflexivity|].
  assert (Hr : forall acc', validateTuple_loop rec1 parsed r acc'
                            = validateTuple_loop rec2 parsed r acc').
  { apply IH; intros c' Hc'; apply H; right; exact Hc'. }
  assert (Hc : forall v, rec1 v (p_type c) (p_components c)
                         = rec2 v (p_type c) (p_components c)).
  { apply H; left; reflexivity. }
  destruct (get_prop parsed (p_name c)) eqn:G; try reflexivity;
    (destruct (text_of _) as [t| |]; simpl; try reflexivity;
     rewrite Hc; destruct (rec2 t (p_type c) (p_components c)) as [[v|e]| |]; simpl;
     try reflexivity; apply Hr).
Qed.

(** The body of the dispatcher calls its callee on smaller arguments only. *)
Lemma validateParameterType_body_ext (rec1 rec2 : callee) (value : option string)
    (type : string) (components : option (list AbiParameter)) :
  (forall v t c, (measure t c < measure type components)%nat -> rec1 v t c = rec2 v t c) ->
  validateParameterType_body JSON_parse rec1 value type components
  = validateParameterType_body JSON_parse rec2 value type components.
Proof.
  intro H; unfold validateParameterType_body.
  destruct value as [value|]; [|reflexivity].
  destruct (isArray (parseType type)) eqn:A.
  - unfold validateArray_with; cbn iota.
    destruct (parse_or_raise JSON_parse value) as [[]| |]; cbn [bind catch];
      try reflexivity.
    assert (E : forall i acc,
      validateArray_loop rec1 (innerTypeOf (parseType type)) components items i acc
      = validateArray_loop rec2 (innerTypeOf (parseType type)) components items i acc).
    { apply validateArray_loop_ext; intro v; apply H.
      pose proof (innerType_smaller type A); unfold measure; lia. }
    destruct (expectedLengthOf (parseType type)) as [n|]; [|rewrite E; reflexivity].
    destruct (length_differs items n); [reflexivity|rewrite E; reflexivity].
  - destruct (isTuple (parseType type)); [|reflexivity].
    destruct components as [[|c cs]|]; try reflexivity.
    unfold validateTuple_with; cbn iota.
    destruct (parse_or_raise JSON_parse value) as [[]| |]; cbn [bind catch];
      try reflexivity.
    f_equal; apply validateTuple_loop_ext; intros c' Hc' v; apply H.
    apply component_smaller, Hc'.
Qed.

Lemma validateParameterType_fuel_stable (n m : nat) :
  forall value type components,
    (measure type components < n)%nat -> (measure type components < m)%nat ->
    validateParameterType_fuel JSON_parse n value type components
    = validateParameterType_fuel JSON_parse m value type components.
Proof.
  revert m; induction n as [|n IH]; intros m value type components Hn Hm; [lia|].
  destruct m as [|m]; [lia|]; simpl.
  apply validateParameterType_body_ext; intros v t c Hs.
  apply IH; lia.
Qed.

(** The dispatcher satisfies the recursive equation of the source. *)
Lemma validateParameterType_unfold (value : option string) (type : string)
    (components : option (list AbiParameter)) :
  validateParameterType JSON_parse value type components
  = validateParameterType_body JSON_parse (validateParameterType JSON_parse)
      value type components.
Proof.
  unfold validateParameterType at 1; unfold fuel_for; simpl.
  apply validateParameterType_body_ext; intros v t c Hs.
  unfold validateParameterType, fuel_for.
  apply validateParameterType_fuel_stable; unfold measure in *; lia.
Qed.

End Dispatcher.

(** ** The recursion of the normalizer *)

Section Normalizer.

Variable JSON_parse : string -> option jsval.

Lemma normalize_items_ext (rec1 rec2 : normalizer) (innerType : string)
    (components : option (list AbiParameter)) :
  (forall v, rec1 v innerType components = rec2 v innerType components) ->
  forall items,
    normalize_items rec1 innerType components items
    = normalize_items rec2 innerType components items.
Proof.
  intros H items; induction items as [|x r IH]; simpl; [reflexivity|].
  destruct (text_of x) as [t| |]; simpl; try reflexivity.
  rewrite H, IH; reflexivity.
Qed.

Lemma normalize_fields_ext (rec1 rec2 : normalizer) (tupleValue : jsval)
    (components : list AbiParameter) :
  (forall c, In c components ->
     forall v, rec1 v (p_type c) (p_components c) = rec2 v (p_type c) (p_components c)) ->
  normalize_fields rec1 tupleValue components = normalize_fields rec2 tupleValue components.
Proof.
  induction components as [|c r IH]; intro H; cbn [normalize_fields]; [reflexivity|].
  rewrite IH by (intros c' Hc'; apply H; right; exact Hc').
  assert (Hc : forall v, rec1 v (p_type c) (p_components c)
                         = rec2 v (p_type c) (p_components c))
    by (apply H; left; reflexivity).
  destruct (read_field tupleValue (p_name c)) as [[[]|json]| |]; cbn [bind field_text];
    try reflexivity; try (rewrite Hc; reflexivity);
    (match goal with
     | |- bind ?m _ = _ => destruct m as [t| |]
     end; cbn [bind]; [rewrite Hc|..]; reflexivity).
Qed.

Lemma normalizeParameterValue_body_ext (rec1 rec2 : normalizer) (value : jsval)
    (type : string) (components : option (list AbiParameter)) :
  (forall v t c, (measure t c < measure type components)%nat -> rec1 v t c = rec2 v t c) ->
  normalizeParameterValue_body JSON_parse rec1 value type components
  = normalizeParameterValue_body JSON_parse rec2 value type components.
Proof.
  intro H; unfold normalizeParameterValue_body.
  destruct (isArray (parseType type)) eqn:A.
  - unfold normalize_array.
    match goal with |- bind ?m _ = _ => destruct m as [[]| |] end; cbn [bind];
      try reflexivity.
    rewrite (normalize_items_ext rec1 rec2); [reflexivity|].
    intro v; apply H.
    pose proof (innerType_smaller type A); unfold measure; lia.
  - destruct (isTuple (parseType type)); [|reflexivity].
    destruct components as [cs|]; [|reflexivity].
    unfold normalize_tuple.
    match goal with |- bind ?m _ = _ => destruct m as [tupleValue| |] end; cbn [bind];
      try reflexivity.
    rewrite (normalize_fields_ext rec1 rec2); [reflexivity|].
    intros c Hc v; apply H, component_smaller, Hc.
Qed.

Lemma normalizeParameterValue_fuel_stable (n m : nat) :
  forall value type components,
    (measure type components < n)%nat -> (measure type components < m)%nat ->
    normalizeParameterValue_fuel JSON_parse n value type components
    = normalizeParameterValue_fuel JSON_parse m value type components.
Proof.
  revert m; induction n as [|n IH]; intros m value type components Hn Hm; [lia|].
  destruct m as [|m]; [lia|]; simpl.
  apply normalizeParameterValue_body_ext; intros v t c Hs.
  apply IH; lia.
Qed.

(** The normalizer satisfies the recursive equation of the source. *)
Lemma normalizeParameterValue_unfold (value : jsval) (type : string)
    (components : option (list AbiParameter)) :
  normalizeParameterValue JSON_parse value type components
  = normalizeParameterValue_body JSON_parse (normalizeParameterValue JSON_parse)
      value type components.
Proof.
  unfold normalizeParameterValue at 1; unfold fuel_for; simpl.
  apply normalizeParameterValue_body_ext; intros v t c Hs.
  unfold normalizeParameterValue, fuel_for.
  apply normalizeParameterValue_fuel_stable; unfold measure in *; lia.
Qed.

End Normalizer.

(** ** Totality of validation *)

Lemma jsval_nested_ind (P : jsval -> Prop) :
  P VUndefined -> P VNull -> (forall b, P (VBool b)) -> (forall t, P (VNum t)) ->
  (forall z, P (VBigInt z)) -> (forall s, P (VStr s)) ->
  (forall items, Forall P items -> P (VArr items)) ->
  (forall props, Forall (fun kv => P (snd kv)) props -> P (VObj props)) ->
  (forall n, P (VNative n)) ->
  forall v, P v.
Proof.
  intros Hu Hn Hb Hnum Hbig Hs Harr Hobj Hnat.
  fix IH 1; intros [ | | b | t | z | s | items | props | n ];
    [exact Hu|exact Hn|apply Hb|apply Hnum|apply Hbig|apply Hs| | |apply Hnat].
  - apply Harr; induction items as [|x r IHr]; constructor; [apply IH|exact IHr].
  - apply Hobj; induction props as [|[k x] r IHr]; constructor; [apply IH|exact IHr].
Qed.

Lemma JSON_stringify_settled (v : jsval) : JSON_stringify v <> Stuck.
Proof.
  induction v as [ | | [] | t | z | s | items IH | props IH | n ] using jsval_nested_ind;
    simpl; try discriminate.
  - match goal with |- bind ?m _ <> _ => assert (E : m <> Stuck) end.
    { induction IH as [|x r Hx _ IHr]; [discriminate|].
      destruct (JSON_stringify x) as [sx| |]; simpl; [|discriminate|congruence].
      match goal with |- bind ?m _ <> _ => destruct m end; simpl; congruence. }
    match goal with |- bind ?m _ <> _ => destruct m end; simpl; congruence.
  - match goal with |- bind ?m _ <> _ => assert (E : m <> Stuck) end.
    { induction IH as [|[k x] r Hx _ IHr]; [discriminate|]; simpl in Hx.
      destruct (JSON_stringify x) as [sx| |]; simpl; [|discriminate|congruence].
      match goal with |- bind ?m _ <> _ => destruct m end; simpl; congruence. }
    match goal with |- bind ?m _ <> _ => destruct m end; simpl; congruence.
Qed.

Lemma text_of_settled (x : jsval) : text_of x <> Stuck.
Proof.
  unfold text_of; destruct (is_object x) eqn:O; [apply JSON_stringify_settled|].
  destruct x as [ | | [] | | | | | | ]; simpl; try discriminate; discriminate O.
Qed.

Lemma catch_done {A} (m : comp A) (h : A) : m <> Stuck -> exists a, catch m h = Done a.
Proof. destruct m; simpl; intro H; [eauto|eauto|congruence]. Qed.

Lemma BigInt_settled (text : string) : BigInt text <> Stuck.
Proof.
  unfold BigInt.
  assert (H : forall o : option Z,
             match o with
             | Some z => Done z
             | None => Raise ("Cannot convert " ++ text ++ " to a BigInt")
             end <> Stuck) by (intros []; discriminate).
  destruct (trim text) as [|c1 s1]; [discriminate|].
  ascii_cases c1; try apply H.
  destruct s1 as [|c2 s2]; [apply H|].
  ascii_cases c2; apply H.
Qed.

Lemma validateUint_total (value : string) (bits : Z) :
  exists r, validateUint value bits = Done r.
Proof.
  unfold validateUint; destruct (_ || _); [eauto|].
  apply catch_done; unfold bigint_pow.
  pose proof (BigInt_settled value) as B.
  destruct (BigInt value) as [num| |]; simpl; try discriminate; try congruence.
  destruct (num <? 0); [discriminate|].
  destruct (bits <? 0); simpl; [discriminate|].
  destruct (num >? 2 ^ bits - 1); discriminate.
Qed.

Lemma validateInt_total (value : string) (bits : Z) :
  exists r, validateInt value bits = Done r.
Proof.
  unfold validateInt; destruct (_ || _); [eauto|].
  apply catch_done; unfold bigint_pow.
  pose proof (BigInt_settled value) as B.
  destruct (BigInt value) as [num| |]; simpl; try discriminate; try congruence.
  destruct (bits - 1 <? 0); simpl; [discriminate|].
  destruct (_ || _); discriminate.
Qed.

Section Totality.

Variable JSON_parse : string -> option jsval.

Lemma validateArray_loop_settled (rec : callee) (elementType : string)
    (components : option (list AbiParameter)) :
  (forall v, rec v elementType components <> Stuck) ->
  forall items i acc,
    validateArray_loop rec elementType components items i acc <> Stuck.
Proof.
  intros H items; induction items as [|x r IH]; intros i acc; simpl; [discriminate|].
  pose proof (text_of_settled x) as T.
  destruct (text_of x) as [t| |]; simpl; [|discriminate|congruence].
  pose proof (H t) as R.
  destruct (rec t elementType components) as [[v|e]| |]; simpl;
    [apply IH|discriminate|discriminate|congruence].
Qed.

Lemma validateTuple_loop_settled (rec : callee) (parsed : list (string * jsval))
    (components : list AbiParameter) :
  (forall c, In c components ->
     forall v, rec v (p_type c) (p_components c) <> Stuck) ->
  forall acc, validateTuple_loop rec parsed components acc <> Stuck.
Proof.
  induction components as [|c r IH]; intros H acc; simpl; [discriminate|].
  assert (Hr : forall acc', validateTuple_loop rec parsed r acc' <> Stuck).
  { apply IH; intros c' Hc'; apply H; right; exact Hc'. }
  assert (Hc : forall v, rec v (p_type c) (p_components c) <> Stuck).
  { apply H; left; reflexivity. }
  destruct (get_prop parsed (p_name c)) eqn:G; try discriminate;
    (match goal with |- bind (text_of ?x) _ <> _ => pose proof (text_of_settled x) as T;
       destruct (text_of x) as [t| |] end; simpl; [|discriminate|congruence];
     pose proof (Hc t) as R;
     destruct (rec t (p_type c) (p_components c)) as [[v|e]| |]; simpl;
     [apply Hr|discriminate|discriminate|congruence]).
Qed.

Lemma validateArray_with_total (rec : callee) (value : jsval) (elementType : string)
    (components : option (list AbiParameter)) (expectedLength : option number) :
  (forall v, rec v elementType components <> Stuck) ->
  exists r, validateArray_with JSON_parse rec value elementType components expectedLength
            = Done r.
Proof.
  intro H; unfold validateArray_with, parse_or_raise; apply catch_done.
  assert (C : forall items,
    match expectedLength with
    | Some n =>
        if length_differs items n
        then Done (invalid ("Array must have exactly " ++ number_to_string n ++ " elements"))
        else validateArray_loop rec elementType components items 0 []
    | None => validateArray_loop rec elementType components items 0 []
    end <> Stuck).
  { intro items.
    pose proof (validateArray_loop_settled rec elementType components H items 0 []).
    destruct expectedLength as [n|]; [destruct (length_differs items n)|];
      try discriminate; assumption. }
  destruct value as [ | | | | | text | items | | ]; try discriminate; [|apply C].
  destruct (JSON_parse text) as [[]|]; cbn [bind]; try discriminate; apply C.
Qed.

Lemma validateTuple_with_total (rec : callee) (value : jsval)
    (components : list AbiParameter) :
  (forall c, In c components ->
     forall v, rec v (p_type c) (p_components c) <> Stuck) ->
  exists r, validateTuple_with JSON_parse rec value components = Done r.
Proof.
  intro H; unfold validateTuple_with, parse_or_raise; apply catch_done.
  pose proof (validateTuple_loop_settled rec) as L.
  destruct value as [ | | | | | text | items | props | ]; try discriminate;
    [|apply L, H].
  destruct (JSON_parse text) as [[]|]; cbn [bind]; try discriminate; apply L, H.
Qed.

Lemma validateParameterType_body_total (rec : callee) (value : option string)
    (type : string) (components : option (list AbiParameter)) :
  (forall v t c, (measure t c < measure type components)%nat -> rec v t c <> Stuck) ->
  exists r, validateParameterType_body JSON_parse rec value type components = Done r.
Proof.
  intro H; unfold validateParameterType_body.
  destruct value as [value|]; [|eauto].
  destruct (isArray (parseType type)) eqn:A.
  - apply validateArray_with_total; intro v; apply H.
    pose proof (innerType_smaller type A); unfold measure; lia.
  - destruct (isTuple (parseType type)).
    + destruct components as [[|c cs]|]; eauto.
      apply validateTuple_with_total; intros c' Hc' v; apply H.
      apply component_smaller, Hc'.
    + repeat match goal with
             | |- exists r, (if ?b then _ else _) = Done r => destruct b
             end; eauto using validateUint_total, validateInt_total.
Qed.

Lemma validateParameterType_total_below (n : nat) :
  forall value type components,
    (measure type components < n)%nat ->
    exists r, validateParameterType JSON_parse value type components = Done r.
Proof.
  induction n as [|n IH]; intros value type components Hn; [lia|].
  rewrite validateParameterType_unfold.
  apply validateParameterType_body_total; intros v t c Hs.
  destruct (IH v t c ltac:(lia)) as [r ->]; discriminate.
Qed.

Lemma validateParameterType_total (value : option string) (type : string)
    (components : option (list AbiParameter)) :
  exists r, validateParameterType JSON_parse value type components = Done r.
Proof. apply (validateParameterType_total_below (S (measure type components))); lia. Qed.

(** C9.  For every value, type and components, [validateParameterType],
    [validateArray] and [validateTuple] return an outcome and never raise;
    a text that [JSON.parse] rejects gives the invalid outcomes "Invalid
    JSON array format" and "Invalid JSON object format". *)
Theorem validation_total :
  (forall value type components,
     exists r, validateParameterType JSON_parse value type components = Done r)
  /\ (forall value elementType components expectedLength,
        exists r, validateArray JSON_parse value elementType components expectedLength
                  = Done r)
  /\ (forall value components,
        exists r, validateTuple JSON_parse value components = Done r)
  /\ (forall text elementType components expectedLength,
        JSON_parse text = None ->
        validateArray JSON_parse (VStr text) elementType components expectedLength
        = Done (invalid "Invalid JSON array format"))
  /\ (forall text components,
        JSON_parse text = None ->
        validateTuple JSON_parse (VStr text) components
        = Done (invalid "Invalid JSON object format")).
Proof.
  assert (S : forall v t c, validateParameterType JSON_parse v t c <> Stuck).
  { intros v t c; destruct (validateParameterType_total v t c) as [r ->]; discriminate. }
  split; [exact validateParameterType_total|].
  split; [intros; apply validateArray_with_total; intro; apply S|].
  split; [intros; apply validateTuple_with_total; intros; apply S|].
  split.
  - intros text elementType components expectedLength H.
    unfold validateArray, validateArray_with, parse_or_raise; rewrite H; reflexivity.
  - intros text components H.
    unfold validateTuple, validateTuple_with, parse_or_raise; rewrite H; reflexivity.
Qed.

End Totality.

(** ** Tuples *)

Lemma obj_update_fresh (k : string) (v : jsval) (o : list (string * jsval)) :
  existsb (String.eqb k) (map fst o) = false -> obj_update k v o = None.
Proof.
  induction o as [|[k' v'] r IH]; simpl; [reflexivity|].
  destruct (String.eqb k k'); simpl; [discriminate|].
  intro H; rewrite (IH H); reflexivity.
Qed.

Lemma obj_set_fresh (k : string) (v : jsval) (o : list (string * jsval)) :
  plain_name k = true -> existsb (String.eqb k) (map fst o) = false ->
  obj_set k v o = (o ++ [(k, v)])%list.
Proof.
  unfold plain_name, obj_set, obj_define; intros P F.
  destruct (array_index k); [discriminate|].
  destruct (String.eqb k "__proto__"); [discriminate|].
  rewrite (obj_update_fresh k v o F); reflexivity.
Qed.

Lemma existsb_eqb_app (k : string) (a b : list string) :
  existsb (String.eqb k) (a ++ b) = existsb (String.eqb k) a || existsb (String.eqb k) b.
Proof. apply existsb_app. Qed.

Lemma undefined_dec (v : jsval) : {v = VUndefined} + {v <> VUndefined}.
Proof. destruct v; (left; reflexivity) || (right; discriminate). Qed.

Section Tuples.

Variable JSON_parse : string -> option jsval.
Variable rec : callee.
Variable parsed : list (string * jsval).

Lemma validateTuple_loop_undefined (c : AbiParameter) (rest : list AbiParameter)
    (acc : list (string * jsval)) :
  get_prop parsed (p_name c) = VUndefined ->
  validateTuple_loop rec parsed (c :: rest) acc
  = Done (invalid ("Missing required field: " ++ p_name c)).
Proof. intro U; simpl; rewrite U; reflexivity. Qed.

Lemma validateTuple_loop_step (c : AbiParameter) (rest : list AbiParameter)
    (acc : list (string * jsval)) :
  get_prop parsed (p_name c) <> VUndefined ->
  validateTuple_loop rec parsed (c :: rest) acc
  = bind (text_of (get_prop parsed (p_name c)))
      (fun t =>
         bind (rec t (p_type c) (p_components c))
           (field_step c
              (fun v => validateTuple_loop rec parsed rest (obj_set (p_name c) v acc)))).
Proof.
  intros NU; simpl.
  destruct (get_prop parsed (p_name c)); try congruence; reflexivity.
Qed.

Lemma validateTuple_loop_missing (pre post : list AbiParameter) (c : AbiParameter) :
  Forall (field_ok rec parsed) pre ->
  get_prop parsed (p_name c) = VUndefined ->
  forall acc,
    validateTuple_loop rec parsed (pre ++ c :: post) acc
    = Done (invalid ("Missing required field: " ++ p_name c)).
Proof.
  intros Hpre Hc; induction Hpre as [|x r [NU (t & v & T & R)] _ IH]; intro acc.
  - apply validateTuple_loop_undefined, Hc.
  - change ((x :: r) ++ c :: post)%list with (x :: (r ++ c :: post))%list.
    rewrite (validateTuple_loop_step x _ acc NU), T; cbn [bind].
    rewrite R; cbn [bind field_step]; apply IH.
Qed.

Lemma validateTuple_loop_invalid (pre post : list AbiParameter) (c : AbiParameter)
    (t : option string) (error : string) :
  Forall (field_ok rec parsed) pre ->
  get_prop parsed (p_name c) <> VUndefined ->
  text_of (get_prop parsed (p_name c)) = Done t ->
  rec t (p_type c) (p_components c) = Done (invalid error) ->
  forall acc,
    validateTuple_loop rec parsed (pre ++ c :: post) acc
    = Done (invalid ("Invalid field " ++ quoted (p_name c) ++ ": " ++ error)).
Proof.
  intros Hpre Hc Ht He; induction Hpre as [|x r [NU (t' & v & T & R)] _ IH]; intro acc.
  - cbn [app]; rewrite (validateTuple_loop_step c post acc Hc), Ht; cbn [bind].
    rewrite He; reflexivity.
  - change ((x :: r) ++ c :: post)%list with (x :: (r ++ c :: post))%list.
    rewrite (validateTuple_loop_step x _ acc NU), T; cbn [bind].
    rewrite R; cbn [bind field_step]; apply IH.
Qed.

Lemma validateTuple_loop_absent (components : list AbiParameter) :
  (exists c, In c components /\ get_prop parsed (p_name c) = VUndefined) ->
  forall acc v, validateTuple_loop rec parsed components acc <> Done (valid v).
Proof.
  induction components as [|x r IH]; intros (c & Hin & Hc) acc v.
  - destruct Hin.
  - destruct (undefined_dec (get_prop parsed (p_name x))) as [U|NU].
    + rewrite (validateTuple_loop_undefined x r acc U); discriminate.
    + rewrite (validateTuple_loop_step x r acc NU).
      destruct Hin as [->|Hin]; [congruence|].
      destruct (text_of (get_prop parsed (p_name x))) as [t| |]; cbn [bind];
        try discriminate.
      destruct (rec t (p_type x) (p_components x)) as [[w|e]| |]; cbn [bind field_step];
        try discriminate.
      apply IH; eauto.
Qed.

Lemma validateTuple_loop_valid (components : list AbiParameter) :
  forall acc v,
    plain_names components = true ->
    (forall c, In c components -> existsb (String.eqb (p_name c)) (map fst acc) = false) ->
    validateTuple_loop rec parsed components acc = Done (valid v) ->
    exists fields,
      v = VObj (acc ++ fields)
      /\ map fst fields = map p_name components
      /\ Forall2 (field_of rec parsed) components fields.
Proof.
  induction components as [|x r IH]; intros acc v P F H.
  - simpl in H; injection H as <-; exists []; rewrite app_nil_r; auto.
  - unfold plain_names in P; simpl in P.
    apply andb_true_iff in P; destruct P as [D Pl].
    apply andb_true_iff in D; destruct D as [Dx Dr].
    apply andb_true_iff in Pl; destruct Pl as [Px Pr].
    apply negb_true_iff in Dx.
    destruct (undefined_dec (get_prop parsed (p_name x))) as [U|NU].
    { rewrite (validateTuple_loop_undefined x r acc U) in H; discriminate. }
    rewrite (validateTuple_loop_step x r acc NU) in H.
    destruct (text_of (get_prop parsed (p_name x))) as [t| |] eqn:T; cbn [bind] in H;
      try discriminate.
    destruct (rec t (p_type x) (p_components x)) as [[w|e]| |] eqn:R;
      cbn [bind field_step] in H; try discriminate.
    rewrite (obj_set_fresh _ w acc Px (F x (or_introl eq_refl))) in H.
    apply IH in H.
    + destruct H as (fields & -> & Hk & Hf).
      exists ((p_name x, w) :: fields); rewrite <- app_assoc; simpl.
      split; [reflexivity|]; split; [congruence|].
      constructor; [split; [reflexivity|exists t; auto]|exact Hf].
    + unfold plain_names; rewrite Dr, Pr; reflexivity.
    + intros c Hc; rewrite map_app, existsb_eqb_app, (F c (or_intror Hc)); simpl.
      rewrite orb_false_r.
      destruct (String.eqb_spec (p_name c) (p_name x)) as [E|]; [|reflexivity].
      rewrite <- E in Dx.
      assert (X : existsb (String.eqb (p_name c)) (map p_name r) = true)
        by (apply existsb_exists; exists (p_name c); split;
            [apply in_map, Hc|apply String.eqb_refl]).
      congruence.
Qed.

Lemma validateTuple_loop_reports_missing (components : list AbiParameter) (n : string) :
  forall acc,
    catch (validateTuple_loop rec parsed components acc) (invalid "Invalid JSON object format")
    = Done (invalid ("Missing required field: " ++ n)) ->
    exists pre c post,
      components = (pre ++ c :: post)%list /\ p_name c = n
      /\ Forall (field_ok rec parsed) pre
      /\ get_prop parsed n = VUndefined.
Proof.
  induction components as [|x r IH]; intros acc H.
  - simpl in H; discriminate.
  - destruct (undefined_dec (get_prop parsed (p_name x))) as [U|NU].
    { rewrite (validateTuple_loop_undefined x r acc U) in H; cbn [catch] in H.
      injection H as H.
      exists [], x, r; repeat split; auto; congruence. }
    rewrite (validateTuple_loop_step x r acc NU) in H.
    destruct (text_of (get_prop parsed (p_name x))) as [t| |] eqn:T;
      cbn [bind catch] in H; try discriminate.
    destruct (rec t (p_type x) (p_components x)) as [[w|e]| |] eqn:R;
      cbn [bind field_step catch] in H; try discriminate.
    apply IH in H; destruct H as (pre & c & post & -> & Hn & Hp & Hu).
    exists (x :: pre), c, post; repeat split; auto.
    constructor; [split; [exact NU|exists t, w; auto]|exact Hp].
Qed.

End Tuples.

Lemma split_at_bracket_none (s : string) :
  bracket_count s = O -> split_at_bracket s = None.
Proof.
  induction s as [|c r IH]; simpl; [reflexivity|].
  destruct (Ascii.eqb c "["%char); simpl; [discriminate|].
  intro H; rewrite (IH H); reflexivity.
Qed.

Lemma match_array_type_none (s : string) :
  bracket_count s = O -> match_array_type s = None.
Proof.
  destruct s as [|c r]; [reflexivity|]; intro H; unfold match_array_type.
  destruct (negb _); [reflexivity|].
  rewrite split_at_bracket_none; [reflexivity|].
  simpl in H; lia.
Qed.

Lemma digits_no_bracket (w : string) :
  string_forallb is_digit w = true -> bracket_count w = O.
Proof. apply no_bracket_count, digit_no_bracket. Qed.

Lemma parseType_uint (w : string) :
  string_forallb is_digit w = true ->
  parseType ("uint" ++ w) = mkParsedType ("uint" ++ w) false [] false.
Proof.
  intro H; unfold parseType; rewrite match_array_type_none; [reflexivity|].
  simpl; apply digits_no_bracket, H.
Qed.

Lemma parseType_int (w : string) :
  string_forallb is_digit w = true ->
  parseType ("int" ++ w) = mkParsedType ("int" ++ w) false [] false.
Proof.
  intro H; unfold parseType; rewrite match_array_type_none; [reflexivity|].
  simpl; apply digits_no_bracket, H.
Qed.

Lemma validateUint_null (bits : Z) :
  validateUint "null" bits = Done (invalid "Invalid number format").
Proof. reflexivity. Qed.

Section TupleClaims.

Variable JSON_parse : string -> option jsval.

Lemma validateParameterType_uint (value w : string) (components : option (list AbiParameter)) :
  string_forallb is_digit w = true ->
  validateParameterType JSON_parse (Some value) ("uint" ++ w) components
  = validateUint value (or_256 (parseInt w None)).
Proof.
  intro H; rewrite validateParameterType_unfold; unfold validateParameterType_body.
  rewrite (parseType_uint w H); reflexivity.
Qed.

Lemma validateParameterType_int (value w : string) (components : option (list AbiParameter)) :
  string_forallb is_digit w = true ->
  validateParameterType JSON_parse (Some value) ("int" ++ w) components
  = validateInt value (or_256 (parseInt w None)).
Proof.
  intro H; rewrite validateParameterType_unfold; unfold validateParameterType_body.
  rewrite (parseType_int w H); reflexivity.
Qed.

Lemma validateTuple_parsed (value : string) (components : list AbiParameter)
    (parsed : list (string * jsval)) :
  JSON_parse value = Some (VObj parsed) ->
  validateTuple JSON_parse (VStr value) components
  = catch (validateTuple_loop (validateParameterType JSON_parse) parsed components [])
      (invalid "Invalid JSON object format").
Proof.
  intro H; unfold validateTuple, validateTuple_with, parse_or_raise; rewrite H; reflexivity.
Qed.

(** C5, as the code has it.  For a tuple type with a non-empty components
    list the dispatcher runs [validateTuple]; a component whose key maps to
    [undefined] in the parsed object makes the result invalid; the
    components are visited in declaration order and the first one that is
    missing is reported as "Missing required field: <name>" when every
    component declared before it is present and validates; on success the
    result maps each field name to its normalized value in declaration
    order, for component names that are distinct and plain; and the first
    component whose value does not validate, those declared before it
    being present and valid, is reported as "Invalid field <name>: <its
    error>". *)
Theorem tuple_validation (type value : string) (components : list AbiParameter)
    (parsed : list (string * jsval))
    (Harray : isArray (parseType type) = false)
    (Htuple : isTuple (parseType type) = true)
    (Hcomponents : components <> [])
    (Hparsed : JSON_parse value = Some (VObj parsed)) :
  validateParameterType JSON_parse (Some value) type (Some components)
  = validateTuple JSON_parse (VStr value) components
  /\ ((exists c, In c components /\ get_prop parsed (p_name c) = VUndefined) ->
      rejects (validateTuple JSON_parse (VStr value) components))
  /\ (forall pre c post,
        components = (pre ++ c :: post)%list ->
        Forall (field_ok (validateParameterType JSON_parse) parsed) pre ->
        get_prop parsed (p_name c) = VUndefined ->
        validateTuple JSON_parse (VStr value) components
        = Done (invalid ("Missing required field: " ++ p_name c)))
  /\ (forall v,
        plain_names components = true ->
        validateTuple JSON_parse (VStr value) components = Done (valid v) ->
        exists fields,
          v = VObj fields
          /\ map fst fields = map p_name components
          /\ Forall2 (field_of (validateParameterType JSON_parse) parsed) components fields)
  /\ (forall pre c post t error,
        components = (pre ++ c :: post)%list ->
        Forall (field_ok (validateParameterType JSON_parse) parsed) pre ->
        get_prop parsed (p_name c) <> VUndefined ->
        text_of (get_prop parsed (p_name c)) = Done t ->
        validateParameterType JSON_parse t (p_type c) (p_components c)
        = Done (invalid error) ->
        validateTuple JSON_parse (VStr value) components
        = Done (invalid ("Invalid field " ++ quoted (p_name c) ++ ": " ++ error))).
Proof.
  split; [|split; [|split; [|split]]].
  - rewrite validateParameterType_unfold; unfold validateParameterType_body.
    rewrite Harray, Htuple; destruct components; [congruence|reflexivity].
  - intro M.
    destruct (validateTuple_with_total JSON_parse (validateParameterType JSON_parse)
                (VStr value) components) as [[v|e] E].
    + intros c _ v; destruct (validateParameterType_total JSON_parse v (p_type c)
                                (p_components c)) as [r ->]; discriminate.
    + exfalso; fold (validateTuple JSON_parse (VStr value) components) in E.
      rewrite (validateTuple_parsed value components parsed Hparsed) in E.
      pose proof (validateTuple_loop_absent (validateParameterType JSON_parse) parsed
                    components M [] v) as A.
      destruct (validateTuple_loop _ parsed components []) as [[]| |];
        simpl in E; congruence.
    + exists e; exact E.
  - intros pre c post -> Hpre Hc.
    rewrite (validateTuple_parsed _ _ parsed Hparsed),
      (validateTuple_loop_missing _ parsed pre post c Hpre Hc); reflexivity.
  - intros v P E.
    rewrite (validateTuple_parsed _ _ parsed Hparsed) in E.
    destruct (validateTuple_loop _ parsed components []) as [[w|e]| |] eqn:L;
      simpl in E; try discriminate.
    injection E as <-.
    apply validateTuple_loop_valid in L; [exact L|exact P|reflexivity].
  - intros pre c post t error -> Hpre Hc Ht He.
    rewrite (validateTuple_parsed _ _ parsed Hparsed),
      (validateTuple_loop_invalid _ parsed pre post c t error Hpre Hc Ht He); reflexivity.
Qed.

(** C10.  In the loop of [validateTuple], the iteration for a component
    answers "Missing required field: <name>" exactly when the component's
    key maps to [undefined] in the parsed object; so [validateTuple] gives
    that answer exactly when the component of that name is reached (those
    declared before it are present and validate) and its key maps to
    [undefined].  A field that is JSON null is present: the text "null"
    goes to the component's validator, whose error is reported as the
    error of the field; for a uint component this is the number-format
    error. *)
Theorem missing_field_iff_undefined (value : string) (components : list AbiParameter)
    (parsed : list (string * jsval))
    (Hparsed : JSON_parse value = Some (VObj parsed)) :
  (forall c rest acc,
     validateTuple_loop (validateParameterType JSON_parse) parsed (c :: rest) acc
     = Done (invalid ("Missing required field: " ++ p_name c))
     <-> get_prop parsed (p_name c) = VUndefined)
  /\ (forall n,
     validateTuple JSON_parse (VStr value) components
     = Done (invalid ("Missing required field: " ++ n))
     <-> exists pre c post,
           components = (pre ++ c :: post)%list /\ p_name c = n
           /\ Forall (field_ok (validateParameterType JSON_parse) parsed) pre
           /\ get_prop parsed n = VUndefined)
  /\ text_of VNull = Done (Some "null")
  /\ (forall pre c post error,
        components = (pre ++ c :: post)%list ->
        Forall (field_ok (validateParameterType JSON_parse) parsed) pre ->
        get_prop parsed (p_name c) = VNull ->
        validateParameterType JSON_parse (Some "null") (p_type c) (p_components c)
        = Done (invalid error) ->
        validateTuple JSON_parse (VStr value) components
        = Done (invalid ("Invalid field " ++ quoted (p_name c) ++ ": " ++ error)))
  /\ (forall pre c post w,
        components = (pre ++ c :: post)%list ->
        Forall (field_ok (validateParameterType JSON_parse) parsed) pre ->
        get_prop parsed (p_name c) = VNull ->
        p_type c = "uint" ++ w -> string_forallb is_digit w = true ->
        validateTuple JSON_parse (VStr value) components
        = Done (invalid ("Invalid field " ++ quoted (p_name c) ++ ": Invalid number format"))).
Proof.
  assert (N : forall pre c post error,
            components = (pre ++ c :: post)%list ->
            Forall (field_ok (validateParameterType JSON_parse) parsed) pre ->
            get_prop parsed (p_name c) = VNull ->
            validateParameterType JSON_parse (Some "null") (p_type c) (p_components c)
            = Done (invalid error) ->
            validateTuple JSON_parse (VStr value) components
            = Done (invalid ("Invalid field " ++ quoted (p_name c) ++ ": " ++ error))).
  { intros pre c post error -> Hpre Hc He.
    rewrite (validateTuple_parsed _ _ parsed Hparsed).
    generalize (@nil (string * jsval)).
    induction Hpre as [|x r [NU (t & v & T & R)] _ IH]; intro acc.
    - assert (NU : get_prop parsed (p_name c) <> VUndefined) by (rewrite Hc; discriminate).
      cbn [app]; rewrite (validateTuple_loop_step _ parsed c post acc NU), Hc.
      cbn [text_of is_object typeof JSON_stringify bind]; rewrite He; reflexivity.
    - change ((x :: r) ++ c :: post)%list with (x :: (r ++ c :: post))%list.
      rewrite (validateTuple_loop_step _ parsed x _ acc NU), T; cbn [bind].
      rewrite R; cbn [bind field_step]; apply IH. }
  split; [|split; [|split; [reflexivity|split; [exact N|]]]].
  - intros c rest acc; split.
    + intro H.
      destruct (validateTuple_loop_reports_missing (validateParameterType JSON_parse)
                  parsed (c :: rest) (p_name c) acc) as (pre & c' & post & _ & _ & _ & U);
        [rewrite H; reflexivity|exact U].
    + apply validateTuple_loop_undefined.
  - intro n; split.
    + rewrite (validateTuple_parsed _ _ parsed Hparsed).
      apply validateTuple_loop_reports_missing.
    + intros (pre & c & post & -> & <- & Hpre & Hc).
      rewrite (validateTuple_parsed _ _ parsed Hparsed),
        (validateTuple_loop_missing _ parsed pre post c Hpre Hc); reflexivity.
  - intros pre c post w E Hpre Hc Ht Hw.
    apply (N pre c post "Invalid number format" E Hpre Hc).
    rewrite Ht, (validateParameterType_uint "null" w _ Hw); apply validateUint_null.
Qed.

End TupleClaims.

(** ** Action assembly *)

Section ActionAssembly.

Variable JSON_parse : string -> option jsval.
Variable params : list (string * jsval).

Lemma validate_inputs_undefined (p : AbiParameter) (rest : list AbiParameter) :
  get_prop params (p_name p) = VUndefined ->
  validate_inputs JSON_parse params (p :: rest)
  = Done (Some (mkActionBuilderError ("Missing parameter: " ++ p_name p) INVALID_PARAMETER)).
Proof. intro U; simpl; rewrite U; reflexivity. Qed.

Lemma validate_inputs_step (p : AbiParameter) (rest : list AbiParameter) :
  get_prop params (p_name p) <> VUndefined ->
  validate_inputs JSON_parse params (p :: rest)
  = bind (parameter_text (get_prop params (p_name p)))
      (fun t =>
         bind (validateParameterType JSON_parse t (p_type p) (p_components p))
           (fun validation =>
              match validation with
              | invalid error =>
                  Done (Some (mkActionBuilderError
                                ("Invalid parameter " ++ p_name p ++ ": " ++ error)
                                INVALID_PARAMETER))
              | valid _ => validate_inputs JSON_parse params rest
              end)).
Proof.
  intro NU; simpl.
  destruct (get_prop params (p_name p)); try congruence; reflexivity.
Qed.


Lemma validate_inputs_absent (inputs : list AbiParameter) :
  (exists p, In p inputs /\ get_prop params (p_name p) = VUndefined) ->
  validate_inputs JSON_parse params inputs <> Done None.
Proof.
  induction inputs as [|x r IH]; intros (p & Hin & Hp).
  - destruct Hin.
  - destruct (undefined_dec (get_prop params (p_name x))) as [U|NU].
    + rewrite (validate_inputs_undefined x r U); discriminate.
    + rewrite (validate_inputs_step x r NU).
      destruct Hin as [->|Hin]; [congruence|].
      destruct (parameter_text _) as [t| |]; cbn [bind]; try discriminate.
      destruct (validateParameterType JSON_parse t (p_type x) (p_components x))
        as [[w|e]| |]; cbn [bind]; try discriminate.
      apply IH; eauto.
Qed.




End ActionAssembly.

Section ActionClaims.

Variable JSON_parse : string -> option jsval.
Variable encodeFunctionData : AbiFunction -> list jsval -> comp string.


End ActionClaims.

(** ** Normalization of integers *)

Lemma validateUint_valid (value : string) (bits : Z) (v : jsval) :
  validateUint value bits = Done (valid v) -> exists N, v = VBigInt N /\ BigInt value = Done N.
Proof.
  unfold validateUint; destruct (_ || _); [discriminate|].
  destruct (BigInt value) as [num| |]; cbn [bind catch]; try discriminate.
  destruct (num <? 0); [discriminate|].
  destruct (bigint_pow 2 bits) as [power| |]; cbn [bind catch]; try discriminate.
  destruct (num >? power - 1); [discriminate|].
  intros [= <-]; eauto.
Qed.

Lemma validateInt_valid (value : string) (bits : Z) (v : jsval) :
  validateInt value bits = Done (valid v) -> exists N, v = VBigInt N /\ BigInt value = Done N.
Proof.
  unfold validateInt; destruct (_ || _); [discriminate|].
  destruct (BigInt value) as [num| |]; cbn [bind catch]; try discriminate.
  destruct (bigint_pow 2 (bits - 1)) as [power| |]; cbn [bind catch]; try discriminate.
  destruct (_ || _); [discriminate|].
  intros [= <-]; eauto.
Qed.

(** C4, as the code has it.  For an integer type, [normalizeParameterValue]
    returns the input text itself: the text [BigInt] reads as the validated
    integer, and the canonical decimal text when the input was written
    canonically. *)
Theorem normalize_integer_is_input_text (JSON_parse : string -> option jsval)
    (V w type : string) (components : option (list AbiParameter))
    (Htype : type = "uint" ++ w \/ type = "int" ++ w)
    (Hw : string_forallb is_digit w = true) :
  normalizeParameterValue JSON_parse (VStr V) type components = Done (VStr V)
  /\ (forall v,
        validateParameterType JSON_parse (Some V) type components = Done (valid v) ->
        exists N, v = VBigInt N /\ BigInt V = Done N)
  /\ (forall N, V = decimal N ->
        normalizeParameterValue JSON_parse (VStr V) type components
        = Done (VStr (decimal N))).
Proof.
  assert (E : normalizeParameterValue JSON_parse (VStr V) type components = Done (VStr V)).
  { unfold normalizeParameterValue, fuel_for; cbn [normalizeParameterValue_fuel].
    unfold normalizeParameterValue_body.
    destruct Htype as [-> | ->];
      [rewrite (parseType_uint w Hw)|rewrite (parseType_int w Hw)]; reflexivity. }
  split; [exact E|split].
  - intros v H; destruct Htype as [-> | ->].
    + rewrite (validateParameterType_uint JSON_parse V w components Hw) in H.
      apply validateUint_valid in H; exact H.
    + rewrite (validateParameterType_int JSON_parse V w components Hw) in H.
      apply validateInt_valid in H; exact H.
  - intros N ->; exact E.
Qed.

Lemma normalize_integer_is_input_text_witness :
  normalizeParameterValue parse_json (VStr "1000") "uint256" None = Done (VStr "1000").
Proof.
  exact (proj1 (normalize_integer_is_input_text parse_json "1000" "256" "uint256" None
                  (or_introl eq_refl) eq_refl)).
Defined.

(** The claim C4 as written fails: 007 validates as the integer 7 and is
    normalized to 007, which is not the decimal text of 7. *)
Lemma normalize_integer_counterexample :
  validateParameterType parse_json (Some "007") "uint256" None = Done (valid (VBigInt 7))
  /\ normalizeParameterValue parse_json (VStr "007") "uint256" None = Done (VStr "007")
  /\ decimal 7 = "7"
  /\ normalizeParameterValue parse_json (VStr "007") "uint256" None
     <> Done (VStr (decimal 7)).
Proof.
  split; [reflexivity|]; split; [reflexivity|]; split; [reflexivity|].
  vm_compute; discriminate.
Qed.

(** ** Nested array dimensions *)

(** C1, on the code.  For uint256[2][3] the parser lists the dimensions in
    their textual order, 2 then 3, and the dispatcher takes the first as
    the outer length and validates each element against uint256[3]: three
    pairs of uint256 are rejected for their count, and two triples are
    accepted. *)
Theorem nested_dimensions_textual_order :
  parseType "uint256[2][3]"
  = mkParsedType "uint256" true [Some (Num 2); Some (Num 3)] false
  /\ innerTypeOf (parseType "uint256[2][3]") = "uint256[3]"
  /\ validateParameterType parse_json (Some "[[1,2],[3,4],[5,6]]") "uint256[2][3]" None
     = Done (invalid "Array must have exactly 2 elements")
  /\ validateParameterType parse_json (Some "[[1,2,3],[4,5,6]]") "uint256[2][3]" None
     = Done (valid (VArr [ VArr [VBigInt 1; VBigInt 2; VBigInt 3];
                           VArr [VBigInt 4; VBigInt 5; VBigInt 6] ])).
Proof. repeat split; reflexivity. Qed.

(** ** Round trip *)

Lemma denormalize_undefined (type : string) (components : option (list AbiParameter)) :
  denormalizeParameterValue VUndefined type components = Done "".
Proof. reflexivity. Qed.

(** C2, on the code.  The text " true" (with a leading space) validates
    against bool as the value true, since [validateBool] trims; the
    normalizer does not trim and yields false, which denormalizes to
    "false": the round trip gives a text that validates, as the opposite
    boolean. *)
Theorem roundtrip_bool_leading_space :
  validateParameterType parse_json (Some " true") "bool" None = Done (valid (VBool true))
  /\ normalizeParameterValue parse_json (VStr " true") "bool" None = Done (VBool false)
  /\ denormalizeParameterValue (VBool false) "bool" None = Done "false"
  /\ validateParameterType parse_json (Some "false") "bool" None = Done (valid (VBool false)).
Proof. repeat split; reflexivity. Qed.

(** ** The properties on the examples *)

Lemma validation_total_witness :
  validateArray parse_json (VStr "not json") "uint256" None None
  = Done (invalid "Invalid JSON array format")
  /\ validateTuple parse_json (VStr "not json") transfer_components
     = Done (invalid "Invalid JSON object format").
Proof.
  destruct (validation_total parse_json) as (_ & _ & _ & A & T).
  split; [apply A|apply T]; reflexivity.
Defined.

Lemma tuple_validation_witness :
  validateTuple parse_json (VStr tuple_without_amount) transfer_components
  = Done (invalid "Missing required field: amount")
  /\ exists fields,
       VObj [("to", VStr address_1234); ("amount", VBigInt 1000)] = VObj fields
       /\ map fst fields = ["to"; "amount"].
Proof.
  split.
  - destruct (tuple_validation parse_json "tuple" tuple_without_amount transfer_components
                [("to", VStr address_1234)] eq_refl eq_refl ltac:(discriminate) eq_refl)
      as (_ & _ & M & _).
    apply (M [mkAbiParameter "to" "address" None] (mkAbiParameter "amount" "uint256" None) []);
      [reflexivity| |reflexivity].
    constructor; [|constructor].
    split; [discriminate|].
    exists (Some address_1234), (VStr address_1234); split; reflexivity.
  - destruct (tuple_validation parse_json "tuple" tuple_amount_first transfer_components
                [("amount", VStr "1000"); ("to", VStr address_1234)]
                eq_refl eq_refl ltac:(discriminate) eq_refl)
      as (_ & _ & _ & S & _).
    destruct (S (VObj [("to", VStr address_1234); ("amount", VBigInt 1000)])
                eq_refl eq_refl) as (fields & E & K & _).
    exists fields; split; [exact E|exact K].
Defined.

(** The claim C5 as written fails.  A tuple [{"a":"x"}] against the
    components a and b, both uint256, lacks b, and the error is that of a,
    which comes first.  And fields named b and 1, declared in this order,
    give a mapping whose keys are enumerated 1 then b. *)
Lemma tuple_validation_counterexample :
  parse_json tuple_bad_a = Some (VObj [("a", VStr "x")])
  /\ get_prop [("a", VStr "x")] "b" = VUndefined
  /\ validateParameterType parse_json (Some tuple_bad_a) "tuple" (Some two_uints)
     = Done (invalid ("Invalid field " ++ quoted "a" ++ ": Invalid number format"))
  /\ validateParameterType parse_json (Some tuple_bad_a) "tuple" (Some two_uints)
     <> Done (invalid "Missing required field: b")
  /\ validateParameterType parse_json (Some tuple_b_1) "tuple" (Some components_b_1)
     = Done (valid (VObj [("1", VBigInt 6); ("b", VBigInt 5)])).
Proof.
  split; [reflexivity|]; split; [reflexivity|]; split; [reflexivity|].
  split; [vm_compute; discriminate|reflexivity].
Qed.

Lemma missing_field_iff_undefined_witness :
  validateTuple parse_json (VStr tuple_null_amount) transfer_components
  = Done (invalid ("Invalid field " ++ quoted "amount" ++ ": Invalid number format")).
Proof.
  destruct (missing_field_iff_undefined parse_json tuple_null_amount transfer_components
              [("to", VStr address_1234); ("amount", VNull)] eq_refl)
    as (_ & _ & _ & _ & U).
  apply (U [mkAbiParameter "to" "address" None] (mkAbiParameter "amount" "uint256" None) []
           "256"); try reflexivity.
  constructor; [|constructor].
  split; [discriminate|].
  exists (Some address_1234), (VStr address_1234); split; reflexivity.
Defined.



(** An input whose name every object inherits is never missing.  With no
    entry in the parameter map, [toString] reads as the inherited
    function, which has no JSON text, and [__proto__] reads as the
    prototype, whose JSON text validates as a string: the first is
    reported as invalid, and with the second alone an Action is built. *)
Example buildAction_inherited_names :
  assoc "toString" (@nil (string * jsval)) = None
  /\ buildAction parse_json transfer_codec
       (note_input "note(string,string)" [note_function])
     = Done (failure (mkActionBuilderError "Invalid parameter toString: Value is required"
                        INVALID_PARAMETER))
  /\ exists action,
       buildAction parse_json transfer_codec
         (note_input "note(string)"
            [mkAbiFunction "note" [mkAbiParameter "__proto__" "string" None] None
               "nonpayable"])
       = Done (success action).
Proof.
  split; [reflexivity|split; [reflexivity|]].
  eexists; vm_compute; reflexivity.
Qed.

(** * Further properties of the library *)

(** ** Letter case and white space *)

Lemma lower_char_space (c : ascii) : is_white_space (lower_char c) = is_white_space c.
Proof. ascii_cases c; reflexivity. Qed.

Lemma trimStart_toLowerCase (s : string) :
  trimStart (toLowerCase s) = toLowerCase (trimStart s).
Proof.
  induction s as [|c r IH]; simpl; [reflexivity|].
  rewrite lower_char_space; destruct (is_white_space c); [exact IH|reflexivity].
Qed.

Lemma trimEnd_toLowerCase (s : string) :
  trimEnd (toLowerCase s) = toLowerCase (trimEnd s).
Proof.
  induction s as [|c r IH]; simpl; [reflexivity|].
  rewrite IH, lower_char_space.
  destruct (trimEnd r); simpl; [destruct (is_white_space c)|]; reflexivity.
Qed.

Lemma trim_toLowerCase (s : string) : trim (toLowerCase s) = toLowerCase (trim s).
Proof. unfold trim; rewrite trimStart_toLowerCase, trimEnd_toLowerCase; reflexivity. Qed.

Lemma trimEnd_idempotent (s : string) : trimEnd (trimEnd s) = trimEnd s.
Proof.
  induction s as [|c r IH]; simpl; [reflexivity|].
  destruct (trimEnd r) as [|a b] eqn:E.
  - destruct (is_white_space c) eqn:W; simpl; [reflexivity|rewrite W; reflexivity].
  - simpl in *; rewrite IH; reflexivity.
Qed.

Lemma trimStart_fixed (s : string) : leading_space s = false -> trimStart s = s.
Proof. destruct s as [|c r]; simpl; [reflexivity|intros ->; reflexivity]. Qed.

Lemma trimStart_leading (s : string) : leading_space (trimStart s) = false.
Proof.
  induction s as [|c r IH]; simpl; [reflexivity|].
  destruct (is_white_space c) eqn:W; [exact IH|simpl; exact W].
Qed.

Lemma trimEnd_leading (s : string) :
  leading_space s = false -> leading_space (trimEnd s) = false.
Proof.
  destruct s as [|c r]; simpl; [reflexivity|]; intro W.
  destruct (trimEnd r); [rewrite W|]; simpl; exact W.
Qed.

Lemma trim_idempotent (s : string) : trim (trim s) = trim s.
Proof.
  unfold trim.
  rewrite (trimStart_fixed (trimEnd (trimStart s))).
  - apply trimEnd_idempotent.
  - apply trimEnd_leading, trimStart_leading.
Qed.

Lemma trimEnd_fixed (s : string) : trailing_space s = false -> trimEnd s = s.
Proof.
  unfold trailing_space; induction s as [|c r IH]; simpl; [reflexivity|].
  destruct r as [|a b].
  - intros ->; reflexivity.
  - intro H; rewrite (IH H); reflexivity.
Qed.

Lemma trimmed_trim (s : string) : trimmed s = true -> trim s = s.
Proof.
  unfold trimmed; rewrite andb_true_iff, !negb_true_iff; intros [L T].
  unfold trim; rewrite (trimStart_fixed s L); apply trimEnd_fixed, T.
Qed.

(** X1.  [validateBool] ignores the letter case of its input and the
    white space around it. *)
Theorem validateBool_ignores_case_and_space (value : string) :
  validateBool (toLowerCase value) = validateBool value
  /\ validateBool (trim value) = validateBool value.
Proof.
  unfold validateBool; split.
  - rewrite toLowerCase_idempotent; reflexivity.
  - rewrite <- (trim_toLowerCase value), trim_idempotent; reflexivity.
Qed.

(** ** Which values the scalar validators accept *)

Lemma ADDRESS_REGEX_head (a : ascii) (s : string) :
  ADDRESS_REGEX (String a s)
  = Ascii.eqb a "0"%char
    && match s with
       | String b r =>
           Ascii.eqb b "x"%char && (String.length r =? 40)%nat
           && string_forallb is_lower_hex r
       | EmptyString => false
       end.
Proof.
  ascii_cases a; try reflexivity.
  destruct s as [|b r]; [reflexivity|].
  ascii_cases b; reflexivity.
Qed.

Lemma isValidAddress_head (a : ascii) (s : string) :
  isValidAddress (String a s)
  = Ascii.eqb a "0"%char
    && match s with
       | String b r =>
           Ascii.eqb b "x"%char && (String.length r =? 40)%nat && string_forallb is_hex r
       | EmptyString => false
       end.
Proof.
  ascii_cases a; try reflexivity.
  destruct s as [|b r]; [reflexivity|].
  ascii_cases b; reflexivity.
Qed.

Lemma lower_char_zero (c : ascii) :
  Ascii.eqb (lower_char c) "0"%char = Ascii.eqb c "0"%char.
Proof. ascii_cases c; reflexivity. Qed.

Lemma lower_char_x (c : ascii) :
  Ascii.eqb (lower_char c) "x"%char = Ascii.eqb c "x"%char || Ascii.eqb c "X"%char.
Proof. ascii_cases c; reflexivity. Qed.

Lemma lower_char_is_hex (c : ascii) : is_lower_hex (lower_char c) = is_hex c.
Proof. ascii_cases c; reflexivity. Qed.

Lemma toLowerCase_is_hex (s : string) :
  string_forallb is_lower_hex (toLowerCase s) = string_forallb is_hex s.
Proof.
  induction s as [|c r IH]; simpl; [reflexivity|].
  rewrite lower_char_is_hex, IH; reflexivity.
Qed.

(** X2.  [validateAddress] accepts exactly the texts made of 0x or 0X and
    40 hex digits, and answers their lowercase form; it accepts every
    address [isValidAddress] accepts and, unlike it, the prefix 0X. *)
Theorem validateAddress_accepts_exactly (a : string) :
  isValid (validateAddress a) = address_shape a
  /\ (forall v, validateAddress a = valid v -> v = VStr (toLowerCase a))
  /\ (isValidAddress a = true -> address_shape a = true)
  /\ (forall h, address_shape ("0X" ++ h) = true ->
        isValidAddress ("0X" ++ h) = false
        /\ validateAddress ("0X" ++ h) = valid (VStr ("0x" ++ toLowerCase h))).
Proof.
  assert (S : isValid (validateAddress a) = address_shape a).
  { unfold validateAddress; destruct a as [|c1 s]; [reflexivity|].
    cbn [is_empty String.eqb toLowerCase].
    rewrite ADDRESS_REGEX_head, lower_char_zero.
    destruct s as [|c2 h]; cbn [toLowerCase address_shape].
    - rewrite andb_false_r; reflexivity.
    - rewrite lower_char_x, toLowerCase_length, toLowerCase_is_hex.
      destruct (Ascii.eqb c1 "0"%char), (Ascii.eqb c2 "x"%char || Ascii.eqb c2 "X"%char),
        (String.length h =? 40)%nat, (string_forallb is_hex h); reflexivity. }
  split; [exact S|split; [|split]].
  - unfold validateAddress; intros v.
    destruct (is_empty a); [discriminate|].
    destruct (negb _); [discriminate|intros [= <-]; reflexivity].
  - destruct a as [|c1 [|c2 h]]; try discriminate.
    + rewrite isValidAddress_head, andb_false_r; discriminate.
    + rewrite isValidAddress_head; unfold address_shape.
      destruct (Ascii.eqb c1 "0"%char), (Ascii.eqb c2 "x"%char),
        (String.length h =? 40)%nat, (string_forallb is_hex h); simpl;
        try discriminate; reflexivity.
  - intros h H; split; [reflexivity|].
    unfold address_shape in H; cbn [append] in H.
    apply andb_true_iff in H; destruct H as [H Hx].
    apply andb_true_iff in H; destruct H as [_ Hl].
    unfold validateAddress; cbn [append is_empty String.eqb toLowerCase].
    rewrite ADDRESS_REGEX_head; cbn [lower_char].
    change (lower_char "0") with "0"%char; change (lower_char "X") with "x"%char.
    rewrite toLowerCase_length, toLowerCase_is_hex, Hl, Hx; reflexivity.
Qed.

Lemma validateAddress_accepts_exactly_witness :
  isValidAddress address_upper_prefix = false
  /\ validateAddress address_upper_prefix = valid (VStr address_1234).
Proof.
  destruct (validateAddress_accepts_exactly address_upper_prefix) as (_ & _ & _ & U).
  exact (U "1234567890123456789012345678901234567890" eq_refl).
Defined.

(** X3.  [validateBytes] answers the value unchanged when it accepts.
    Without a fixed length it accepts exactly 0x followed by hex digits (an
    odd number of digits included); with a fixed length N it accepts
    exactly 0x followed by 2 N hex digits, for N up to 32; with a length
    that is NaN it accepts nothing. *)
Theorem validateBytes_accepts_exactly (value : string) :
  isValid (validateBytes value None) = HEX_STRING_REGEX value
  /\ (forall N,
        isValid (validateBytes value (Some (Num N)))
        = HEX_STRING_REGEX value
          && (Z.of_nat (String.length value) =? 2 * N + 2) && (N <=? 32))
  /\ isValid (validateBytes value (Some NaN)) = false
  /\ (forall fixedLength v, validateBytes value fixedLength = valid v -> v = VStr value).
Proof.
  assert (P : HEX_STRING_REGEX value = true ->
              is_empty value = false /\ startsWith value "0x" = true)
    by apply HEX_STRING_REGEX_prefix.
  assert (Q : HEX_STRING_REGEX value = false ->
              forall fl, isValid (validateBytes value fl) = false).
  { intros H fl; unfold validateBytes; rewrite H.
    destruct (is_empty value); [reflexivity|].
    destruct (startsWith value "0x"); reflexivity. }
  split; [|split; [|split]].
  - destruct (HEX_STRING_REGEX value) eqn:H; [|apply Q; reflexivity].
    unfold validateBytes; destruct (P eq_refl) as [-> ->]; rewrite H; reflexivity.
  - intro N; destruct (HEX_STRING_REGEX value) eqn:H; [|apply Q; reflexivity].
    unfold validateBytes, byteLength_differs, byteLength_exceeds_32.
    destruct (P eq_refl) as [-> ->]; rewrite H; cbn [negb andb].
    destruct (Z.eqb_spec (Z.of_nat (String.length value) - 2) (2 * N)),
      (Z.eqb_spec (Z.of_nat (String.length value)) (2 * N + 2)); try lia;
      cbn [negb andb]; [|reflexivity].
    destruct (Z.gtb_spec (Z.of_nat (String.length value) - 2) 64),
      (Z.leb_spec N 32); try lia; reflexivity.
  - unfold validateBytes.
    destruct (is_empty value); [reflexivity|].
    destruct (startsWith value "0x"); [|reflexivity].
    destruct (HEX_STRING_REGEX value); reflexivity.
  - intros fl v; unfold validateBytes.
    destruct (is_empty value); [discriminate|].
    destruct (negb (startsWith value "0x")); [discriminate|].
    destruct (negb (HEX_STRING_REGEX value)); [discriminate|].
    destruct fl as [n|]; [|intros [= <-]; reflexivity].
    destruct (byteLength_differs value n); [discriminate|].
    destruct (byteLength_exceeds_32 value); [discriminate|intros [= <-]; reflexivity].
Qed.

(** ** Invariants of the type parser *)

Lemma startsWith_app (s p : string) : startsWith s p = true -> exists r, s = p ++ r.
Proof.
  revert s; induction p as [|a p IH]; intros s H; [exists s; reflexivity|].
  destruct s as [|b s]; [discriminate|]; simpl in H.
  apply andb_true_iff in H; destruct H as [E H].
  apply Ascii.eqb_eq in E; subst b.
  destruct (IH s H) as [r ->]; exists r; reflexivity.
Qed.

Lemma digit_value_digit (c : ascii) :
  is_digit c = true -> exists d, 0 <= d /\ digit_value 10 c = Some d.
Proof.
  ascii_cases c; intro H; try (vm_compute in H; discriminate);
    eexists; (split; [|reflexivity]); vm_compute; discriminate.
Qed.

Lemma digits_value_digits (s : string) :
  string_forallb is_digit s = true ->
  forall acc, 0 <= acc -> exists z, 0 <= z /\ digits_value 10 s acc = Some z.
Proof.
  induction s as [|c r IH]; simpl; intros H acc Hacc; [eauto|].
  apply andb_true_iff in H; destruct H as [Hc Hr].
  destruct (digit_value_digit c Hc) as (d & Hd & ->).
  apply (IH Hr); lia.
Qed.

Lemma span_digit_value (s : string) :
  string_forallb is_digit s = true ->
  span (fun c => match digit_value 10 c with Some _ => true | None => false end) s
  = (s, EmptyString).
Proof.
  induction s as [|c r IH]; simpl; [reflexivity|]; intro H.
  apply andb_true_iff in H; destruct H as [Hc Hr].
  destruct (digit_value_digit c Hc) as (d & _ & ->); rewrite (IH Hr); reflexivity.
Qed.

Lemma digits_no_space (s : string) :
  string_forallb is_digit s = true -> string_forallb no_space s = true.
Proof. apply string_forallb_impl, digit_no_space. Qed.



(** A natural number below 2^53 is a double. *)
Lemma to_double_small (z : Z) : 0 <= z < 9007199254740992 -> to_double z = Num z.
Proof.
  intros [H0 H1]; unfold to_double, round_53.
  rewrite (Z.abs_eq z H0).
  assert (L : Z.log2 z - 52 <= 0).
  { destruct (Z.eq_dec z 0) as [->|N]; [simpl; lia|].
    assert (Z.log2 z < 53); [|lia].
    apply Z.log2_lt_pow2; [lia|exact H1]. }
  destruct (Z.leb_spec (Z.log2 z - 52) 0); [|lia].
  assert (B : z < 2 ^ 1024).
  { apply (Z.lt_trans _ (2 ^ 53)); [exact H1|apply Z.pow_lt_mono_r; lia]. }
  destruct (Z.leb_spec (2 ^ 1024) z); [lia|].
  f_equal; destruct z; simpl; lia.
Qed.

(** [parseInt] of a text of digits is the double of the number the digits
    denote. *)
Lemma parseInt_digits (s : string) :
  s <> "" -> string_forallb is_digit s = true ->
  exists z, 0 <= z /\ digits_value 10 s 0 = Some z /\ parseInt s (Some 10) = to_double z.
Proof.
  intros NE H.
  destruct (digits_value_digits s H 0 ltac:(lia)) as (z & Hz & D).
  exists z; split; [exact Hz|split; [exact D|]].
  unfold parseInt; rewrite (trimStart_no_space s (digits_no_space s H)).
  assert (E : match s with
              | String "-" r => (true, r)
              | String "+" r => (false, r)
              | _ => (false, s)
              end = (false, s)).
  { destruct s as [|c r]; [reflexivity|].
    simpl in H; apply andb_true_iff in H; destruct H as [Hc _].
    ascii_cases c; try reflexivity; vm_compute in Hc; discriminate. }
  rewrite E; cbv iota beta.
  rewrite (span_digit_value s H); cbn [fst].
  unfold nonempty_digits; destruct s; [congruence|].
  rewrite D; reflexivity.
Qed.




Lemma tuple_prefix_group (type g1 g2 : string) :
  String.eqb type "tuple" || startsWith type "tuple[" = true ->
  match_array_type type = Some (g1, g2) -> g1 = "tuple".
Proof.
  intros F M; apply orb_true_iff in F; destruct F as [F|F].
  - apply String.eqb_eq in F; subst type; discriminate M.
  - destruct (startsWith_app _ _ F) as [r ->].
    unfold match_array_type in M; cbn [append] in M.
    destruct (negb _); [discriminate|].
    cbn [split_at_bracket Ascii.eqb Bool.eqb] in M.
    destruct r as [|x r]; [discriminate|].
    destruct (last_char (String "[" (String x r))) as [l|]; [|discriminate].
    destruct (Ascii.eqb_spec l "]"%char) as [->|N].
    + injection M as <- _; reflexivity.
    + exfalso; ascii_cases l; try discriminate M; apply N; reflexivity.
Qed.

Lemma match_array_type_full (type g1 g2 : string) :
  match_array_type type = Some (g1, g2) ->
  type = g1 ++ g2 /\ g1 <> "" /\ (exists r, g2 = String "[" r)
  /\ last_char g2 = Some "]"%char
  /\ string_forallb (fun x => negb (is_line_terminator x)) type = true.
Proof.
  intro M; destruct (match_array_type_spec type g1 g2 M) as [E R].
  unfold match_array_type in M; destruct type as [|c t]; [discriminate|].
  destruct (string_forallb _ (String c t)) eqn:T; [|discriminate]; cbn [negb] in M.
  destruct (split_at_bracket t) as [[a b]|]; [|discriminate].
  destruct b as [|b1 [|b2 b']]; try discriminate.
  destruct (last_char (String b1 (String b2 b'))) as [l|] eqn:L; [|discriminate].
  destruct (Ascii.eqb_spec l "]"%char) as [->|N].
  - injection M as <- <-.
    split; [exact E|split; [discriminate|split; [exact R|split; [exact L|reflexivity]]]].
  - exfalso; ascii_cases l; try discriminate M; apply N; reflexivity.
Qed.

Lemma parseType_isTuple (type : string) :
  isTuple (parseType type) = String.eqb (baseType (parseType type)) "tuple".
Proof.
  unfold parseType.
  destruct (match_array_type type) as [[g1 g2]|] eqn:M; cbn [isTuple baseType].
  - destruct (String.eqb type "tuple" || startsWith type "tuple[") eqn:F;
      [|reflexivity].
    rewrite (tuple_prefix_group type g1 g2 F M); reflexivity.
  - destruct (String.eqb type "tuple") eqn:E; [reflexivity|].
    destruct (startsWith type "tuple["); [reflexivity|].
    cbn [orb]; rewrite E; reflexivity.
Qed.



(** ** The element type of a nested array *)

Lemma join_empty_cons (x : string) (r : list string) : join "" (x :: r) = x ++ join "" r.
Proof.
  destruct r as [|y r]; simpl.
  - induction x as [|c x IH]; simpl; [reflexivity|rewrite <- IH; reflexivity].
  - reflexivity.
Qed.

Lemma append_assoc (a b c : string) : (a ++ b) ++ c = a ++ (b ++ c).
Proof. induction a as [|x a IH]; simpl; [reflexivity|rewrite IH; reflexivity]. Qed.

Lemma dimension_matches_skip (d s : string) :
  bracket_count d = O -> dimension_matches (d ++ s) = dimension_matches s.
Proof.
  induction d as [|c r IH]; simpl; [reflexivity|].
  destruct (Ascii.eqb c "["%char); simpl; [discriminate|exact IH].
Qed.

Lemma span_digits_bracket (txt s : string) :
  string_forallb is_digit txt = true ->
  span is_digit (txt ++ String "]" s) = (txt, String "]" s).
Proof.
  induction txt as [|c r IH]; simpl; [reflexivity|]; intro H.
  apply andb_true_iff in H; destruct H as [-> Hr]; rewrite (IH Hr); reflexivity.
Qed.

Lemma dimension_matches_group (txt s : string) :
  string_forallb is_digit txt = true ->
  dimension_matches (String "[" (txt ++ String "]" s)) = txt :: dimension_matches s.
Proof.
  intro H; cbn [dimension_matches Ascii.eqb Bool.eqb].
  rewrite (span_digits_bracket txt s H).
  change (txt ++ String "]" s) with (txt ++ (String "]" EmptyString ++ s)).
  rewrite <- append_assoc, dimension_matches_skip; [reflexivity|].
  rewrite bracket_count_app, (digits_no_bracket txt H); reflexivity.
Qed.

Lemma decimal_digits (z : Z) :
  0 <= z ->
  string_forallb is_digit (decimal z) = true
  /\ decimal z <> "" /\ digits_value 10 (decimal z) 0 = Some z.
Proof.
  intro H; destruct z as [|p|p]; [repeat split; discriminate| |lia].
  rewrite decimal_pos; split; [apply uint_digits|].
  split; [apply uint_text_nonempty|apply digits_value_pos].
Qed.

Lemma number_to_string_small (z : Z) :
  0 <= z < 9007199254740992 -> number_to_string (Num z) = decimal z.
Proof.
  intros [H0 H1]; unfold number_to_string, natural_to_string.
  destruct (Z.ltb_spec z 0); [lia|].
  destruct (Z.ltb_spec z 9007199254740992); [reflexivity|lia].
Qed.

(** The text of an exact dimension between its brackets, which the parser
    reads back as the dimension. *)
Lemma render_dimension_text (d : option number) :
  exact_dimension d ->
  exists txt,
    render_dimension d = String "[" (txt ++ String "]" EmptyString)
    /\ string_forallb is_digit txt = true
    /\ parse_dimension txt = d.
Proof.
  intros [->|(z & Hz & ->)].
  - exists EmptyString; repeat split.
  - destruct (decimal_digits z ltac:(lia)) as (D & NE & V).
    exists (decimal z); split; [|split; [exact D|]].
    + unfold render_dimension; rewrite (number_to_string_small z Hz); reflexivity.
    + destruct (parseInt_digits (decimal z) NE D) as (z' & _ & V' & P).
      unfold parse_dimension; destruct (decimal z); [congruence|].
      rewrite P; replace z' with z by congruence.
      rewrite (to_double_small z Hz); reflexivity.
Qed.

Lemma dimension_matches_rendered (l : list (option number)) :
  Forall exact_dimension l ->
  map parse_dimension (dimension_matches (join "" (map render_dimension l))) = l.
Proof.
  induction 1 as [|d r Hd _ IH]; [reflexivity|].
  cbn [map]; rewrite join_empty_cons.
  destruct (render_dimension_text d Hd) as (txt & -> & D & P).
  cbn [append]; rewrite append_assoc; cbn [append].
  rewrite (dimension_matches_group txt _ D); cbn [map]; rewrite P, IH; reflexivity.
Qed.

Lemma string_forallb_app (p : ascii -> bool) (a b : string) :
  string_forallb p (a ++ b) = string_forallb p a && string_forallb p b.
Proof.
  induction a as [|c r IH]; simpl; [reflexivity|].
  rewrite IH, andb_assoc; reflexivity.
Qed.

Lemma digit_no_terminator (c : ascii) :
  is_digit c = true -> negb (is_line_terminator c) = true.
Proof. ascii_cases c; intro H; try reflexivity; vm_compute in H; discriminate. Qed.

Lemma rendered_no_terminator (l : list (option number)) :
  Forall exact_dimension l ->
  string_forallb (fun x => negb (is_line_terminator x)) (join "" (map render_dimension l))
  = true.
Proof.
  induction 1 as [|d r Hd _ IH]; [reflexivity|].
  cbn [map]; rewrite join_empty_cons, string_forallb_app, IH, andb_true_r.
  destruct (render_dimension_text d Hd) as (txt & -> & D & _).
  cbn [string_forallb]; rewrite string_forallb_app.
  rewrite (string_forallb_impl _ _ txt digit_no_terminator D); reflexivity.
Qed.

Lemma last_char_app (a b : string) : b <> "" -> last_char (a ++ b) = last_char b.
Proof.
  intro NE; induction a as [|c r IH]; simpl; [reflexivity|].
  rewrite IH; destruct (r ++ b) eqn:E; [|reflexivity].
  destruct r; simpl in E; [congruence|discriminate].
Qed.

Lemma rendered_shape (d : option number) (l : list (option number)) :
  Forall exact_dimension (d :: l) ->
  exists x r,
    join "" (map render_dimension (d :: l)) = String "[" (String x r)
    /\ last_char (String "[" (String x r)) = Some "]"%char.
Proof.
  revert d; induction l as [|e l IH]; intros d H; inversion H as [|? ? Hd Hl]; subst.
  - destruct (render_dimension_text d Hd) as (txt & E & _ & _).
    cbn [map join]; rewrite E.
    destruct txt as [|c t]; cbn [append].
    + exists "]"%char, EmptyString; split; reflexivity.
    + exists c, (t ++ String "]" EmptyString); split; [reflexivity|].
      change (String "[" (String c (t ++ String "]" EmptyString)))
        with ((String "[" (String c t)) ++ String "]" EmptyString).
      rewrite last_char_app; [reflexivity|discriminate].
  - destruct (IH e Hl) as (x & r & E & L).
    cbn [map]; rewrite join_empty_cons.
    cbn [map] in E; rewrite E.
    destruct (render_dimension_text d Hd) as (txt & -> & _ & _).
    destruct txt as [|c t]; cbn [append].
    + exists "]"%char, (String "[" (String x r)); split; [reflexivity|].
      change (String "[" (String "]" (String "[" (String x r))))
        with ((String "[" (String "]" EmptyString)) ++ String "[" (String x r)).
      rewrite last_char_app; [exact L|discriminate].
    + exists c, (t ++ String "]" EmptyString ++ String "[" (String x r)).
      split; [rewrite append_assoc; reflexivity|].
      change (String "[" (String c (t ++ String "]" EmptyString ++ String "[" (String x r))))
        with ((String "[" (String c t)) ++ (String "]" EmptyString ++ String "[" (String x r))).
      rewrite last_char_app; [|discriminate].
      change (String "]" EmptyString ++ String "[" (String x r))
        with (String "]" EmptyString ++ String "[" (String x r)).
      rewrite last_char_app; [exact L|discriminate].
Qed.

Lemma split_at_bracket_prefix (a r : string) :
  bracket_count a = O ->
  split_at_bracket (a ++ String "[" r) = Some (a, String "[" r).
Proof.
  induction a as [|c a IH]; simpl; [reflexivity|].
  destruct (Ascii.eqb c "["%char); simpl; [discriminate|].
  intro H; rewrite (IH H); reflexivity.
Qed.

Lemma split_at_bracket_count (s a b : string) :
  split_at_bracket s = Some (a, b) -> bracket_count a = O.
Proof.
  revert a b; induction s as [|c r IH]; simpl; intros a b H; [discriminate|].
  destruct (Ascii.eqb c "["%char) eqn:E.
  - injection H as <- <-; reflexivity.
  - destruct (split_at_bracket r) as [[a' b']|]; [|discriminate].
    injection H as <- <-; simpl; rewrite E; apply (IH a' b' eq_refl).
Qed.

Lemma match_array_type_base (type g1 g2 : string) :
  match_array_type type = Some (g1, g2) ->
  exists c a, g1 = String c a /\ bracket_count a = O.
Proof.
  unfold match_array_type; destruct type as [|c t]; [discriminate|].
  destruct (negb _); [discriminate|].
  destruct (split_at_bracket t) as [[a b]|] eqn:S; [|discriminate].
  pose proof (split_at_bracket_count t a b S) as C.
  destruct b as [|b1 [|b2 b']]; try discriminate.
  destruct (last_char _) as [l|]; [|discriminate].
  intro M; exists c, a; split; [|exact C].
  ascii_cases l; try discriminate M; injection M as <- _; reflexivity.
Qed.

Lemma startsWith_tuple_bracket (c : ascii) (a : string) :
  bracket_count a = O -> startsWith (String c a) "tuple[" = false.
Proof.
  intro H; destruct (startsWith (String c a) "tuple[") eqn:E; [|reflexivity].
  destruct (startsWith_app _ _ E) as [r R]; injection R as _ ->.
  simpl in H; discriminate.
Qed.

(** Parsing a base type gives it back. *)
Lemma parseType_base (c : ascii) (a : string) :
  bracket_count a = O ->
  parseType (String c a)
  = mkParsedType (String c a) false [] (String.eqb (String c a) "tuple").
Proof.
  intro H; unfold parseType.
  assert (M : match_array_type (String c a) = None).
  { unfold match_array_type; destruct (negb _); [reflexivity|].
    rewrite (split_at_bracket_none a H); reflexivity. }
  rewrite M, (startsWith_tuple_bracket c a H), orb_false_r.
  destruct (String.eqb_spec (String c a) "tuple") as [->|]; reflexivity.
Qed.

(** X5.  The element type that the dispatcher, the normalizer and the
    denormalizer synthesize for an array type parses to the same base type
    with the dimensions after the first: an array of [T[d1]...[dn]] for
    [T[d0][d1]...[dn]], the base type itself for a single dimension.  This
    holds when the dimensions after the first are dynamic or below 2^53,
    the sizes that a Number holds exactly. *)
Theorem innerType_parses_to_remaining_dimensions (type : string)
    (Harray : isArray (parseType type) = true)
    (Hexact : Forall exact_dimension (tl (arrayDimensions (parseType type)))) :
  parseType (innerTypeOf (parseType type))
  = mkParsedType (baseType (parseType type))
      (1 <? List.length (arrayDimensions (parseType type)))%nat
      (tl (arrayDimensions (parseType type)))
      (isTuple (parseType type)).
Proof.
  pose proof (parseType_isTuple type) as T.
  unfold innerTypeOf.
  revert T Hexact Harray; unfold parseType.
  destruct (match_array_type type) as [[g1 g2]|] eqn:M;
    [|destruct (_ || _); discriminate].
  cbn [isTuple baseType isArray arrayDimensions]; intros T D' _.
  destruct (match_array_type_base type g1 g2 M) as (c & a & -> & C).
  destruct (match_array_type_full type _ g2 M) as (E & _ & _ & _ & NT).
  rewrite T; clear T.
  set (dims := map parse_dimension (dimension_matches g2)) in *.
  destruct (Nat.ltb_spec 1 (List.length dims)) as [G|G].
  - destruct dims as [|d0 [|d1 rest]]; try (simpl in G; lia).
    cbn [tl] in *.
    destruct (rendered_shape d1 rest D') as (x & r & R & L).
    assert (MA : match_array_type (String c a ++ join "" (map render_dimension (d1 :: rest)))
                 = Some (String c a, join "" (map render_dimension (d1 :: rest)))).
    { unfold match_array_type; cbn [append].
      change (String c (a ++ join "" (map render_dimension (d1 :: rest))))
        with (String c a ++ join "" (map render_dimension (d1 :: rest))).
      rewrite string_forallb_app, (rendered_no_terminator _ D'), andb_true_r.
      rewrite E, string_forallb_app in NT; apply andb_true_iff in NT.
      destruct NT as [-> _]; cbn [negb].
      rewrite R, (split_at_bracket_prefix a _ C), L; reflexivity. }
    rewrite MA, (dimension_matches_rendered _ D').
    f_equal.
    destruct (String.eqb _ "tuple" || startsWith _ "tuple[") eqn:F; [|reflexivity].
    rewrite (tuple_prefix_group _ _ _ F MA); reflexivity.
  - change (match match_array_type (String c a) with Some _ => _ | None => _ end)
      with (parseType (String c a)).
    rewrite (parseType_base c a C).
    destruct dims as [|d0 [|d1 rest]]; try (simpl in G; lia); reflexivity.
Qed.

Lemma innerType_parses_to_remaining_dimensions_witness :
  parseType (innerTypeOf (parseType "uint256[2][3][]"))
  = mkParsedType "uint256" true [Some (Num 3); None] false.
Proof.
  refine (innerType_parses_to_remaining_dimensions "uint256[2][3][]" eq_refl _).
  constructor; [right; exists 3; split; [lia|reflexivity]|].
  constructor; [left; reflexivity|constructor].
Defined.

(** From 1e21 on a size is printed in exponent form, and the element type
    is an array type with no dimension: "uint256[3][1000000000000000000000]"
    has the element type "uint256[1e+21]". *)
Example innerType_of_a_size_in_exponent_form :
  innerTypeOf (parseType "uint256[3][1000000000000000000000]") = "uint256[1e+21]"
  /\ isArray (parseType "uint256[1e+21]") = true
  /\ arrayDimensions (parseType "uint256[1e+21]") = [].
Proof. vm_compute; auto. Qed.

(** * Function tables *)

Lemma find_app {A} (p : A -> bool) (l r : list A) :
  find p (l ++ r)%list = match find p l with Some x => Some x | None => find p r end.
Proof.
  induction l as [|x l IH]; [reflexivity|].
  simpl; destruct (p x); [reflexivity|exact IH].
Qed.

Lemma find_signature_in (sig : string) (l : list AbiFunction) :
  In sig (map getFunctionSignature l) ->
  exists f, findFunctionBySignature sig l = Some f.
Proof.
  unfold findFunctionBySignature.
  induction l as [|x l IH]; [intros []|].
  simpl; intros [H|H].
  - rewrite H, String.eqb_refl; eauto.
  - destruct (String.eqb _ sig); eauto.
Qed.

Lemma find_signature_not_in (sig : string) (l : list AbiFunction) :
  ~ In sig (map getFunctionSignature l) ->
  findFunctionBySignature sig l = None.
Proof.
  unfold findFunctionBySignature.
  induction l as [|x l IH]; [reflexivity|].
  simpl; intros H.
  destruct (String.eqb_spec (getFunctionSignature x) sig) as [E|E].
  - exfalso; apply H; left; exact E.
  - apply IH; intro; apply H; right; assumption.
Qed.

Lemma existsb_eqb_in (k : string) (l : list string) :
  existsb (String.eqb k) l = true <-> In k l.
Proof.
  rewrite existsb_exists; split.
  - intros (x & I & E); apply String.eqb_eq in E; subst; exact I.
  - intros I; exists k; split; [exact I|apply String.eqb_refl].
Qed.

(** The loop of [tryDecodeCalldata], from any point on: the functions kept
    have distinct signatures, and a lookup by signature sees what it would
    see in the functions kept so far followed by the ones to come. *)
Lemma combine_functions_spec (functions : list AbiFunction) :
  forall seen acc,
    seen = map getFunctionSignature acc ->
    NoDup seen ->
    NoDup (map getFunctionSignature (combine_functions functions seen acc))
    /\ forall sig,
         findFunctionBySignature sig (combine_functions functions seen acc)
         = findFunctionBySignature sig (acc ++ functions)%list.
Proof.
  induction functions as [|func rest IH]; intros seen acc S N.
  - simpl; rewrite app_nil_r; subst; split; [exact N|reflexivity].
  - cbn [combine_functions].
    destruct (existsb (String.eqb (getFunctionSignature func)) seen) eqn:X.
    + destruct (IH seen acc S N) as [N' F]; split; [exact N'|].
      intro sig; rewrite F; unfold findFunctionBySignature; rewrite !find_app.
      destruct (find _ acc) eqn:G; [reflexivity|].
      cbn [find]; destruct (String.eqb_spec (getFunctionSignature func) sig) as [E|E];
        [|reflexivity].
      apply existsb_eqb_in in X; rewrite S, E in X.
      destruct (find_signature_in sig acc X) as (f & Hf).
      unfold findFunctionBySignature in Hf; congruence.
    + assert (NI : ~ In (getFunctionSignature func) seen).
      { intro I; apply existsb_eqb_in in I; congruence. }
      destruct (IH (seen ++ [getFunctionSignature func])%list (acc ++ [func])%list) as [N' F].
      * rewrite map_app, S; reflexivity.
      * apply NoDup_app; [exact N|repeat constructor; intros []|].
        intros a I [<-|[]]; exact (NI I).
      * split; [exact N'|].
        intro sig; rewrite F, <- app_assoc; reflexivity.
Qed.

(** X6.  The ABI that [tryDecodeCalldata] decodes against holds each
    signature once, and a lookup by signature finds in it the first
    function of that signature over all the given ABIs in order. *)
Theorem combined_abi_keeps_first (abis : list (list AbiFunction)) :
  NoDup (map getFunctionSignature (combineAbis abis))
  /\ forall sig,
       findFunctionBySignature sig (combineAbis abis)
       = findFunctionBySignature sig (concat abis).
Proof.
  unfold combineAbis.
  destruct (combine_functions_spec (concat abis) [] [] eq_refl (NoDup_nil _)) as [N F].
  split; [exact N|exact F].
Qed.

(** [Map.prototype.set] and the keys of the map. *)
Lemma map_set_keys {A} (k : string) (v : A) (m : list (string * A)) :
  map fst (map_set k v m)
  = if existsb (String.eqb k) (map fst m) then map fst m else (map fst m ++ [k])%list.
Proof.
  induction m as [|[k' v'] m IH]; [reflexivity|].
  cbn [map_set map fst existsb].
  destruct (String.eqb_spec k k') as [->|E]; [reflexivity|].
  cbn [map fst orb]; rewrite IH.
  destruct (existsb _ _); reflexivity.
Qed.

Lemma map_set_keys_NoDup {A} (k : string) (v : A) (m : list (string * A)) :
  NoDup (map fst m) -> NoDup (map fst (map_set k v m)).
Proof.
  intro N; rewrite map_set_keys.
  destruct (existsb _ _) eqn:X; [exact N|].
  apply NoDup_app; [exact N|repeat constructor; intros []|].
  intros a I [<-|[]].
  apply existsb_eqb_in in I; congruence.
Qed.

Lemma map_set_find {A} (k k' : string) (v : A) (m : list (string * A)) :
  option_map snd (find (fun kv => String.eqb (fst kv) k') (map_set k v m))
  = if String.eqb k k' then Some v
    else option_map snd (find (fun kv => String.eqb (fst kv) k') m).
Proof.
  induction m as [|[k1 v1] m IH].
  - cbn [map_set find fst]; destruct (String.eqb k k'); reflexivity.
  - cbn [map_set].
    destruct (String.eqb_spec k k1) as [->|E].
    + cbn [find fst]; destruct (String.eqb k1 k'); reflexivity.
    + cbn [find fst]; destruct (String.eqb_spec k1 k') as [->|E'].
      * apply String.eqb_neq in E; rewrite E; reflexivity.
      * exact IH.
Qed.

(** One loop of [getAvailableFunctions]: the later function of a signature
    replaces the earlier one. *)
Lemma add_functions_spec (fns : list AbiFunction) :
  forall m,
    NoDup (map fst m) ->
    Forall (fun kv => getFunctionSignature (snd kv) = fst kv) m ->
    let m' := add_functions fns m in
    NoDup (map fst m')
    /\ Forall (fun kv => getFunctionSignature (snd kv) = fst kv) m'
    /\ forall sig,
         option_map snd (find (fun kv => String.eqb (fst kv) sig) m')
         = match findFunctionBySignature sig (rev fns) with
           | Some f => Some f
           | None => option_map snd (find (fun kv => String.eqb (fst kv) sig) m)
           end.
Proof.
  unfold add_functions.
  induction fns as [|fn rest IH]; intros m N W.
  - cbn; auto.
  - cbn [fold_left rev].
    assert (W' : Forall (fun kv => getFunctionSignature (snd kv) = fst kv)
                   (map_set (getFunctionSignature fn) fn m)).
    { clear -W; induction m as [|[k1 v1] m IHm].
      - repeat constructor.
      - cbn [map_set]; destruct (String.eqb _ k1).
        + constructor; [reflexivity|exact (Forall_inv_tail W)].
        + constructor; [exact (Forall_inv W)|exact (IHm (Forall_inv_tail W))]. }
    destruct (IH _ (map_set_keys_NoDup _ fn m N) W') as (N1 & W1 & F1).
    refine (conj N1 (conj W1 _)).
    intro sig; rewrite F1; unfold findFunctionBySignature.
    rewrite find_app; destruct (find _ (rev rest)); [reflexivity|].
    rewrite map_set_find; cbn [find].
    destruct (String.eqb _ sig); reflexivity.
Qed.

Lemma table_lookup (m : list (string * AbiFunction)) (sig : string) :
  Forall (fun kv => getFunctionSignature (snd kv) = fst kv) m ->
  findFunctionBySignature sig (map snd m)
  = option_map snd (find (fun kv => String.eqb (fst kv) sig) m).
Proof.
  unfold findFunctionBySignature.
  induction m as [|[k v] m IH]; [reflexivity|].
  intro W; pose proof (Forall_inv W) as H; cbn [fst snd] in H.
  cbn [map find fst snd]; rewrite H.
  destruct (String.eqb k sig); [reflexivity|exact (IH (Forall_inv_tail W))].
Qed.

Lemma table_signatures (m : list (string * AbiFunction)) :
  Forall (fun kv => getFunctionSignature (snd kv) = fst kv) m ->
  map getFunctionSignature (map snd m) = map fst m.
Proof.
  induction 1 as [|kv m H _ IH]; [reflexivity|].
  cbn [map]; rewrite H, IH; reflexivity.
Qed.

(** X7.  The functions offered for a loaded contract hold each signature
    once, and the function offered under a signature is the last one
    declared with it, the proxy ABI coming after the logic ABI: a proxy
    function overrides the logic function of the same signature. *)
Theorem available_functions_proxy_overrides (abiResult : LoadAbiResult) :
  NoDup (map getFunctionSignature (getAvailableFunctions abiResult))
  /\ forall sig,
       findFunctionBySignature sig (getAvailableFunctions abiResult)
       = findFunctionBySignature sig (rev (logicAbi abiResult ++ proxyAbi abiResult)%list).
Proof.
  unfold getAvailableFunctions.
  destruct (add_functions_spec (logicAbi abiResult) [] (NoDup_nil _) (Forall_nil _))
    as (N1 & W1 & F1).
  destruct (add_functions_spec (proxyAbi abiResult) _ N1 W1) as (N2 & W2 & F2).
  split.
  - rewrite (table_signatures _ W2); exact N2.
  - intro sig; rewrite (table_lookup _ sig W2), F2, F1.
    rewrite rev_app_distr; unfold findFunctionBySignature; rewrite find_app.
    destruct (find _ (rev (proxyAbi abiResult))); [reflexivity|].
    destruct (find _ (rev (logicAbi abiResult))); reflexivity.
Qed.

(** * Signatures as text *)

Lemma split_at_last_paren_none (b : string) :
  string_forallb (fun c => negb (Ascii.eqb c "("%char)) b = true ->
  split_at_last_paren b = None.
Proof.
  induction b as [|c r IH]; [reflexivity|].
  cbn [string_forallb split_at_last_paren]; intro H; apply andb_true_iff in H.
  destruct H as [H1 H2]; rewrite (IH H2).
  destruct (Ascii.eqb c "("%char); [discriminate|reflexivity].
Qed.

Lemma split_at_last_paren_app (a b : string) :
  string_forallb (fun c => negb (Ascii.eqb c "("%char)) b = true ->
  split_at_last_paren (a ++ String "("%char b) = Some (a, b).
Proof.
  intro H; induction a as [|c r IH].
  - cbn [append split_at_last_paren]; rewrite (split_at_last_paren_none b H); reflexivity.
  - cbn [append split_at_last_paren]; rewrite IH; reflexivity.
Qed.

Lemma strip_closing_paren_app (b : string) : strip_closing_paren (b ++ ")") = Some b.
Proof.
  induction b as [|c r IH]; [reflexivity|].
  cbn [append]; change (strip_closing_paren (String c (r ++ ")")))
    with (match r ++ ")" with
          | EmptyString => if Ascii.eqb c ")"%char then Some EmptyString else None
          | String _ _ =>
              match strip_closing_paren (r ++ ")") with
              | Some r' => Some (String c r')
              | None => None
              end
          end).
  rewrite IH; destruct r; reflexivity.
Qed.

Lemma split_commas_plain (t : string) :
  string_forallb (fun c => negb (Ascii.eqb c ","%char)) t = true ->
  split_commas t = [t].
Proof.
  induction t as [|c r IH]; [reflexivity|].
  cbn [string_forallb split_commas]; intro H; apply andb_true_iff in H.
  destruct H as [H1 H2]; rewrite (IH H2).
  destruct (Ascii.eqb c ","%char); [discriminate|reflexivity].
Qed.

Lemma split_commas_app (t rest : string) :
  string_forallb (fun c => negb (Ascii.eqb c ","%char)) t = true ->
  split_commas (t ++ String ","%char rest) = t :: split_commas rest.
Proof.
  induction t as [|c r IH]; [reflexivity|].
  cbn [string_forallb append split_commas]; intro H; apply andb_true_iff in H.
  destruct H as [H1 H2]; rewrite (IH H2).
  destruct (Ascii.eqb c ","%char); [discriminate|reflexivity].
Qed.

Lemma signature_char_paren (c : ascii) :
  signature_char c = true -> negb (Ascii.eqb c "("%char) = true.
Proof. unfold signature_char; intro H; destruct (Ascii.eqb c "("%char); [discriminate|reflexivity]. Qed.

Lemma signature_char_comma (c : ascii) :
  signature_char c = true -> negb (Ascii.eqb c ","%char) = true.
Proof.
  unfold signature_char; intro H.
  destruct (Ascii.eqb c ","%char); [|reflexivity].
  rewrite andb_false_r in H; discriminate.
Qed.

Lemma signature_char_line (c : ascii) :
  signature_char c = true -> negb (is_line_terminator c) = true.
Proof.
  unfold signature_char; intro H.
  destruct (is_line_terminator c); [|reflexivity].
  rewrite andb_false_r in H; discriminate.
Qed.

Lemma plain_type_parts (t : string) :
  plain_type t = true ->
  t <> "" /\ string_forallb signature_char t = true /\ trim t = t.
Proof.
  unfold plain_type, is_empty; intro H.
  apply andb_true_iff in H; destruct H as [H H3].
  apply andb_true_iff in H; destruct H as [H1 H2].
  refine (conj _ (conj H2 _)).
  - intros ->; discriminate.
  - apply String.eqb_eq; exact H3.
Qed.

Lemma join_cons2 (sep x y : string) (r : list string) :
  join sep (x :: y :: r) = x ++ sep ++ join sep (y :: r).
Proof. reflexivity. Qed.

(** The text of a list of plain types, joined by commas, is made of
    signature characters and commas, and splits back into the list. *)
Lemma join_plain_types (types : list string) :
  Forall (fun t => plain_type t = true) types ->
  string_forallb (fun c => negb (Ascii.eqb c "("%char)) (join "," types) = true
  /\ string_forallb (fun c => negb (is_line_terminator c)) (join "," types) = true
  /\ (types <> [] -> split_commas (join "," types) = types /\ join "," types <> "").
Proof.
  induction 1 as [|t r Ht Hr IH];
    [refine (conj eq_refl (conj eq_refl _)); intro; congruence|].
  destruct (plain_type_parts t Ht) as (NE & SC & _).
  destruct IH as (P & L & S).
  destruct r as [|y r].
  - cbn [join]; refine (conj _ (conj _ _)).
    + exact (string_forallb_impl _ _ t signature_char_paren SC).
    + exact (string_forallb_impl _ _ t signature_char_line SC).
    + intros _; split; [|exact NE].
      apply split_commas_plain, (string_forallb_impl _ _ t signature_char_comma SC).
  - rewrite join_cons2; cbn [append].
    rewrite !string_forallb_app; cbn [string_forallb].
    rewrite P, L, (string_forallb_impl _ _ t signature_char_paren SC),
      (string_forallb_impl _ _ t signature_char_line SC).
    refine (conj eq_refl (conj eq_refl _)).
    intros _; split.
    + rewrite split_commas_app
        by exact (string_forallb_impl _ _ t signature_char_comma SC).
      destruct S as [-> _]; [discriminate|reflexivity].
    + destruct t; [congruence|discriminate].
Qed.

Lemma map_trim_plain (types : list string) :
  Forall (fun t => plain_type t = true) types -> map trim types = types.
Proof.
  induction 1 as [|t r Ht _ IH]; [reflexivity|].
  destruct (plain_type_parts t Ht) as (_ & _ & T).
  cbn [map]; rewrite T, IH; reflexivity.
Qed.

Lemma numbered_inputs_types (types : list string) :
  forall index, map p_type (numbered_inputs index types) = types.
Proof.
  induction types as [|t r IH]; intro index; [reflexivity|].
  cbn [numbered_inputs map p_type]; rewrite IH; reflexivity.
Qed.

(** X8.  The signature text of a function reads back: for a function
    with a name that is not empty and holds no line terminator, and with
    plain input types, the signature pattern of
    [decodeCalldataBySignature] gives back the name, the split of the
    parameter text gives back the input types, and the minimal ABI built
    from them declares a function of the same signature. *)
Theorem signature_reads_back (fn : AbiFunction)
    (Hname : fn_name fn <> "")
    (Hline : string_forallb (fun c => negb (is_line_terminator c)) (fn_name fn) = true)
    (Htypes : Forall (fun t => plain_type t = true) (map p_type (inputs fn))) :
  exists paramTypesStr,
    match_signature (getFunctionSignature fn) = Some (fn_name fn, paramTypesStr)
    /\ parameter_types_of paramTypesStr = map p_type (inputs fn)
    /\ getFunctionSignature (minimal_function (fn_name fn) (parameter_types_of paramTypesStr))
       = getFunctionSignature fn.
Proof.
  exists (join "," (map p_type (inputs fn))).
  destruct (join_plain_types _ Htypes) as (P & L & S).
  assert (T : parameter_types_of (join "," (map p_type (inputs fn)))
              = map p_type (inputs fn)).
  { unfold parameter_types_of, is_empty.
    destruct (map p_type (inputs fn)) as [|t r] eqn:E; [reflexivity|].
    destruct S as [S NE]; [discriminate|].
    destruct (String.eqb_spec (join "," (t :: r)) ""); [congruence|].
    rewrite S; apply map_trim_plain; exact Htypes. }
  refine (conj _ (conj T _)).
  - unfold match_signature, getFunctionSignature.
    cbn [append].
    rewrite string_forallb_app; cbn [string_forallb].
    rewrite string_forallb_app, Hline, L; cbn [string_forallb negb andb].
    change (is_line_terminator "("%char) with false.
    change (is_line_terminator ")"%char) with false.
    cbn [negb andb].
    rewrite split_at_last_paren_app.
    + destruct (fn_name fn) as [|c a]; [congruence|].
      rewrite strip_closing_paren_app; reflexivity.
    + rewrite string_forallb_app, P; reflexivity.
  - rewrite T; unfold getFunctionSignature, minimal_function.
    cbn [fn_name inputs]; rewrite numbered_inputs_types; reflexivity.
Qed.

Lemma signature_reads_back_witness :
  exists paramTypesStr,
    match_signature "approve(address,uint256)" = Some ("approve", paramTypesStr)
    /\ parameter_types_of paramTypesStr = ["address"; "uint256"]
    /\ getFunctionSignature (minimal_function "approve" (parameter_types_of paramTypesStr))
       = "approve(address,uint256)".
Proof.
  refine (signature_reads_back approve_function _ eq_refl _).
  - discriminate.
  - repeat constructor.
Defined.

(** * Validation and normalization *)

Section ValidThenNormal.

Variable JSON_parse : string -> option jsval.

Lemma catch_valid (m : comp ParameterValidationResult) (e : string) (v : jsval) :
  catch m (invalid e) = Done (valid v) -> m = Done (valid v).
Proof. destruct m; simpl; intro H; [exact H|discriminate|discriminate]. Qed.

Lemma validateArray_loop_normalizes (rec : callee) (nrec : normalizer)
    (elementType : string) (components : option (list AbiParameter)) :
  (forall s v, rec (Some s) elementType components = Done (valid v) ->
     exists w, nrec (VStr s) elementType components = Done w) ->
  (forall v, rec None elementType components <> Done (valid v)) ->
  forall items i acc v,
    validateArray_loop rec elementType components items i acc = Done (valid v) ->
    exists ws, normalize_items nrec elementType components items = Done ws.
Proof.
  intros Hs Hn items; induction items as [|x r IH]; intros i acc v; [exists []; reflexivity|].
  cbn [validateArray_loop normalize_items].
  destruct (text_of x) as [[s|]| |]; cbn [bind]; try discriminate.
  - destruct (rec (Some s) elementType components) as [[u|e]| |] eqn:R; cbn [bind];
      try discriminate.
    intro L; destruct (Hs s u R) as [w W]; destruct (IH _ _ _ L) as [ws Ws].
    cbn [of_text]; rewrite W; cbn [bind]; rewrite Ws; cbn [bind]; eauto.
  - pose proof Hn as Hn'.
    destruct (rec None elementType components) as [[u|e]| |]; cbn [bind];
      try discriminate.
    destruct (Hn' u eq_refl).
Qed.

Lemma validateTuple_loop_normalizes (rec : callee) (nrec : normalizer)
    (parsed : list (string * jsval)) (components : list AbiParameter) :
  (forall c, In c components ->
     (forall s v, rec (Some s) (p_type c) (p_components c) = Done (valid v) ->
        exists w, nrec (VStr s) (p_type c) (p_components c) = Done w)
     /\ (forall v, rec None (p_type c) (p_components c) <> Done (valid v))) ->
  forall acc v,
    validateTuple_loop rec parsed components acc = Done (valid v) ->
    exists ws, normalize_fields nrec (VObj parsed) components = Done ws.
Proof.
  induction components as [|c r IH]; intros H acc v; [exists []; reflexivity|].
  destruct (H c (or_introl eq_refl)) as [Hs Hn].
  assert (Hr : forall acc' v',
             validateTuple_loop rec parsed r acc' = Done (valid v') ->
             exists ws, normalize_fields nrec (VObj parsed) r = Done ws).
  { apply IH; intros c' Hc'; apply H; right; exact Hc'. }
  destruct (undefined_dec (get_prop parsed (p_name c))) as [U|NU].
  - rewrite (validateTuple_loop_undefined rec parsed c r acc U); discriminate.
  - rewrite (validateTuple_loop_step rec parsed c r acc NU).
    cbn [normalize_fields read_field bind field_text].
    destruct (text_of (get_prop parsed (p_name c))) as [[s|]| |] eqn:T; cbn [bind];
      try discriminate.
    + destruct (rec (Some s) (p_type c) (p_components c)) as [[u|e]| |] eqn:R;
        cbn [bind field_step]; try discriminate.
      intro L; destruct (Hs s u R) as [w W]; destruct (Hr _ _ L) as [ws Ws].
      destruct (get_prop parsed (p_name c)); try congruence;
        cbn [bind of_text]; rewrite W; cbn [bind]; rewrite Ws; cbn [bind];
        eauto.
    + pose proof Hn as Hn'.
      destruct (rec None (p_type c) (p_components c)) as [[u|e]| |];
        cbn [bind field_step]; try discriminate.
      destruct (Hn' u eq_refl).
Qed.

Lemma validateParameterType_body_normalizes (rec : callee) (nrec : normalizer)
    (value type : string) (components : option (list AbiParameter)) (v : jsval) :
  (forall t c, (measure t c < measure type components)%nat ->
     (forall s u, rec (Some s) t c = Done (valid u) -> exists w, nrec (VStr s) t c = Done w)
     /\ (forall u, rec None t c <> Done (valid u))) ->
  validateParameterType_body JSON_parse rec (Some value) type components = Done (valid v) ->
  exists w, normalizeParameterValue_body JSON_parse nrec (VStr value) type components = Done w.
Proof.
  intros H; unfold validateParameterType_body, normalizeParameterValue_body.
  destruct (isArray (parseType type)) eqn:A.
  - intro V; apply catch_valid in V.
    unfold normalize_array; unfold parse_or_raise in V.
    destruct (JSON_parse value) as [[ | | | | | | items | | ]|]; cbn [bind] in *;
      try discriminate.
    assert (L : exists i acc,
               validateArray_loop rec (innerTypeOf (parseType type)) components items i acc
               = Done (valid v)).
    { destruct (expectedLengthOf (parseType type)) as [n|]; [|eauto].
      destruct (length_differs items n); [discriminate|eauto]. }
    destruct L as (i & acc & L).
    destruct (H (innerTypeOf (parseType type)) components) as [Hs Hn].
    { pose proof (innerType_smaller type A); unfold measure; lia. }
    destruct (validateArray_loop_normalizes rec nrec _ _ Hs Hn items i acc v L) as [ws ->].
    cbn [bind]; eauto.
  - destruct (isTuple (parseType type)).
    + destruct components as [[|c cs]|]; try discriminate.
      intro V; apply catch_valid in V.
      unfold normalize_tuple; unfold parse_or_raise in V.
      destruct (JSON_parse value) as [[ | | | | | | | props | ]|]; cbn [bind] in *;
        try discriminate.
      destruct (validateTuple_loop_normalizes rec nrec props (c :: cs)) with (2 := V)
        as [ws ->]; [|cbn [bind]; eauto].
      intros c' Hc'; apply H, component_smaller, Hc'.
    + intros _.
      destruct components; cbn [bind];
        repeat match goal with
               | |- exists w, (if ?b then _ else _) = Done w => destruct b
               end; eauto.
Qed.

Lemma validateParameterType_required (type : string)
    (components : option (list AbiParameter)) (v : jsval) :
  validateParameterType JSON_parse None type components <> Done (valid v).
Proof. rewrite validateParameterType_unfold; discriminate. Qed.

Lemma validation_normalizes_below (n : nat) :
  forall value type components v,
    (measure type components < n)%nat ->
    validateParameterType JSON_parse (Some value) type components = Done (valid v) ->
    exists w, normalizeParameterValue JSON_parse (VStr value) type components = Done w.
Proof.
  induction n as [|n IH]; intros value type components v Hn; [lia|].
  rewrite validateParameterType_unfold, normalizeParameterValue_unfold.
  apply validateParameterType_body_normalizes; intros t c Hs; split.
  - intros s u; apply IH; lia.
  - intro u; apply validateParameterType_required.
Qed.

Lemma validation_normalizes (value type : string) (components : option (list AbiParameter))
    (v : jsval) :
  validateParameterType JSON_parse (Some value) type components = Done (valid v) ->
  exists w, normalizeParameterValue JSON_parse (VStr value) type components = Done w.
Proof. apply (validation_normalizes_below (S (measure type components))); lia. Qed.

(** X9.  A text that the dispatcher accepts for a type is a text that the
    normalizer turns into a value: after a successful validation, the
    normalizer neither throws nor loops, for arrays and tuples of any
    depth. *)
Theorem accepted_text_normalizes (value type : string)
    (components : option (list AbiParameter)) (v : jsval)
    (Hvalid : validateParameterType JSON_parse (Some value) type components
              = Done (valid v)) :
  exists w, normalizeParameterValue JSON_parse (VStr value) type components = Done w.
Proof. exact (validation_normalizes value type components v Hvalid). Qed.

End ValidThenNormal.

Lemma accepted_text_normalizes_witness :
  exists w, normalizeParameterValue parse_json (VStr "[1,2]") "uint256[2]" None = Done w.
Proof.
  refine (accepted_text_normalizes parse_json "[1,2]" "uint256[2]" None
            (VArr [VBigInt 1; VBigInt 2]) _).
  vm_compute; reflexivity.
Defined.

(** * Encoding and action assembly, as a whole *)

Lemma isValidAddress_lower (a : string) :
  isValidAddress a = true -> ADDRESS_REGEX (toLowerCase a) = true.
Proof.
  destruct a as [|c0 [|c1 r]]; try discriminate.
  - rewrite isValidAddress_head, andb_false_r; discriminate.
  - rewrite isValidAddress_head; cbn [toLowerCase]; rewrite ADDRESS_REGEX_head.
    rewrite lower_char_zero, lower_char_x, toLowerCase_length, toLowerCase_is_hex.
    intro H; apply andb_true_iff in H; destruct H as [-> H].
    apply andb_true_iff in H; destruct H as [H ->].
    apply andb_true_iff in H; destruct H as [-> ->]; reflexivity.
Qed.

Lemma findFunctionBySignature_some (sig : string) (abi : list AbiFunction)
    (func : AbiFunction) :
  findFunctionBySignature sig abi = Some func ->
  In func abi /\ getFunctionSignature func = sig.
Proof.
  unfold findFunctionBySignature; intro H; apply find_some in H.
  destruct H as [I E]; apply String.eqb_eq in E; auto.
Qed.

Lemma find_filter {A} (p q : A -> bool) (l : list A) :
  find q (filter p l) = find (fun x => p x && q x) l.
Proof.
  induction l as [|x l IH]; [reflexivity|].
  cbn [filter find]; destruct (p x); cbn [find andb]; [rewrite IH|exact IH]; reflexivity.
Qed.

(** ** The normalizer always comes to an end *)

Lemma assoc_Forall {A} (P : string * A -> Prop) (k : string) (l : list (string * A)) (a : A) :
  Forall P l -> assoc k l = Some a -> exists k', P (k', a).
Proof.
  induction 1 as [|[k1 a1] r H _ IH]; [discriminate|].
  cbn [assoc]; destruct (String.eqb k k1); [intros [= <-]; eauto|exact IH].
Qed.

Lemma parameter_value_object (props : list (string * jsval)) :
  parameter_value (VObj props) = true ->
  Forall (fun kv => parameter_value (snd kv) = true) props.
Proof.
  cbn [parameter_value]; induction props as [|[k x] r IH]; [constructor|].
  cbn [forallb]; intro H; apply andb_true_iff in H; destruct H as [Hx Hr].
  constructor; [exact Hx|exact (IH Hr)].
Qed.

Lemma js_String_object (props : list (string * jsval)) :
  Forall (fun kv => parameter_value (snd kv) = true) props ->
  js_String (VObj props) <> Stuck.
Proof.
  intro F; cbn [js_String].
  destruct (assoc "toString" props) as [x|] eqn:A; [|discriminate].
  destruct (assoc_Forall _ _ _ _ F A) as [k' Hx]; cbn [snd] in Hx.
  destruct x; try discriminate; discriminate Hx.
Qed.

(** [String] of a ParameterValue returns or throws. *)
Lemma js_String_parameter_value (v : jsval) :
  parameter_value v = true -> js_String v <> Stuck.
Proof.
  induction v as [ | | [] | t | z | s | items IH | props IH | n ] using jsval_nested_ind;
    intro D; try discriminate.
  - cbn [js_String]; cbn [parameter_value] in D.
    match goal with |- bind ?m _ <> _ => assert (E : m <> Stuck) end.
    { induction IH as [|x r Hx _ IHr]; [discriminate|].
      cbn [forallb] in D; apply andb_true_iff in D; destruct D as [Dx Dr].
      specialize (Hx Dx); specialize (IHr Dr).
      assert (X : match x with
                  | VUndefined | VNull => Done ""
                  | _ => js_String x
                  end <> Stuck) by (destruct x; try discriminate; exact Hx).
      match goal with |- bind ?m _ <> _ => destruct m as [sx| |] end; cbn [bind];
        [|discriminate|congruence].
      match goal with |- bind ?m _ <> _ => destruct m end; cbn [bind];
        [discriminate|discriminate|congruence]. }
    match goal with |- bind ?m _ <> _ => destruct m end; cbn [bind];
      [discriminate|discriminate|congruence].
  - apply js_String_object, parameter_value_object, D.
Qed.

(** What a parameter map of ParameterValues gives under a name has a
    text, or [String] throws for it. *)
Lemma get_prop_printable (params : list (string * jsval)) (k : string) :
  parameter_map params -> js_String (get_prop params k) <> Stuck.
Proof.
  intro F; unfold get_prop.
  destruct (assoc k params) as [x|] eqn:A.
  - destruct (assoc_Forall _ _ _ _ F A) as [k' Hx]; cbn [snd] in Hx.
    apply js_String_parameter_value, Hx.
  - destruct (String.eqb k "__proto__"); [discriminate|].
    destruct (existsb _ _); discriminate.
Qed.

Lemma read_field_settled (tupleValue : jsval) (name : string) :
  (json_value tupleValue = true \/ exists props, tupleValue = VObj props) ->
  read_field tupleValue name <> Stuck.
Proof.
  intros [J|[props ->]]; [|discriminate].
  destruct tupleValue; try discriminate J; discriminate.
Qed.

Lemma field_text_settled (r : field_read) : field_text r <> Stuck.
Proof. destruct r; [apply text_of_settled|discriminate]. Qed.

Section Settled.

Variable JSON_parse : string -> option jsval.
Hypothesis Hparse : parses_json JSON_parse.

Lemma normalize_items_settled (rec : normalizer) (innerType : string)
    (components : option (list AbiParameter)) :
  (forall v, js_String v <> Stuck -> rec v innerType components <> Stuck) ->
  forall items, normalize_items rec innerType components items <> Stuck.
Proof.
  intros H items; induction items as [|x r IH]; cbn [normalize_items]; [discriminate|].
  pose proof (text_of_settled x) as T.
  destruct (text_of x) as [t| |]; cbn [bind]; [|discriminate|congruence].
  assert (R : rec (of_text t) innerType components <> Stuck)
    by (apply H; destruct t; discriminate).
  destruct (rec (of_text t) innerType components); cbn [bind]; [|discriminate|congruence].
  destruct (normalize_items rec innerType components r); cbn [bind];
    [discriminate|discriminate|congruence].
Qed.

Lemma normalize_fields_settled (rec : normalizer) (tupleValue : jsval)
    (components : list AbiParameter) :
  (forall name, read_field tupleValue name <> Stuck) ->
  (forall c, In c components ->
     forall v, js_String v <> Stuck -> rec v (p_type c) (p_components c) <> Stuck) ->
  normalize_fields rec tupleValue components <> Stuck.
Proof.
  intros Hread; induction components as [|c r IH]; intro H; cbn [normalize_fields];
    [discriminate|].
  pose proof (Hread (p_name c)) as Rd.
  destruct (read_field tupleValue (p_name c)) as [compValue| |]; cbn [bind];
    [|discriminate|congruence].
  assert (K : (compValueStr <- field_text compValue ;;
               v <- rec (of_text compValueStr) (p_type c) (p_components c) ;;
               vs <- normalize_fields rec tupleValue r ;;
               Done (v :: vs)) <> Stuck).
  { pose proof (field_text_settled compValue) as T.
    destruct (field_text compValue) as [t| |]; cbn [bind]; [|discriminate|congruence].
    assert (R : rec (of_text t) (p_type c) (p_components c) <> Stuck)
      by (apply (H c (or_introl eq_refl)); destruct t; discriminate).
    destruct (rec (of_text t) (p_type c) (p_components c)); cbn [bind];
      [|discriminate|congruence].
    assert (Rr : normalize_fields rec tupleValue r <> Stuck)
      by (apply IH; intros c' Hc'; apply H; right; exact Hc').
    destruct (normalize_fields rec tupleValue r); cbn [bind];
      [discriminate|discriminate|congruence]. }
  destruct compValue as [[]|json]; try exact K; discriminate.
Qed.

Lemma normalizeParameterValue_body_settled (rec : normalizer) (value : jsval)
    (type : string) (components : option (list AbiParameter)) :
  (forall t c, (measure t c < measure type components)%nat ->
     forall v, js_String v <> Stuck -> rec v t c <> Stuck) ->
  js_String value <> Stuck ->
  normalizeParameterValue_body JSON_parse rec value type components <> Stuck.
Proof.
  intros H V; unfold normalizeParameterValue_body.
  destruct (isArray (parseType type)) eqn:A.
  - unfold normalize_array.
    assert (I : forall items,
               (vs <- normalize_items rec (innerTypeOf (parseType type)) components items ;;
                Done (VArr vs)) <> Stuck).
    { intro items.
      pose proof (normalize_items_settled rec (innerTypeOf (parseType type)) components) as N.
      specialize (N ltac:(intros v Hv; apply H;
                          [pose proof (innerType_smaller type A); unfold measure; lia
                          |exact Hv]) items).
      destruct (normalize_items _ _ _ items); cbn [bind];
        [discriminate|discriminate|congruence]. }
    destruct value as [ | | | | | text | items | | ]; cbn [bind]; try discriminate;
      [|apply I].
    destruct (JSON_parse text) as [[ | | | | | | items | | ]|]; cbn [bind];
      try discriminate; apply I.
  - assert (Sc : (stringValue <- match value with
                                 | VStr s => Done s
                                 | _ => js_String value
                                 end ;;
                  if String.eqb (baseType (parseType type)) "address"
                  then Done (VStr (toLowerCase stringValue))
                  else if startsWith (baseType (parseType type)) "uint"
                          || startsWith (baseType (parseType type)) "int"
                  then Done (VStr stringValue)
                  else if String.eqb (baseType (parseType type)) "bool"
                  then Done (VBool (String.eqb (toLowerCase stringValue) "true"))
                  else if String.eqb (baseType (parseType type)) "bytes"
                          || startsWith (baseType (parseType type)) "bytes"
                  then Done (VStr stringValue)
                  else if String.eqb (baseType (parseType type)) "string"
                  then Done (VStr stringValue)
                  else Done (VStr stringValue)) <> Stuck).
    { assert (S : match value with
                  | VStr s => Done s
                  | _ => js_String value
                  end <> Stuck) by (destruct value; try exact V; discriminate).
      destruct (match value with VStr s => Done s | _ => js_String value end);
        cbn [bind]; [|discriminate|congruence].
      repeat match goal with
             | |- (if ?b then _ else _) <> Stuck => destruct b
             end; discriminate. }
    destruct (isTuple (parseType type)); [|exact Sc].
    destruct components as [cs|]; [|exact Sc].
    unfold normalize_tuple.
    assert (F : forall tupleValue,
               (json_value tupleValue = true \/ exists props, tupleValue = VObj props) ->
               (vs <- normalize_fields rec tupleValue cs ;; Done (VArr vs)) <> Stuck).
    { intros tupleValue J.
      assert (N : normalize_fields rec tupleValue cs <> Stuck).
      { apply normalize_fields_settled.
        - intro name; apply read_field_settled, J.
        - intros c Hc v Hv; apply H; [apply component_smaller, Hc|exact Hv]. }
      destruct (normalize_fields rec tupleValue cs); cbn [bind];
        [discriminate|discriminate|congruence]. }
    destruct value as [ | | | | | text | | props | ]; cbn [bind]; try discriminate.
    + destruct (JSON_parse text) as [v|] eqn:P; cbn [bind]; [|discriminate].
      apply F; left; exact (Hparse text v P).
    + apply F; right; eauto.
Qed.

Lemma normalizeParameterValue_settled_below (n : nat) :
  forall value type components,
    (measure type components < n)%nat ->
    js_String value <> Stuck ->
    normalizeParameterValue JSON_parse value type components <> Stuck.
Proof.
  induction n as [|n IH]; intros value type components Hn V; [lia|].
  rewrite normalizeParameterValue_unfold.
  apply normalizeParameterValue_body_settled; [|exact V].
  intros t c Hs v Hv; apply IH; [lia|exact Hv].
Qed.

(** With a [JSON.parse] that returns JSON values, the normalizer returns
    or throws for every value that [String] returns or throws for. *)
Lemma normalizeParameterValue_settled (value : jsval) (type : string)
    (components : option (list AbiParameter)) :
  js_String value <> Stuck ->
  normalizeParameterValue JSON_parse value type components <> Stuck.
Proof.
  apply (normalizeParameterValue_settled_below (S (measure type components))); lia.
Qed.

Lemma prepare_settled (params : list (string * jsval)) :
  parameter_map params ->
  forall inputs, prepareParametersForEncoding JSON_parse params inputs <> Stuck.
Proof.
  intros F inputs; induction inputs as [|p r IH]; cbn [prepareParametersForEncoding];
    [discriminate|].
  pose proof (normalizeParameterValue_settled (get_prop params (p_name p)) (p_type p)
                (p_components p) (get_prop_printable params (p_name p) F)) as N.
  assert (K : (v <- normalizeParameterValue JSON_parse (get_prop params (p_name p))
                      (p_type p) (p_components p) ;;
               vs <- prepareParametersForEncoding JSON_parse params r ;;
               Done (v :: vs)) <> Stuck).
  { destruct (normalizeParameterValue _ _ _ _); cbn [bind]; [|discriminate|congruence].
    destruct (prepareParametersForEncoding JSON_parse params r); cbn [bind];
      [discriminate|discriminate|congruence]. }
  destruct (get_prop params (p_name p)); try exact K; discriminate.
Qed.

End Settled.

Section Assembly.

Variable JSON_parse : string -> option jsval.
Variable encodeFunctionData : AbiFunction -> list jsval -> comp string.

(** After the parameter loop of [buildAction] has passed, the
    preparation of the same texts for the codec succeeds. *)
Lemma validated_inputs_prepare (params : list (string * jsval))
    (inputs : list AbiParameter) :
  text_parameters params inputs ->
  validate_inputs JSON_parse params inputs = Done None ->
  exists args, prepareParametersForEncoding JSON_parse params inputs = Done args.
Proof.
  induction 1 as [|p r Hp _ IH]; [exists []; reflexivity|].
  destruct (undefined_dec (get_prop params (p_name p))) as [U|NU].
  - rewrite (validate_inputs_undefined JSON_parse params p r U); discriminate.
  - rewrite (validate_inputs_step JSON_parse params p r NU).
    cbn [prepareParametersForEncoding]; cbv beta in Hp.
    destruct (get_prop params (p_name p)) as [ | | | | | s | | | ];
      try discriminate.
    cbn [parameter_text bind].
    destruct (validateParameterType JSON_parse (Some s) (p_type p) (p_components p))
      as [[v|e]| |] eqn:V; cbn [bind]; try discriminate.
    intro R; destruct (IH R) as [args ->].
    destruct (validation_normalizes JSON_parse s _ _ v V) as [w ->].
    cbn [bind]; eauto.
Qed.

(** X10.  [encodeCalldata] on a parameter map of ParameterValues, with
    a [JSON.parse] that returns JSON values and a codec that returns or
    throws, always returns a result: it never throws.  An unknown
    signature is the failure FUNCTION_NOT_FOUND, and whatever the
    preparation of the parameters or the codec throws is the failure
    ENCODING_FAILED with the thrown message; a success carries the
    requested signature and the calldata the codec gave for the prepared
    parameters of the function found. *)
Theorem encodeCalldata_outcome (abi : list AbiFunction) (functionSignature : string)
    (parameters : list (string * jsval))
    (Hparse : parses_json JSON_parse)
    (Hcodec : forall func args, encodeFunctionData func args <> Stuck)
    (Hvalues : parameter_map parameters) :
  exists result,
    encodeCalldata JSON_parse encodeFunctionData abi functionSignature parameters
    = Done result
    /\ match result with
       | success data =>
           enc_functionSignature data = functionSignature
           /\ exists func args,
                findFunctionBySignature functionSignature abi = Some func
                /\ prepareParametersForEncoding JSON_parse parameters (inputs func)
                   = Done args
                /\ encodeFunctionData func args = Done (enc_calldata data)
       | failure error =>
           (findFunctionBySignature functionSignature abi = None
            /\ error = mkActionBuilderError ("Function not found: " ++ functionSignature)
                         FUNCTION_NOT_FOUND)
           \/ (exists func e,
                 findFunctionBySignature functionSignature abi = Some func
                 /\ (prepareParametersForEncoding JSON_parse parameters (inputs func)
                     = Raise e
                     \/ exists args,
                          prepareParametersForEncoding JSON_parse parameters (inputs func)
                          = Done args
                          /\ encodeFunctionData func args = Raise e)
                 /\ error = mkActionBuilderError ("Failed to encode calldata: " ++ e)
                              ENCODING_FAILED)
       end.
Proof.
  unfold encodeCalldata.
  destruct (findFunctionBySignature functionSignature abi) as [func|] eqn:F;
    [|eexists; split; [reflexivity|left; split; reflexivity]].
  destruct (findFunctionBySignature_some _ _ _ F) as [_ S].
  pose proof (prepare_settled JSON_parse Hparse parameters Hvalues (inputs func)) as Hp.
  destruct (prepareParametersForEncoding JSON_parse parameters (inputs func))
    as [args|e|] eqn:P; cbn [bind]; [| |congruence].
  - pose proof (Hcodec func args) as Hc.
    destruct (encodeFunctionData func args) as [calldata|e|] eqn:C; cbn [bind];
      [| |congruence].
    + eexists; split; [reflexivity|].
      split; [exact S|]; exists func, args; auto.
    + eexists; split; [reflexivity|].
      right; exists func, e; split; [reflexivity|split; [right; eauto|reflexivity]].
  - eexists; split; [reflexivity|].
    right; exists func, e; auto.
Qed.

(** X11.  [validateFunctionParameters] reports exactly the names of the
    declared inputs that read as [undefined] in the parameter map; it
    answers valid exactly when there is none; and when it does not,
    neither [encodeCalldata] nor [buildAction] succeeds for that
    function. *)
Theorem missing_parameters_block_encoding (func : AbiFunction)
    (params : list (string * jsval)) :
  (forall name,
     In name (missing (validateFunctionParameters func params))
     <-> exists p, In p (inputs func) /\ p_name p = name
                   /\ get_prop params name = VUndefined)
  /\ (all_present (validateFunctionParameters func params) = true
      <-> forall p, In p (inputs func) -> get_prop params (p_name p) <> VUndefined)
  /\ (all_present (validateFunctionParameters func params) = false ->
      forall abi sig,
        findFunctionBySignature sig abi = Some func ->
        (forall data,
           encodeCalldata JSON_parse encodeFunctionData abi sig params
           <> Done (success data))
        /\ (forall address value action,
              buildAction JSON_parse encodeFunctionData
                (mkBuildActionInput address sig params abi value)
              <> Done (success action))).
Proof.
  unfold validateFunctionParameters; cbn [missing all_present].
  set (undefined := fun p : AbiParameter =>
                      match get_prop params (p_name p) with
                      | VUndefined => true
                      | _ => false
                      end).
  assert (U : forall p, undefined p = true <-> get_prop params (p_name p) = VUndefined).
  { intro p; unfold undefined; destruct (get_prop params (p_name p));
      split; congruence. }
  assert (E : List.length (map p_name (filter undefined (inputs func))) = O
              <-> forall p, In p (inputs func) -> get_prop params (p_name p) <> VUndefined).
  { rewrite length_map; split.
    - intros L p Hp G; apply U in G.
      assert (Hin : In p (filter undefined (inputs func))) by (apply filter_In; auto).
      destruct (filter undefined (inputs func)); [destruct Hin|discriminate].
    - intro A; destruct (filter undefined (inputs func)) as [|p r] eqn:Fl; [reflexivity|].
      assert (Hin : In p (filter undefined (inputs func))) by (rewrite Fl; left; reflexivity).
      apply filter_In in Hin; destruct Hin as [Hin G].
      apply U in G; destruct (A p Hin G). }
  refine (conj _ (conj _ _)).
  - intro name; rewrite in_map_iff; split.
    + intros (p & <- & Hin); apply filter_In in Hin; destruct Hin as [Hin G].
      apply U in G; eauto.
    + intros (p & Hin & <- & G); exists p; split; [reflexivity|].
      apply filter_In; split; [exact Hin|apply U, G].
  - rewrite Nat.eqb_eq; exact E.
  - intro N; apply Nat.eqb_neq in N.
    assert (M : exists p, In p (inputs func) /\ get_prop params (p_name p) = VUndefined).
    { destruct (filter undefined (inputs func)) as [|p r] eqn:Fl; [destruct N; reflexivity|].
      assert (Hin : In p (filter undefined (inputs func))) by (rewrite Fl; left; reflexivity).
      apply filter_In in Hin; destruct Hin as [Hin G]; apply U in G; eauto. }
    intros l sig F; split.
    + intro data; unfold encodeCalldata; rewrite F.
      assert (P : forall args,
                 prepareParametersForEncoding JSON_parse params (inputs func) <> Done args).
      { clear -M; induction (inputs func) as [|x r IH]; intro args.
        - destruct M as (p & [] & _).
        - cbn [prepareParametersForEncoding].
          destruct M as (p & [->|Hin] & G).
          + rewrite G; discriminate.
          + destruct (get_prop params (p_name x)); try discriminate;
              (destruct (normalizeParameterValue _ _ _ _) as [w| |]; cbn [bind];
               try discriminate;
               destruct (prepareParametersForEncoding JSON_parse params r) as [ws| |] eqn:R;
               cbn [bind]; try discriminate;
               destruct (IH (ex_intro _ p (conj Hin G)) ws); reflexivity). }
      destruct (prepareParametersForEncoding JSON_parse params (inputs func))
        as [args|e|]; cbn [bind]; try discriminate.
      destruct (P args eq_refl).
    + intros address value action.
      unfold buildAction; cbn [contractAddress functionSignature parameters abi native_value].
      destruct (negb (isValidAddress address)); [discriminate|].
      rewrite F.
      pose proof (validate_inputs_absent JSON_parse params (inputs func) M) as A.
      destruct (validate_inputs _ _ (inputs func)) as [[e|]| |]; cbn [bind];
        try discriminate; congruence.
Qed.

(** X12.  [buildAction] on parameters given as texts, with a codec that
    returns or throws.  It never throws.  A failure has one of four codes;
    ENCODING_FAILED is then the codec's own error: once the parameter loop
    has passed, the preparation of the parameters cannot fail.  A success
    carries an address matching ADDRESS_REGEX, the requested signature, and
    an abi holding one function of the input's ABI with that signature. *)
Theorem buildAction_text_parameters (input : BuildActionInput)
    (Hcodec : forall func args, encodeFunctionData func args <> Stuck)
    (Htext : forall func,
        findFunctionBySignature (functionSignature input) (abi input) = Some func ->
        text_parameters (parameters input) (inputs func)) :
  (exists error,
     buildAction JSON_parse encodeFunctionData input = Done (failure error)
     /\ In (error_code error) buildAction_codes
     /\ (error_code error = ENCODING_FAILED ->
         exists func args e,
           encodeFunctionData func args = Raise e
           /\ message error = "Failed to encode calldata: " ++ e))
  \/ (exists action func,
        buildAction JSON_parse encodeFunctionData input = Done (success action)
        /\ In func (abi input)
        /\ getFunctionSignature func = functionSignature input
        /\ ADDRESS_REGEX (act_contractAddress action) = true
        /\ act_contractAddress action = toLowerCase (contractAddress input)
        /\ act_functionSignature action = functionSignature input
        /\ act_functionName action = fn_name func
        /\ act_abi action = [func]
        /\ act_value action = native_value input).
Proof.
  unfold buildAction.
  destruct (isValidAddress (contractAddress input)) eqn:A; cbn [negb].
  2:{ left; eexists; split; [reflexivity|]; split; [left; reflexivity|discriminate]. }
  destruct (findFunctionBySignature (functionSignature input) (abi input)) as [func|] eqn:F.
  2:{ left; eexists; split; [reflexivity|]; split;
        [right; left; reflexivity|discriminate]. }
  destruct (findFunctionBySignature_some _ _ _ F) as [Hin S].
  assert (V : exists r, validate_inputs JSON_parse (parameters input) (inputs func) = Done r
                        /\ match r with
                           | Some e => error_code e = INVALID_PARAMETER
                           | None => True
                           end).
  { pose proof (Htext func eq_refl) as T; clear -T.
    induction T as [|p r Hp _ IH]; [exists None; split; [reflexivity|exact I]|].
    destruct (undefined_dec (get_prop (parameters input) (p_name p))) as [U|NU].
    - rewrite (validate_inputs_undefined JSON_parse _ p r U); eexists; split;
        [reflexivity|reflexivity].
    - rewrite (validate_inputs_step JSON_parse _ p r NU); cbv beta in Hp.
      destruct (get_prop (parameters input) (p_name p)) as [ | | | | | s | | | ];
        try discriminate; [congruence|].
      cbn [parameter_text bind].
      destruct (validateParameterType_total JSON_parse (Some s) (p_type p) (p_components p))
        as [[v|e] ->]; cbn [bind]; [exact IH|].
      eexists; split; reflexivity. }
  destruct V as ([e|] & V & C); rewrite V; cbn [bind].
  { left; exists e; split; [reflexivity|]; rewrite C; split;
      [right; right; left; reflexivity|discriminate]. }
  destruct (validated_inputs_prepare _ _ (Htext func eq_refl) V) as [args P].
  unfold encodeCalldata; rewrite F, P; cbn [bind].
  pose proof (Hcodec func args) as Hc.
  destruct (encodeFunctionData func args) as [calldata|e|] eqn:E; cbn [bind];
    [| |congruence].
  - right; eexists; exists func; split; [reflexivity|].
    cbn [act_contractAddress act_functionSignature act_functionName act_abi act_value
         enc_functionSignature].
    rewrite (isValidAddress_lower _ A); auto 10.
  - left; eexists; split; [reflexivity|]; cbn [error_code message]; split.
    + right; right; right; left; reflexivity.
    + intros _; exists func, args, e; auto.
Qed.

(** X13.  [encodeCalldataByName] never throws; it encodes with the first
    function of the ABI that has the given name and as many inputs as
    there are parameters, and answers that function's signature; with no
    such function the failure is FUNCTION_NOT_FOUND, and what the codec
    throws is the failure ENCODING_FAILED. *)
Theorem encodeCalldataByName_first_overload (abi : list AbiFunction)
    (functionName : string) (parameters : list jsval) :
  match find (fun fn => String.eqb (fn_name fn) functionName
                        && Nat.eqb (List.length (inputs fn)) (List.length parameters)) abi
  with
  | Some func =>
      match encodeFunctionData func parameters with
      | Done calldata =>
          encodeCalldataByName encodeFunctionData abi functionName parameters
          = Done (success (mkEncodeCalldataResult calldata (getFunctionSignature func)))
      | Raise e =>
          encodeCalldataByName encodeFunctionData abi functionName parameters
          = Done (failure (mkActionBuilderError ("Failed to encode calldata: " ++ e)
                             ENCODING_FAILED))
      | Stuck => True
      end
  | None =>
      exists error,
        encodeCalldataByName encodeFunctionData abi functionName parameters
        = Done (failure error)
        /\ error_code error = FUNCTION_NOT_FOUND
  end.
Proof.
  unfold encodeCalldataByName; rewrite find_filter.
  destruct (find _ abi) as [func|] eqn:F.
  - assert (L : Nat.eqb (List.length (filter (fun fn => String.eqb (fn_name fn) functionName)
                                         abi)) 0 = false).
    { apply find_some in F; destruct F as [Hin Q].
      apply andb_true_iff in Q; destruct Q as [Q _].
      assert (Hf : In func (filter (fun fn => String.eqb (fn_name fn) functionName) abi))
        by (apply filter_In; auto).
      destruct (filter _ abi); [destruct Hf|reflexivity]. }
    rewrite L.
    destruct (encodeFunctionData func parameters); cbn [bind]; auto.
  - destruct (Nat.eqb _ 0); eexists; split; reflexivity.
Qed.

End Assembly.

Lemma buildAction_text_parameters_witness :
  (exists error,
     buildAction parse_json transfer_codec (transfer_input transfer_parameters)
     = Done (failure error)
     /\ In (error_code error) buildAction_codes
     /\ (error_code error = ENCODING_FAILED ->
         exists func args e,
           transfer_codec func args = Raise e
           /\ message error = "Failed to encode calldata: " ++ e))
  \/ (exists action func,
        buildAction parse_json transfer_codec (transfer_input transfer_parameters)
        = Done (success action)
        /\ In func (abi (transfer_input transfer_parameters))
        /\ getFunctionSignature func = functionSignature (transfer_input transfer_parameters)
        /\ ADDRESS_REGEX (act_contractAddress action) = true
        /\ act_contractAddress action
           = toLowerCase (contractAddress (transfer_input transfer_parameters))
        /\ act_functionSignature action
           = functionSignature (transfer_input transfer_parameters)
        /\ act_functionName action = fn_name func
        /\ act_abi action = [func]
        /\ act_value action = native_value (transfer_input transfer_parameters)).
Proof.
  apply (buildAction_text_parameters parse_json transfer_codec
           (transfer_input transfer_parameters)).
  - intros func args; discriminate.
  - intros func H; vm_compute in H; injection H as <-.
    repeat constructor.
Defined.

(** * Hints, arrays and display texts *)

Lemma validateUint_valid_range (value : string) (bits : Z) (v : jsval) :
  validateUint value bits = Done (valid v) ->
  exists N, v = VBigInt N /\ 0 <= bits /\ 0 <= N <= 2 ^ bits - 1.
Proof.
  unfold validateUint, bigint_pow; destruct (_ || _); [discriminate|].
  destruct (BigInt value) as [num| |]; cbn [bind catch]; try discriminate.
  destruct (Z.ltb_spec num 0); [discriminate|].
  destruct (Z.ltb_spec bits 0); cbn [bind catch]; [discriminate|].
  destruct (Z.gtb_spec num (2 ^ bits - 1)); [discriminate|].
  intros [= <-]; exists num; repeat split; lia.
Qed.

Lemma validateInt_valid_range (value : string) (bits : Z) (v : jsval) :
  validateInt value bits = Done (valid v) ->
  exists N, v = VBigInt N /\ 0 < bits /\ - 2 ^ (bits - 1) <= N <= 2 ^ (bits - 1) - 1.
Proof.
  unfold validateInt, bigint_pow; destruct (_ || _); [discriminate|].
  destruct (BigInt value) as [num| |]; cbn [bind catch]; try discriminate.
  destruct (Z.ltb_spec (bits - 1) 0); cbn [bind catch]; [discriminate|].
  destruct (Z.gtb_spec num (2 ^ (bits - 1) - 1)); cbn [orb]; [discriminate|].
  destruct (Z.ltb_spec num (- 2 ^ (bits - 1))); [discriminate|].
  intros [= <-]; exists num; repeat split; lia.
Qed.

Lemma validateBytes_valid (value : string) (fixedLength : option number) (v : jsval) :
  validateBytes value fixedLength = valid v -> v = VStr value.
Proof.
  unfold validateBytes.
  destruct (is_empty value); [discriminate|].
  destruct (negb (startsWith value "0x")); [discriminate|].
  destruct (negb (HEX_STRING_REGEX value)); [discriminate|].
  destruct fixedLength as [n|]; [|congruence].
  destruct (byteLength_differs value n); [discriminate|].
  destruct (byteLength_exceeds_32 value); [discriminate|congruence].
Qed.

Lemma validateAddress_valid (value : string) (v : jsval) :
  validateAddress value = valid v ->
  v = VStr (toLowerCase value) /\ ADDRESS_REGEX (toLowerCase value) = true.
Proof.
  unfold validateAddress.
  destruct (is_empty value); [discriminate|].
  destruct (ADDRESS_REGEX (toLowerCase value)); [|discriminate].
  cbn [negb]; intros [= <-]; auto.
Qed.

Lemma validateBool_valid (value : string) (v : jsval) :
  validateBool value = valid v -> exists b, v = VBool b.
Proof.
  unfold validateBool.
  destruct (String.eqb _ "true"); [intros [= <-]; eauto|].
  destruct (String.eqb _ "false"); [intros [= <-]; eauto|discriminate].
Qed.

Section Display.

Variable JSON_parse : string -> option jsval.

(** The dispatcher on a type that is neither an array nor a tuple. *)
Lemma validateParameterType_scalar (value type : string)
    (components : option (list AbiParameter)) :
  isArray (parseType type) = false ->
  isTuple (parseType type) = false ->
  validateParameterType JSON_parse (Some value) type components
  = let base := baseType (parseType type) in
    if String.eqb base "address" then Done (validateAddress value)
    else if startsWith base "uint" then
      validateUint value (or_256 (parseInt (slice 4 base) None))
    else if startsWith base "int" then
      validateInt value (or_256 (parseInt (slice 3 base) None))
    else if String.eqb base "bool" then Done (validateBool value)
    else if String.eqb base "bytes" then Done (validateBytes value None)
    else if startsWith base "bytes" then
      Done (validateBytes value (Some (parseInt (slice 5 base) None)))
    else if String.eqb base "string" then Done (validateString value)
    else Done (valid (VStr value)).
Proof.
  intros A T; rewrite validateParameterType_unfold.
  unfold validateParameterType_body; rewrite A, T; reflexivity.
Qed.

(** X14.  The display text of a validated scalar validates to the same
    value: for a type that is neither an array nor a tuple, the
    denormalizer turns the normalized value of an accepted text into a text
    that the dispatcher accepts with the same normalized value. *)
Theorem scalar_display_round_trip (value type : string)
    (components : option (list AbiParameter)) (v : jsval)
    (Harray : isArray (parseType type) = false)
    (Htuple : isTuple (parseType type) = false)
    (Hvalid : validateParameterType JSON_parse (Some value) type components
              = Done (valid v)) :
  exists text,
    denormalizeParameterValue v type components = Done text
    /\ validateParameterType JSON_parse (Some text) type components = Done (valid v).
Proof.
  assert (Same : v = VStr value ->
                 exists text,
                   denormalizeParameterValue v type components = Done text
                   /\ validateParameterType JSON_parse (Some text) type components
                      = Done (valid v)).
  { intros ->; exists value; split; [reflexivity|exact Hvalid]. }
  pose proof (validateParameterType_scalar value type components Harray Htuple) as E.
  rewrite E in Hvalid; cbv zeta in Hvalid.
  destruct (String.eqb (baseType (parseType type)) "address") eqn:C1.
  { injection Hvalid as Hv; destruct (validateAddress_valid _ _ Hv) as [-> R].
    exists (toLowerCase value); split; [reflexivity|].
    rewrite (validateParameterType_scalar _ type components Harray Htuple).
    cbv zeta; rewrite C1; unfold validateAddress.
    rewrite toLowerCase_idempotent, R.
    destruct (toLowerCase value); [discriminate|reflexivity]. }
  destruct (startsWith (baseType (parseType type)) "uint") eqn:C2.
  { destruct (validateUint_valid_range _ _ _ Hvalid) as (N & -> & Hb & HN).
    exists (decimal N); split; [reflexivity|].
    rewrite (validateParameterType_scalar _ type components Harray Htuple).
    cbv zeta; rewrite C1, C2; apply validateUint_in_range; assumption. }
  destruct (startsWith (baseType (parseType type)) "int") eqn:C3.
  { destruct (validateInt_valid_range _ _ _ Hvalid) as (N & -> & Hb & HN).
    exists (decimal N); split; [reflexivity|].
    rewrite (validateParameterType_scalar _ type components Harray Htuple).
    cbv zeta; rewrite C1, C2, C3; apply validateInt_in_range; assumption. }
  destruct (String.eqb (baseType (parseType type)) "bool") eqn:C4.
  { injection Hvalid as Hv; destruct (validateBool_valid _ _ Hv) as [b ->].
    exists (if b then "true" else "false"); split; [destruct b; reflexivity|].
    rewrite (validateParameterType_scalar _ type components Harray Htuple).
    cbv zeta; rewrite C1, C2, C3, C4; destruct b; reflexivity. }
  destruct (String.eqb (baseType (parseType type)) "bytes").
  { injection Hvalid as Hv; exact (Same (validateBytes_valid _ _ _ Hv)). }
  destruct (startsWith (baseType (parseType type)) "bytes").
  { injection Hvalid as Hv; exact (Same (validateBytes_valid _ _ _ Hv)). }
  destruct (String.eqb (baseType (parseType type)) "string");
    injection Hvalid as Hv; apply Same; congruence.
Qed.

(** X15.  The hint for a type names the validator the dispatcher applies
    to it: each of the scalar hints is given exactly for the types the
    dispatcher sends to the validator of that kind, and the hint "Invalid
    input" is given for the types of which every text is accepted, and
    normalized, as it stands. *)
Theorem hint_names_the_validator (value type : string)
    (components : option (list AbiParameter)) :
  let hint := getParameterTypeErrorMessage type in
  let outcome := validateParameterType JSON_parse (Some value) type components in
  (hint = "Invalid Ethereum address" -> outcome = Done (validateAddress value))
  /\ (hint = "Must be a positive number (no spaces allowed)" ->
      exists bits, outcome = validateUint value bits)
  /\ (hint = "Must be a valid number (no spaces allowed)" ->
      exists bits, outcome = validateInt value bits)
  /\ (hint = "Must be true or false" -> outcome = Done (validateBool value))
  /\ (hint = "Must be a valid hex string starting with 0x" ->
      exists fixedLength, outcome = Done (validateBytes value fixedLength))
  /\ (hint = "Must be a valid string" -> outcome = Done (validateString value))
  /\ (hint = "Invalid input" ->
      outcome = Done (valid (VStr value))
      /\ normalizeParameterValue JSON_parse (VStr value) type components
         = Done (VStr value)).
Proof.
  cbv zeta.
  rewrite validateParameterType_unfold, normalizeParameterValue_unfold.
  unfold getParameterTypeErrorMessage, validateParameterType_body,
    normalizeParameterValue_body; cbv zeta.
  destruct (isArray (parseType type)).
  { hint_cases; intro H; simpl in H; discriminate H. }
  destruct (isTuple (parseType type)).
  { hint_cases; intro H; discriminate H. }
  destruct (String.eqb (baseType (parseType type)) "address").
  { hint_cases; hint_case. }
  destruct (startsWith (baseType (parseType type)) "uint").
  { hint_cases; hint_case. }
  destruct (startsWith (baseType (parseType type)) "int").
  { hint_cases; hint_case. }
  destruct (String.eqb (baseType (parseType type)) "bool").
  { hint_cases; hint_case. }
  destruct (String.eqb (baseType (parseType type)) "bytes").
  { hint_cases; hint_case. }
  destruct (startsWith (baseType (parseType type)) "bytes").
  { hint_cases; hint_case. }
  destruct (String.eqb (baseType (parseType type)) "string").
  { hint_cases; hint_case. }
  hint_cases; try (intro H; discriminate H).
  intros _; split; reflexivity.
Qed.

(** The loop of [validateArray]: a success holds the validated elements,
    one for each item and in the same order, after those held already. *)
Lemma validateArray_loop_valid (rec : callee) (elementType : string)
    (components : option (list AbiParameter)) :
  forall items i acc v,
    validateArray_loop rec elementType components items i acc = Done (valid v) ->
    exists vs,
      v = VArr (acc ++ vs)
      /\ Forall2 (fun item w =>
                    exists t, text_of item = Done t
                              /\ rec t elementType components = Done (valid w))
           items vs.
Proof.
  induction items as [|x r IH]; intros i acc v.
  - cbn [validateArray_loop]; intros [= <-]; exists []; rewrite app_nil_r; auto.
  - cbn [validateArray_loop].
    destruct (text_of x) as [t| |] eqn:T; cbn [bind]; try discriminate.
    destruct (rec t elementType components) as [[w|e]| |] eqn:R; cbn [bind];
      try discriminate.
    intro L; destruct (IH _ _ _ L) as (vs & -> & F).
    exists (w :: vs); rewrite <- app_assoc; split; [reflexivity|].
    constructor; [exists t; auto|exact F].
Qed.

(** The loop of [validateArray]: the first item that does not validate is
    reported with its index. *)
Lemma validateArray_loop_invalid (rec : callee) (elementType : string)
    (components : option (list AbiParameter)) :
  forall pre i acc x post ws t error,
    Forall2 (fun item w =>
               exists t, text_of item = Done t
                         /\ rec t elementType components = Done (valid w)) pre ws ->
    text_of x = Done t ->
    rec t elementType components = Done (invalid error) ->
    validateArray_loop rec elementType components (pre ++ x :: post) i acc
    = Done (invalid ("Invalid element at index "
                     ++ decimal (Z.of_nat (i + List.length pre)) ++ ": " ++ error)).
Proof.
  induction pre as [|y r IH]; intros i acc x post ws t error F T R.
  - cbn [app validateArray_loop List.length]; rewrite T; cbn [bind]; rewrite R; cbn [bind].
    rewrite Nat.add_0_r; reflexivity.
  - inversion F as [|? w ? ws' (ty & Ty & Ry) F']; subst.
    cbn [app validateArray_loop List.length]; rewrite Ty; cbn [bind]; rewrite Ry; cbn [bind].
    rewrite (IH (S i) _ x post ws' t error F' T R).
    rewrite Nat.add_succ_r; reflexivity.
Qed.

(** X16.  What the dispatcher does with an array type.  An accepted text
    is a JSON array whose length is the fixed first dimension of the type,
    if there is one, and the normalized value holds one validated value
    for each element, in order; a JSON array of any other length is
    rejected before any element is read; and the first element that does
    not validate as the element type is reported with its index. *)
Theorem array_validation_shape (value type : string)
    (components : option (list AbiParameter))
    (Harray : isArray (parseType type) = true) :
  (forall v,
     validateParameterType JSON_parse (Some value) type components = Done (valid v) ->
     exists items vs,
       JSON_parse value = Some (VArr items)
       /\ v = VArr vs
       /\ (forall n, expectedLengthOf (parseType type) = Some n ->
             n = Num (Z.of_nat (List.length items)))
       /\ Forall2 (fun item w =>
                     exists t,
                       text_of item = Done t
                       /\ validateParameterType JSON_parse t
                            (innerTypeOf (parseType type)) components
                          = Done (valid w))
            items vs)
  /\ (forall items n,
        JSON_parse value = Some (VArr items) ->
        expectedLengthOf (parseType type) = Some n ->
        n <> Num (Z.of_nat (List.length items)) ->
        validateParameterType JSON_parse (Some value) type components
        = Done (invalid ("Array must have exactly " ++ number_to_string n ++ " elements")))
  /\ (forall pre x post ws t error,
        JSON_parse value = Some (VArr (pre ++ x :: post)) ->
        (forall n, expectedLengthOf (parseType type) = Some n ->
           n = Num (Z.of_nat (List.length (pre ++ x :: post)))) ->
        Forall2 (fun item w =>
                   exists t,
                     text_of item = Done t
                     /\ validateParameterType JSON_parse t
                          (innerTypeOf (parseType type)) components
                        = Done (valid w))
          pre ws ->
        text_of x = Done t ->
        validateParameterType JSON_parse t (innerTypeOf (parseType type)) components
        = Done (invalid error) ->
        validateParameterType JSON_parse (Some value) type components
        = Done (invalid ("Invalid element at index "
                         ++ decimal (Z.of_nat (List.length pre)) ++ ": " ++ error))).
Proof.
  assert (D : forall items n, length_differs items n = false
                              <-> n = Num (Z.of_nat (List.length items))).
  { intros items [|z|b]; cbn [length_differs]; [split; discriminate| |split; discriminate].
    destruct (Z.eqb_spec (Z.of_nat (List.length items)) z); cbn [negb]; split;
      congruence. }
  rewrite validateParameterType_unfold.
  unfold validateParameterType_body; rewrite Harray.
  unfold validateArray_with, parse_or_raise.
  refine (conj _ (conj _ _)).
  - intros v V; apply catch_valid in V.
    destruct (JSON_parse value) as [[ | | | | | | items | | ]|]; cbn [bind] in V;
      try discriminate.
    assert (L : validateArray_loop (validateParameterType JSON_parse)
                  (innerTypeOf (parseType type)) components items 0 [] = Done (valid v)
                /\ forall n, expectedLengthOf (parseType type) = Some n ->
                     n = Num (Z.of_nat (List.length items))).
    { destruct (expectedLengthOf (parseType type)) as [n|]; [|split; [exact V|discriminate]].
      destruct (length_differs items n) eqn:Ld; [discriminate|].
      split; [exact V|intros ? [= <-]; apply D, Ld]. }
    destruct L as [L N].
    destruct (validateArray_loop_valid _ _ _ _ _ _ _ L) as (vs & -> & F).
    exists items, vs; auto.
  - intros items n -> -> N; cbn [bind].
    destruct (length_differs items n) eqn:Ld; [reflexivity|].
    apply D in Ld; contradiction.
  - intros pre x post ws t error -> N F T R; cbn [bind].
    rewrite (validateArray_loop_invalid _ _ _ pre 0 [] x post ws t error F T R).
    destruct (expectedLengthOf (parseType type)) as [n|]; [|reflexivity].
    destruct (length_differs (pre ++ x :: post) n) eqn:Ld; [|reflexivity].
    pose proof (proj2 (D _ _) (N n eq_refl)); congruence.
Qed.

End Display.

(** * Decoding *)

Lemma decimal_injective (a b : Z) : decimal a = decimal b -> a = b.
Proof.
  intro H; pose proof (BigInt_decimal a) as A; rewrite H, BigInt_decimal in A.
  congruence.
Qed.

Lemma param_name_injective (i j : nat) : param_name i = param_name j -> i = j.
Proof.
  unfold param_name; cbn [append]; intros [= H].
  apply decimal_injective in H; lia.
Qed.

Lemma param_name_plain (i : nat) : plain_name (param_name i) = true.
Proof. reflexivity. Qed.

Lemma param_name_fresh (i : nat) :
  existsb (String.eqb (param_name i)) (map param_name (seq 0 i)) = false.
Proof.
  destruct (existsb _ _) eqn:X; [|reflexivity].
  apply existsb_exists in X; destruct X as (k & Hin & E).
  apply String.eqb_eq in E; apply in_map_iff in Hin; destruct Hin as (j & <- & Hj).
  apply param_name_injective in E; apply in_seq in Hj; lia.
Qed.

Lemma obj_update_entries (P : string * jsval -> Prop) (k : string) (v : jsval)
    (o o' : list (string * jsval)) :
  Forall P o -> P (k, v) -> obj_update k v o = Some o' -> Forall P o'.
Proof.
  intros F Pk; revert o'; induction F as [|[k1 v1] r H F IH]; intros o'; [discriminate|].
  cbn [obj_update]; destruct (String.eqb k k1).
  - intros [= <-]; constructor; assumption.
  - destruct (obj_update k v r) as [r'|]; [|discriminate].
    intros [= <-]; constructor; [exact H|apply IH; reflexivity].
Qed.

Lemma obj_insert_index_entries (P : string * jsval -> Prop) (i : Z) (k : string)
    (v : jsval) (o : list (string * jsval)) :
  Forall P o -> P (k, v) -> Forall P (obj_insert_index i k v o).
Proof.
  intros F Pk; induction F as [|[k1 v1] r H F IH]; cbn [obj_insert_index].
  - constructor; [exact Pk|constructor].
  - destruct (array_index k1) as [j|]; [destruct (i <? j)|];
      repeat (constructor; try assumption).
Qed.

(** An assignment to a property keeps what holds of every property. *)
Lemma obj_set_entries (P : string * jsval -> Prop) (k : string) (v : jsval)
    (o : list (string * jsval)) :
  Forall P o -> P (k, v) -> Forall P (obj_set k v o).
Proof.
  intros F Pk; unfold obj_set, obj_define.
  destruct (String.eqb k "__proto__"); [exact F|].
  destruct (obj_update k v o) as [o'|] eqn:U.
  - exact (obj_update_entries P k v o o' F Pk U).
  - destruct (array_index k) as [i|].
    + apply obj_insert_index_entries; assumption.
    + apply Forall_app; split; [exact F|constructor; [exact Pk|constructor]].
Qed.

(** The parameter loop of [decodeCalldataBySignature]: the keys are
    [param0], [param1], ... in order, one for each type, and the values
    are texts. *)
Lemma decode_types_spec (args : nat -> comp jsval) (paramTypes : list string) :
  forall i ps ps',
    map fst ps = map param_name (seq 0 i) ->
    Forall text_entry ps ->
    decode_types args paramTypes i ps = Done ps' ->
    map fst ps' = map param_name (seq 0 (i + List.length paramTypes))
    /\ Forall text_entry ps'.
Proof.
  induction paramTypes as [|type rest IH]; intros i ps ps' K F.
  - cbn [decode_types List.length]; intros [= <-]; rewrite Nat.add_0_r; auto.
  - cbn [decode_types List.length].
    destruct (args i) as [value| |]; cbn [bind]; try discriminate.
    destruct (denormalizeParameterValue value type None) as [text| |]; cbn [bind];
      try discriminate.
    fold (param_name i); rewrite obj_set_fresh;
      [|apply param_name_plain|rewrite K; apply param_name_fresh].
    intro D; apply IH in D.
    + rewrite Nat.add_succ_r; exact D.
    + rewrite map_app, K, seq_S; cbn [map fst]; rewrite map_app; reflexivity.
    + apply Forall_app; split; [exact F|].
      constructor; [exists text; reflexivity|constructor].
Qed.

(** The parameter loop of [decodeCalldata], whatever its outcome: it
    returns when every display returns, with the texts assigned in order,
    and it throws what the first display that throws throws. *)
Lemma decode_inputs_cases (args : nat -> comp jsval) (inputs : list AbiParameter) :
  forall i ps ts,
    match decode_inputs args inputs i ps ts with
    | Done built =>
        exists texts,
          displayed args i inputs texts
          /\ built = (assigned i inputs texts ps, (ts ++ map p_type inputs)%list)
    | other =>
        exists pre input post texts,
          inputs = (pre ++ input :: post)%list
          /\ displayed args i pre texts
          /\ display args (i + List.length pre) input
             = match other with Raise e => Raise e | _ => Stuck end
    end.
Proof.
  induction inputs as [|input rest IH]; intros i ps ts.
  - cbn [decode_inputs]; exists []; split; [exact I|].
    cbn [assigned map]; rewrite app_nil_r; reflexivity.
  - cbn [decode_inputs].
    assert (Here : forall outcome,
               display args i input = outcome ->
               exists pre input' post texts,
                 (input :: rest = pre ++ input' :: post)%list
                 /\ displayed args i pre texts
                 /\ display args (i + List.length pre) input' = outcome).
    { intros outcome E; exists [], input, rest, []; split; [reflexivity|].
      split; [exact I|]; cbn [List.length]; rewrite Nat.add_0_r; exact E. }
    destruct (args i) as [value|e| ] eqn:A; cbn [bind];
      [|apply Here; unfold display; rewrite A; reflexivity
       |apply Here; unfold display; rewrite A; reflexivity].
    destruct (denormalizeParameterValue value (p_type input) (p_components input))
      as [text|e| ] eqn:T; cbn [bind];
      [|apply Here; unfold display; rewrite A; exact T
       |apply Here; unfold display; rewrite A; exact T].
    assert (Dsp : display args i input = Done text)
      by (unfold display; rewrite A; exact T).
    specialize (IH (S i) (obj_set (display_name i input) (VStr text) ps)
                  (ts ++ [p_type input])%list).
    unfold display_name, param_name in IH.
    destruct (decode_inputs args rest (S i) _ _) as [built|e| ].
    + destruct IH as (texts & Ds & ->).
      exists (text :: texts); split; [split; [exact Dsp|exact Ds]|].
      cbn [assigned map]; rewrite <- app_assoc; reflexivity.
    + destruct IH as (pre & input' & post & texts & -> & Ds & E).
      exists (input :: pre), input', post, (text :: texts).
      split; [reflexivity|split; [split; [exact Dsp|exact Ds]|]].
      cbn [List.length]; rewrite Nat.add_succ_r; exact E.
    + destruct IH as (pre & input' & post & texts & -> & Ds & E).
      exists (input :: pre), input', post, (text :: texts).
      split; [reflexivity|split; [split; [exact Dsp|exact Ds]|]].
      cbn [List.length]; rewrite Nat.add_succ_r; exact E.
Qed.

Lemma assigned_entries (inputs : list AbiParameter) :
  forall i texts ps,
    Forall text_entry ps -> Forall text_entry (assigned i inputs texts ps).
Proof.
  induction inputs as [|input rest IH]; intros i texts ps F; [exact F|].
  destruct texts as [|text texts]; [exact F|].
  cbn [assigned]; apply IH, obj_set_entries; [exact F|exists text; reflexivity].
Qed.

Section Decoding.

Variable parseTransaction : list AbiFunction -> string -> comp (option TransactionDescription).

(** X17.  [decodeCalldata] never throws.  When the transaction reader
    throws, or the display of an argument throws, the first to do so,
    the result is the failure DECODING_FAILED with the thrown message;
    when the reader finds no function it is the failure DECODING_FAILED,
    and when the ABI has no function of the name the reader found, the
    failure FUNCTION_NOT_FOUND.  A success is given when the display of
    every argument returns: it names the function the reader found, takes
    the signature and the parameter types from the first function of the
    ABI that has this name, and holds the display texts, assigned in the
    order of the inputs under their names.  The outcome is undetermined
    only where that of the reader, or of a display, is. *)
Theorem decodeCalldata_outcome (calldata : string) (abi : list AbiFunction) :
  match decodeCalldata parseTransaction calldata abi with
  | Done (success result) =>
      exists decoded func texts,
        parseTransaction abi calldata = Done (Some decoded)
        /\ find (fun fn => String.eqb (fn_name fn) (tx_name decoded)) abi = Some func
        /\ displayed (tx_args decoded) 0 (inputs func) texts
        /\ result = mkDecodeCalldataResult (tx_name decoded) (getFunctionSignature func)
                      (assigned 0 (inputs func) texts []) (map p_type (inputs func))
        /\ Forall text_entry (dec_parameters result)
  | Done (failure error) =>
      (parseTransaction abi calldata = Done None
       /\ error = mkActionBuilderError
                    "Failed to decode calldata - no matching function found"
                    DECODING_FAILED)
      \/ (exists e,
            parseTransaction abi calldata = Raise e
            /\ error = mkActionBuilderError ("Failed to decode calldata: " ++ e)
                         DECODING_FAILED)
      \/ (exists decoded,
            parseTransaction abi calldata = Done (Some decoded)
            /\ find (fun fn => String.eqb (fn_name fn) (tx_name decoded)) abi = None
            /\ error = mkActionBuilderError
                         ("Function " ++ tx_name decoded ++ " not found in ABI")
                         FUNCTION_NOT_FOUND)
      \/ (exists decoded func pre input post texts e,
            parseTransaction abi calldata = Done (Some decoded)
            /\ find (fun fn => String.eqb (fn_name fn) (tx_name decoded)) abi = Some func
            /\ inputs func = (pre ++ input :: post)%list
            /\ displayed (tx_args decoded) 0 pre texts
            /\ display (tx_args decoded) (List.length pre) input = Raise e
            /\ error = mkActionBuilderError ("Failed to decode calldata: " ++ e)
                         DECODING_FAILED)
  | Raise _ => False
  | Stuck =>
      parseTransaction abi calldata = Stuck
      \/ (exists decoded func pre input post texts,
            parseTransaction abi calldata = Done (Some decoded)
            /\ find (fun fn => String.eqb (fn_name fn) (tx_name decoded)) abi = Some func
            /\ inputs func = (pre ++ input :: post)%list
            /\ displayed (tx_args decoded) 0 pre texts
            /\ display (tx_args decoded) (List.length pre) input = Stuck)
  end.
Proof.
  unfold decodeCalldata, decoding_failed.
  destruct (parseTransaction abi calldata) as [[decoded|]|e| ] eqn:P; cbn [bind];
    [|left; split; reflexivity|right; left; exists e; split; reflexivity
     |left; reflexivity].
  destruct (find _ abi) as [func|] eqn:F;
    [|right; right; left; exists decoded; exact (conj eq_refl (conj F eq_refl))].
  pose proof (decode_inputs_cases (tx_args decoded) (inputs func) 0 [] []) as C.
  destruct (decode_inputs (tx_args decoded) (inputs func) 0 [] []) as [built|e| ];
    cbn [bind].
  - destruct C as (texts & Ds & ->); exists decoded, func, texts.
    cbn [fst snd app dec_parameters].
    refine (conj eq_refl (conj F (conj Ds (conj eq_refl _)))).
    apply assigned_entries; constructor.
  - destruct C as (pre & input & post & texts & E & Ds & R).
    right; right; right; exists decoded, func, pre, input, post, texts, e.
    cbn [Nat.add] in R; auto 10.
  - destruct C as (pre & input & post & texts & E & Ds & R).
    right; exists decoded, func, pre, input, post, texts.
    cbn [Nat.add] in R; auto 10.
Qed.


End Decoding.

(** * The denormalizer on decoded values *)

Lemma denormalize_array_eq (items : list jsval) (type : string)
    (components : option (list AbiParameter)) :
  denormalizeParameterValue (VArr items) type components
  = if isArray (parseType type) then
      denormalized <-
        denormalize_items
          (fun item => denormalizeParameterValue item (innerTypeOf (parseType type))
                         components) items ;;
      stringify_text (VArr denormalized)
    else
      match isTuple (parseType type), components with
      | true, Some cs =>
          result <-
            denormalize_fields
              (fun v comp => denormalizeParameterValue v (p_type comp) (p_components comp))
              items cs [] ;;
          stringify_text (VObj result)
      | _, _ => js_String (VArr items)
      end.
Proof. reflexivity. Qed.

Lemma js_String_decoded (v : jsval) :
  decoded_value v = true -> exists s, js_String v = Done s.
Proof.
  induction v as [ | | [] | t | z | s | items IH | props IH | n ] using jsval_nested_ind;
    intro D; try discriminate D; try (eexists; reflexivity).
  cbn [js_String]; cbn [decoded_value] in D.
  match goal with |- exists s, bind ?m _ = _ => assert (E : exists parts, m = Done parts) end.
  { induction IH as [|x r Hx _ IHr]; [eexists; reflexivity|].
    cbn [forallb] in D; apply andb_true_iff in D; destruct D as [Dx Dr].
    destruct (Hx Dx) as [sx Sx]; destruct (IHr Dr) as [parts ->].
    assert (X : exists t, match x with
                          | VUndefined | VNull => Done ""
                          | _ => js_String x
                          end = Done t).
    { destruct x; eauto. }
    destruct X as [t ->]; cbn [bind]; eauto. }
  destruct E as [parts ->]; cbn [bind]; eauto.
Qed.

Lemma stringify_texts (ds : list jsval) :
  Forall (fun d => exists s, d = VStr s) ds -> exists s, stringify_text (VArr ds) = Done s.
Proof.
  intro F; unfold stringify_text; cbn [JSON_stringify].
  match goal with |- exists s, bind (bind ?m _) _ = _ =>
    assert (E : exists parts, m = Done parts) end.
  { induction F as [|d r [s ->] _ [parts ->]]; [eexists; reflexivity|].
    cbn [JSON_stringify bind]; eauto. }
  destruct E as [parts ->]; cbn [bind]; eauto.
Qed.

Lemma stringify_text_entries (o : list (string * jsval)) :
  Forall text_entry o -> exists s, stringify_text (VObj o) = Done s.
Proof.
  intro F; unfold stringify_text; cbn [JSON_stringify].
  match goal with |- exists s, bind (bind ?m _) _ = _ =>
    assert (E : exists parts, m = Done parts) end.
  { induction F as [|[k d] r [s Hs] _ [parts ->]]; [eexists; reflexivity|].
    cbn [snd] in Hs; subst d; cbn [JSON_stringify bind]; eauto. }
  destruct E as [parts ->]; cbn [bind]; eauto.
Qed.

Lemma denormalize_items_texts (f : jsval -> comp string) (items : list jsval) :
  Forall (fun x => exists s, f x = Done s) items ->
  exists ds, denormalize_items f items = Done ds
             /\ Forall (fun d => exists s, d = VStr s) ds.
Proof.
  induction 1 as [|x r [s Hs] _ (ds & Hd & F)]; [exists []; split; [reflexivity|constructor]|].
  cbn [denormalize_items]; rewrite Hs; cbn [bind]; rewrite Hd; cbn [bind].
  eexists; split; [reflexivity|]; constructor; eauto.
Qed.

Lemma blank_fields_entries (cs : list AbiParameter) :
  forall result,
    Forall text_entry result ->
    Forall text_entry (fold_left (fun acc c => obj_set (p_name c) (VStr "") acc) cs result).
Proof.
  induction cs as [|c r IH]; intros result F; [exact F|].
  cbn [fold_left]; apply IH, obj_set_entries; [exact F|exists ""; reflexivity].
Qed.

Lemma denormalize_fields_texts (f : jsval -> AbiParameter -> comp string)
    (vs : list jsval) :
  Forall (fun v => forall c, exists s, f v c = Done s) vs ->
  forall cs result,
    Forall text_entry result ->
    exists o, denormalize_fields f vs cs result = Done o /\ Forall text_entry o.
Proof.
  induction 1 as [|v r Hv _ IH]; intros cs result F.
  - destruct cs as [|c cs]; cbn [denormalize_fields]; eexists; split;
      try reflexivity; [exact F|apply blank_fields_entries, F].
  - destruct cs as [|c cs]; cbn [denormalize_fields]; [eauto|].
    destruct (Hv c) as [s ->]; cbn [bind].
    apply IH, obj_set_entries; [exact F|exists s; reflexivity].
Qed.

(** X19.  The denormalizer returns a display text for every decoded
    value, whatever the type and the components it is given: on BigInts,
    booleans, texts and arrays of these, nested to any depth, it does not
    throw. *)
Theorem denormalize_decoded_value (v : jsval) (Hdecoded : decoded_value v = true) :
  forall type components, exists text,
    denormalizeParameterValue v type components = Done text.
Proof.
  revert Hdecoded.
  induction v as [ | | [] | t | z | s | items IH | props IH | n ] using jsval_nested_ind;
    intros D type components; try discriminate D; try (eexists; reflexivity).
  assert (A : Forall (fun x => forall type components,
                        exists s, denormalizeParameterValue x type components = Done s)
                items).
  { cbn [decoded_value] in D; induction IH as [|x r Hx _ IHr]; constructor.
    - apply Hx; cbn [forallb] in D; apply andb_true_iff in D; apply D.
    - apply IHr; cbn [forallb] in D; apply andb_true_iff in D; apply D. }
  rewrite denormalize_array_eq.
  destruct (isArray (parseType type)).
  - destruct (denormalize_items_texts
                (fun item => denormalizeParameterValue item (innerTypeOf (parseType type))
                               components) items) as (ds & -> & F).
    { eapply Forall_impl; [|exact A]; intros x H; apply H. }
    cbn [bind]; apply stringify_texts, F.
  - assert (B : exists s, js_String (VArr items) = Done s)
      by (apply js_String_decoded, D).
    destruct (isTuple (parseType type)); [|exact B].
    destruct components as [cs|]; [|exact B].
    destruct (denormalize_fields_texts
                (fun v comp => denormalizeParameterValue v (p_type comp) (p_components comp))
                items) with (cs := cs) (result := @nil (string * jsval))
      as (o & -> & F).
    { eapply Forall_impl; [|exact A]; intros x H c; apply H. }
    { constructor. }
    cbn [bind]; apply stringify_text_entries, F.
Qed.

Lemma denormalize_decoded_value_witness :
  exists text,
    denormalizeParameterValue (VArr [VBigInt 1; VArr [VStr "a"; VBool true]]) "uint256[]" None
    = Done text.
Proof.
  exact (denormalize_decoded_value (VArr [VBigInt 1; VArr [VStr "a"; VBool true]]) eq_refl
           "uint256[]" None).
Defined.

(** * The integer validators on any text *)

(** X20.  [validateUint] and [validateInt] accept exactly the texts that
    are not empty, carry no white space at either end and that [BigInt]
    reads as an integer of the range of the width; the normalized value is
    that integer.  A width below 0, or below 1 for [validateInt], accepts
    nothing. *)
Theorem integer_validators_accept_exactly (value : string) (bits : Z) (v : jsval) :
  (validateUint value bits = Done (valid v)
   <-> value <> "" /\ trim value = value /\ 0 <= bits
       /\ exists n, BigInt value = Done n /\ 0 <= n <= 2 ^ bits - 1 /\ v = VBigInt n)
  /\ (validateInt value bits = Done (valid v)
      <-> value <> "" /\ trim value = value /\ 0 < bits
          /\ exists n, BigInt value = Done n
                       /\ - 2 ^ (bits - 1) <= n <= 2 ^ (bits - 1) - 1 /\ v = VBigInt n).
Proof.
  unfold validateUint, validateInt, bigint_pow, is_empty.
  destruct (String.eqb_spec value "") as [->|NE]; cbn [orb].
  { split; split; try discriminate; intros (H & _); congruence. }
  destruct (String.eqb_spec (trim value) value) as [T|T]; cbn [negb].
  2:{ split; split; try discriminate; intros (_ & H & _); congruence. }
  destruct (BigInt value) as [num|e|]; cbn [bind catch].
  2:{ split; split; try discriminate; intros (_ & _ & _ & n & H & _); discriminate. }
  2:{ split; split; try discriminate; intros (_ & _ & _ & n & H & _); discriminate. }
  split.
  - destruct (Z.ltb_spec num 0).
    { split; [discriminate|intros (_ & _ & _ & n & [= <-] & H' & _); lia]. }
    destruct (Z.ltb_spec bits 0); cbn [bind catch].
    { split; [discriminate|intros (_ & _ & H' & _); lia]. }
    destruct (Z.gtb_spec num (2 ^ bits - 1)).
    { split; [discriminate|intros (_ & _ & _ & n & [= <-] & H' & _); lia]. }
    split.
    + intros [= <-]; refine (conj NE (conj T (conj _ _))); [lia|].
      exists num; repeat split; lia.
    + intros (_ & _ & _ & n & [= <-] & _ & ->); reflexivity.
  - destruct (Z.ltb_spec (bits - 1) 0); cbn [bind catch].
    { split; [discriminate|intros (_ & _ & H' & _); lia]. }
    destruct (Z.gtb_spec num (2 ^ (bits - 1) - 1)); cbn [orb].
    { split; [discriminate|intros (_ & _ & _ & n & [= <-] & H' & _); lia]. }
    destruct (Z.ltb_spec num (- 2 ^ (bits - 1))).
    { split; [discriminate|intros (_ & _ & _ & n & [= <-] & H' & _); lia]. }
    split.
    + intros [= <-]; refine (conj NE (conj T (conj _ _))); [lia|].
      exists num; repeat split; lia.
    + intros (_ & _ & _ & n & [= <-] & _ & ->); reflexivity.
Qed.

(** * What reaches the codec *)

Section CodecForm.

Variable JSON_parse : string -> option jsval.

(** The normalizer on a text, for a type that is neither an array nor a
    tuple. *)
Lemma normalizeParameterValue_scalar (value type : string)
    (components : option (list AbiParameter)) :
  isArray (parseType type) = false ->
  isTuple (parseType type) = false ->
  normalizeParameterValue JSON_parse (VStr value) type components
  = let base := baseType (parseType type) in
    if String.eqb base "address" then Done (VStr (toLowerCase value))
    else if startsWith base "uint" || startsWith base "int" then Done (VStr value)
    else if String.eqb base "bool" then Done (VBool (String.eqb (toLowerCase value) "true"))
    else if String.eqb base "bytes" || startsWith base "bytes" then Done (VStr value)
    else if String.eqb base "string" then Done (VStr value)
    else Done (VStr value).
Proof.
  intros A T; rewrite normalizeParameterValue_unfold.
  unfold normalizeParameterValue_body; rewrite A, T; reflexivity.
Qed.

(** X21.  What validation approves is what the codec is given: for a
    type that is neither an array nor a tuple, and a text without white
    space at either end when the type is bool, the normalizer gives the
    normalized value of the validator, or, for the integer types, the text
    that [BigInt] reads as that integer. *)
Theorem validated_scalar_reaches_codec (value type : string)
    (components : option (list AbiParameter)) (v : jsval)
    (Harray : isArray (parseType type) = false)
    (Htuple : isTuple (parseType type) = false)
    (Hbool : baseType (parseType type) = "bool" -> trim value = value)
    (Hvalid : validateParameterType JSON_parse (Some value) type components
              = Done (valid v)) :
  exists w,
    normalizeParameterValue JSON_parse (VStr value) type components = Done w
    /\ codec_form v w.
Proof.
  rewrite (validateParameterType_scalar JSON_parse _ _ _ Harray Htuple) in Hvalid.
  rewrite (normalizeParameterValue_scalar _ _ _ Harray Htuple).
  cbv zeta in *.
  destruct (String.eqb (baseType (parseType type)) "address").
  { injection Hvalid as Hv; destruct (validateAddress_valid _ _ Hv) as [-> _].
    eexists; split; [reflexivity|left; reflexivity]. }
  destruct (startsWith (baseType (parseType type)) "uint").
  { destruct (validateUint_valid _ _ _ Hvalid) as (n & -> & B).
    eexists; split; [reflexivity|right; eauto]. }
  destruct (startsWith (baseType (parseType type)) "int"); cbn [orb].
  { destruct (validateInt_valid _ _ _ Hvalid) as (n & -> & B).
    eexists; split; [reflexivity|right; eauto]. }
  destruct (String.eqb_spec (baseType (parseType type)) "bool") as [E|_].
  { eexists; split; [reflexivity|left].
    injection Hvalid as Hv; revert Hv; unfold validateBool.
    rewrite trim_toLowerCase, (Hbool E).
    destruct (String.eqb (toLowerCase value) "true");
      [intros [= <-]; reflexivity|].
    destruct (String.eqb (toLowerCase value) "false"); [|discriminate].
    intros [= <-]; reflexivity. }
  destruct (String.eqb (baseType (parseType type)) "bytes"); cbn [orb].
  { injection Hvalid as Hv; rewrite (validateBytes_valid _ _ _ Hv).
    eexists; split; [reflexivity|left; reflexivity]. }
  destruct (startsWith (baseType (parseType type)) "bytes").
  { injection Hvalid as Hv; rewrite (validateBytes_valid _ _ _ Hv).
    eexists; split; [reflexivity|left; reflexivity]. }
  destruct (String.eqb (baseType (parseType type)) "string");
    injection Hvalid as <-; eexists; split; try reflexivity; left; reflexivity.
Qed.

End CodecForm.

Lemma validated_scalar_reaches_codec_witness :
  exists w,
    normalizeParameterValue parse_json (VStr "TRUE") "bool" None = Done w
    /\ codec_form (VBool true) w.
Proof.
  refine (validated_scalar_reaches_codec parse_json "TRUE" "bool" None (VBool true)
            eq_refl eq_refl _ _).
  - intros _; reflexivity.
  - vm_compute; reflexivity.
Defined.

Lemma scalar_display_round_trip_witness :
  exists text,
    denormalizeParameterValue (VStr address_abcd) "address" None = Done text
    /\ validateParameterType parse_json (Some text) "address" None
       = Done (valid (VStr address_abcd)).
Proof.
  refine (scalar_display_round_trip parse_json
            "0xABCDEF1234567890123456789012345678901234" "address" None
            (VStr address_abcd) eq_refl eq_refl _).
  vm_compute; reflexivity.
Defined.

Lemma array_validation_shape_witness :
  exists items vs,
    parse_json "[1,2]" = Some (VArr items)
    /\ VArr [VBigInt 1; VBigInt 2] = VArr vs
    /\ (forall n, expectedLengthOf (parseType "uint256[2]") = Some n ->
          n = Num (Z.of_nat (List.length items)))
    /\ Forall2 (fun item w =>
                  exists t,
                    text_of item = Done t
                    /\ validateParameterType parse_json t
                         (innerTypeOf (parseType "uint256[2]")) None
                       = Done (valid w))
         items vs.
Proof.
  refine (proj1 (array_validation_shape parse_json "[1,2]" "uint256[2]" None eq_refl)
            (VArr [VBigInt 1; VBigInt 2]) _).
  vm_compute; reflexivity.
Defined.

(** * Display of a decoded call *)

Lemma type_at_middle (pre ts : list string) (t : string) :
  type_at (pre ++ t :: ts) (List.length pre) = if is_empty t then "unknown" else t.
Proof.
  unfold type_at; rewrite nth_error_app2, Nat.sub_diag by lia; reflexivity.
Qed.

(** The [map] of [formatDecodedParameters] on texts: the text at each
    position is labelled with the type at that position. *)
Lemma format_entries_texts (entries : list (string * jsval)) :
  forall pre ts values,
    map snd entries = map VStr values ->
    List.length ts = List.length values ->
    format_entries (pre ++ ts) (List.length pre) entries
    = Done (map labelled (combine ts values)).
Proof.
  induction entries as [|[k v] r IH]; intros pre ts values E L.
  - destruct values; [|discriminate E]; destruct ts; [reflexivity|discriminate L].
  - destruct values as [|s values]; [discriminate E|].
    destruct ts as [|t ts]; [discriminate L|].
    cbn [map snd] in E; injection E as -> E.
    cbn [format_entries js_String bind]; rewrite type_at_middle.
    replace (pre ++ t :: ts)%list with ((pre ++ [t]) ++ ts)%list
      by (rewrite <- app_assoc; reflexivity).
    replace (S (List.length pre)) with (List.length (pre ++ [t])%list)
      by (rewrite length_app; cbn [List.length]; lia).
    rewrite (IH (pre ++ [t])%list ts values E); [reflexivity|].
    cbn [List.length] in L; lia.
Qed.

Lemma text_entries_values (o : list (string * jsval)) :
  Forall text_entry o -> exists values, map snd o = map VStr values.
Proof.
  induction 1 as [|[k v] r [s Hs] _ [values IH]]; [exists []; reflexivity|].
  cbn [snd] in Hs; subst v; exists (s :: values); cbn [map snd]; rewrite IH; reflexivity.
Qed.

Section DecodedDisplay.

Variable parseTransaction : list AbiFunction -> string -> comp (option TransactionDescription).

(** X22.  The display of a call decoded by its signature: the formatter
    returns, and does not throw; the parameters are texts, one for each
    parameter type, and the display lists each text after the type at the
    same position, in order, separated by a comma and a space. *)
Theorem decoded_by_signature_displays (calldata functionSignature : string)
    (result : DecodeCalldataResult)
    (Hdecoded : decodeCalldataBySignature parseTransaction calldata functionSignature
                = Done (success result)) :
  exists values,
    map snd (dec_parameters result) = map VStr values
    /\ List.length values = List.length (dec_parameterTypes result)
    /\ formatDecodedParameters result
       = Done (join ", " (map labelled (combine (dec_parameterTypes result) values))).
Proof.
  revert Hdecoded; unfold decodeCalldataBySignature, decoding_failed.
  destruct (match_signature functionSignature) as [[funcName paramTypesStr]|];
    [|discriminate].
  destruct (parseTransaction _ calldata) as [[decoded|]| |]; cbn [bind];
    try discriminate.
  destruct (decode_types (tx_args decoded) (parameter_types_of paramTypesStr) 0 [])
    as [ps| |] eqn:D; cbn [bind]; try discriminate.
  intros [= <-]; cbn [dec_parameters dec_parameterTypes].
  destruct (decode_types_spec _ _ 0 [] ps eq_refl (Forall_nil _) D) as [K V].
  destruct (text_entries_values ps V) as [values E].
  assert (L : List.length values = List.length (parameter_types_of paramTypesStr)).
  { apply (f_equal (@List.length _)) in K; apply (f_equal (@List.length _)) in E.
    rewrite !length_map, length_seq in *; cbn [Nat.add] in K; lia. }
  exists values; refine (conj E (conj L _)).
  unfold formatDecodedParameters; cbn [dec_parameters dec_parameterTypes].
  pose proof (format_entries_texts ps [] _ values E (eq_sym L)) as F.
  cbn [app List.length] in F; rewrite F; reflexivity.
Qed.

End DecodedDisplay.

Lemma decoded_by_signature_displays_witness :
  exists values,
    map snd [("param0", VStr address_1234); ("param1", VStr "1000")] = map VStr values
    /\ List.length values = List.length ["address"; "uint256"]
    /\ formatDecodedParameters
         (mkDecodeCalldataResult "transfer" "transfer(address,uint256)"
            [("param0", VStr address_1234); ("param1", VStr "1000")]
            ["address"; "uint256"])
       = Done (join ", " (map labelled (combine ["address"; "uint256"] values))).
Proof.
  refine (decoded_by_signature_displays transfer_reader transfer_calldata
            "transfer(address,uint256)"
            (mkDecodeCalldataResult "transfer" "transfer(address,uint256)"
               [("param0", VStr address_1234); ("param1", VStr "1000")]
               ["address"; "uint256"]) _).
  vm_compute; reflexivity.
Defined.

(** * The predefined path *)

Section Predefined.

Variable JSON_parse : string -> option jsval.
Variable encodeFunctionData : AbiFunction -> list jsval -> comp string.

(** X23.  [buildActionFromPredefined] is [buildAction] on the given ABI:
    it answers what [buildAction] answers for the same address, signature,
    parameters and value with the given ABI in the place of the input's
    own, which it never reads. *)
Theorem buildActionFromPredefined_is_buildAction (input : BuildActionInput)
    (predefined : list AbiFunction) :
  buildActionFromPredefined JSON_parse encodeFunctionData input predefined
  = buildAction JSON_parse encodeFunctionData
      (mkBuildActionInput (contractAddress input) (functionSignature input)
         (parameters input) predefined (native_value input))
  /\ forall other,
       buildActionFromPredefined JSON_parse encodeFunctionData
         (mkBuildActionInput (contractAddress input) (functionSignature input)
            (parameters input) other (native_value input)) predefined
       = buildActionFromPredefined JSON_parse encodeFunctionData input predefined.
Proof.
  split; [|intro other]; unfold buildActionFromPredefined, buildAction;
    cbn [contractAddress functionSignature parameters abi native_value];
    destruct (negb (isValidAddress (contractAddress input))); try reflexivity;
    destruct (findFunctionBySignature (functionSignature input) predefined);
    reflexivity.
Qed.

End Predefined.

(** * The reference parser returns JSON values *)

Lemma json_array (items : list jsval) :
  Forall (fun v => json_value v = true) items -> json_value (VArr items) = true.
Proof.
  intro F; cbn [json_value]; apply forallb_forall; apply Forall_forall; exact F.
Qed.

Lemma json_object (props : list (string * jsval)) :
  Forall (fun kv => json_value (snd kv) = true) props -> json_value (VObj props) = true.
Proof.
  intro F; cbn [json_value]; apply forallb_forall.
  intros kv Hin; exact (proj1 (Forall_forall _ _) F kv Hin).
Qed.

Lemma obj_define_entries (P : string * jsval -> Prop) (k : string) (v : jsval)
    (o : list (string * jsval)) :
  Forall P o -> P (k, v) -> Forall P (obj_define k v o).
Proof.
  intros F Pk; unfold obj_define.
  destruct (obj_update k v o) as [o'|] eqn:U.
  - exact (obj_update_entries P k v o o' F Pk U).
  - destruct (array_index k) as [i|].
    + apply obj_insert_index_entries; assumption.
    + apply Forall_app; split; [exact F|constructor; [exact Pk|constructor]].
Qed.

Lemma read_number_json (s : string) (v : jsval) (r : string) :
  read_number s = Some (v, r) -> json_value v = true.
Proof.
  unfold read_number.
  destruct (match s with String "-" r0 => (true, r0) | _ => (false, s) end) as [negative s'].
  destruct (span is_digit s') as [digits rest].
  destruct (_ && _); [|discriminate].
  destruct (digits_value 10 digits 0); [|discriminate].
  intros [= <- _]; reflexivity.
Qed.

Lemma read_literal_json (word : string) (w v : jsval) (s r : string) :
  json_value w = true -> read_literal word w s = Some (v, r) -> json_value v = true.
Proof.
  intro J; unfold read_literal; destruct (startsWith s word); [|discriminate].
  intros [= <- _]; exact J.
Qed.

Section ReadValue.

Variable read : string -> option (jsval * string).
Hypothesis read_json : forall s v r, read s = Some (v, r) -> json_value v = true.

Lemma elements_json :
  forall (n : nat) (s : string) (acc : list jsval) (v : jsval) (r : string),
    Forall (fun x => json_value x = true) acc ->
    (fix elements (n : nat) (s : string) (acc : list jsval) : option (jsval * string) :=
       match n with
       | O => None
       | S n' =>
           match read s with
           | Some (v, r) =>
               match skip_space r with
               | String "," r' => elements n' r' (acc ++ [v])%list
               | String "]" r' => Some (VArr (acc ++ [v])%list, r')
               | _ => None
               end
           | None => None
           end
       end) n s acc = Some (v, r) ->
    json_value v = true.
Proof.
  induction n as [|n IH]; intros s acc v r F; [discriminate|].
  destruct (read s) as [[x rx]|] eqn:R; [|discriminate].
  assert (Fx : Forall (fun x => json_value x = true) (acc ++ [x])%list).
  { apply Forall_app; split; [exact F|].
    constructor; [exact (read_json s x rx R)|constructor]. }
  destruct (skip_space rx) as [|c r']; [discriminate|].
  ascii_cases c; try discriminate;
    first [ intros [= <- _]; apply json_array, Fx | apply IH, Fx ].
Qed.

Lemma members_json :
  forall (n : nat) (s : string) (acc : list (string * jsval)) (v : jsval) (r : string),
    Forall (fun kv => json_value (snd kv) = true) acc ->
    (fix members (n : nat) (s : string) (acc : list (string * jsval))
       : option (jsval * string) :=
       match n with
       | O => None
       | S n' =>
           match skip_space s with
           | String c r =>
               if Ascii.eqb c dquote then
                 match read_string r with
                 | Some (k, r1) =>
                     match skip_space r1 with
                     | String ":" r2 =>
                         match read r2 with
                         | Some (v, r3) =>
                             match skip_space r3 with
                             | String "," r4 => members n' r4 (obj_define k v acc)
                             | String "}" r4 => Some (VObj (obj_define k v acc), r4)
                             | _ => None
                             end
                         | None => None
                         end
                     | _ => None
                     end
                 | None => None
                 end
               else None
           | EmptyString => None
           end
       end) n s acc = Some (v, r) ->
    json_value v = true.
Proof.
  induction n as [|n IH]; intros s acc v r F; [discriminate|].
  destruct (skip_space s) as [|c r0]; [discriminate|].
  destruct (Ascii.eqb c dquote); [|discriminate].
  destruct (read_string r0) as [[k r1]|]; [|discriminate].
  destruct (skip_space r1) as [|c1 r2]; [discriminate|].
  ascii_cases c1; try discriminate.
  destruct (read r2) as [[x r3]|] eqn:R; [|discriminate].
  assert (Fx : Forall (fun kv => json_value (snd kv) = true) (obj_define k x acc)).
  { apply obj_define_entries; [exact F|exact (read_json r2 x r3 R)]. }
  destruct (skip_space r3) as [|c3 r4]; [discriminate|].
  ascii_cases c3; try discriminate;
    first [ intros [= <- _]; apply json_object, Fx | apply IH, Fx ].
Qed.

End ReadValue.

Lemma read_value_json (fuel : nat) :
  forall s v r, read_value fuel s = Some (v, r) -> json_value v = true.
Proof.
  induction fuel as [|fuel IH]; intros s v r; [discriminate|].
  cbn [read_value].
  destruct (skip_space s) as [|c r0]; [discriminate|].
  destruct (Ascii.eqb c dquote).
  { destruct (read_string r0) as [[body rest]|]; [|discriminate].
    intros [= <- _]; reflexivity. }
  destruct (Ascii.eqb c "["%char).
  { intro H.
    destruct (skip_space r0) as [|c1 r1] eqn:K;
      [exact (elements_json _ IH _ _ _ _ _ (Forall_nil _) H)|].
    ascii_cases c1;
      first [ exact (elements_json _ IH _ _ _ _ _ (Forall_nil _) H)
            | injection H as <- _; reflexivity ]. }
  destruct (Ascii.eqb c "{"%char).
  { intro H.
    destruct (skip_space r0) as [|c1 r1] eqn:K;
      [exact (members_json _ IH _ _ _ _ _ (Forall_nil _) H)|].
    ascii_cases c1;
      first [ exact (members_json _ IH _ _ _ _ _ (Forall_nil _) H)
            | injection H as <- _; reflexivity ]. }
  destruct (Ascii.eqb c "n"%char); [apply read_literal_json; reflexivity|].
  destruct (Ascii.eqb c "t"%char); [apply read_literal_json; reflexivity|].
  destruct (Ascii.eqb c "f"%char); [apply read_literal_json; reflexivity|].
  apply read_number_json.
Qed.

(** The reference parser returns JSON values. *)
Lemma parse_json_values : parses_json parse_json.
Proof.
  intros text v; unfold parse_json.
  destruct (read_value _ text) as [[x rest]|] eqn:R; [|discriminate].
  destruct (skip_space rest); [|discriminate].
  intros [= <-]; exact (read_value_json _ _ _ _ R).
Qed.

Lemma encodeCalldata_outcome_witness :
  exists result,
    encodeCalldata parse_json transfer_codec erc20_abi "transfer(address,uint256)"
      transfer_parameters
    = Done result
    /\ match result with
       | success data =>
           enc_functionSignature data = "transfer(address,uint256)"
           /\ exists func args,
                findFunctionBySignature "transfer(address,uint256)" erc20_abi = Some func
                /\ prepareParametersForEncoding parse_json transfer_parameters (inputs func)
                   = Done args
                /\ transfer_codec func args = Done (enc_calldata data)
       | failure error =>
           (findFunctionBySignature "transfer(address,uint256)" erc20_abi = None
            /\ error = mkActionBuilderError
                         ("Function not found: " ++ "transfer(address,uint256)")
                         FUNCTION_NOT_FOUND)
           \/ (exists func e,
                 findFunctionBySignature "transfer(address,uint256)" erc20_abi = Some func
                 /\ (prepareParametersForEncoding parse_json transfer_parameters
                       (inputs func) = Raise e
                     \/ exists args,
                          prepareParametersForEncoding parse_json transfer_parameters
                            (inputs func) = Done args
                          /\ transfer_codec func args = Raise e)
                 /\ error = mkActionBuilderError ("Failed to encode calldata: " ++ e)
                              ENCODING_FAILED)
       end.
Proof.
  apply (encodeCalldata_outcome parse_json transfer_codec erc20_abi
           "transfer(address,uint256)" transfer_parameters parse_json_values).
  - intros func args; discriminate.
  - repeat constructor.
Defined.

(** Sizes that a double does not hold: the parser rounds a size from 2^53
    on to the nearest double, and reads a size of 310 digits as the
    infinity. *)
Example parseType_of_sizes_beyond_exact :
  arrayDimensions (parseType "uint256[9007199254740993]")
  = [Some (Num 9007199254740992)]
  /\ arrayDimensions (parseType ("uint256[1" ++ zeros 309 ++ "]"))
     = [Some (Infinity false)].
Proof. split; vm_compute; reflexivity. Qed.

(** The length in the rejection of an array is printed as the Number it
    is. *)
Example array_length_texts :
  validateParameterType parse_json (Some "[]") "uint256[9007199254740993]" None
  = Done (invalid "Array must have exactly 9007199254740992 elements")
  /\ validateParameterType parse_json (Some "[]") "uint256[1000000000000000000000]" None
     = Done (invalid "Array must have exactly 1e+21 elements")
  /\ validateParameterType parse_json (Some "[]") ("uint256[1" ++ zeros 309 ++ "]") None
     = Done (invalid "Array must have exactly Infinity elements").
Proof. repeat split; vm_compute; reflexivity. Qed.

(** A tuple parameter whose text is a JSON array or a JSON number has none
    of the fields: the encoding fails on the first of them. *)
Example encodeCalldata_of_a_tuple_without_fields :
  encodeCalldata parse_json transfer_codec [pay_function] "pay(tuple)"
    [ ("payment", VStr "[1,2]") ]
  = Done (failure (mkActionBuilderError
                     "Failed to encode calldata: Missing tuple field: to"
                     ENCODING_FAILED))
  /\ encodeCalldata parse_json transfer_codec [pay_function] "pay(tuple)"
       [ ("payment", VStr "7") ]
     = Done (failure (mkActionBuilderError
                        "Failed to encode calldata: Missing tuple field: to"
                        ENCODING_FAILED)).
Proof. split; vm_compute; reflexivity. Qed.
